(** * rag-prototype: the retrieval-augmented conversation pipeline

    A shallow embedding of the three services of the repository

      - [openaiService]   (intent classification),
      - [documentService] (chunking, ingestion, retrieval),
      - [chatService]     (in-memory sessions, confidence score),

    together with the vector database handle of [config/database.js],
    the error handler of [middleware/errorHandler.js] and the handlers of
    the chat and document routes that call the services; the properties
    of them that the specification states (Part IV), and further
    properties of the services and of their callers (Part V).

    Conventions of the embedding.

      - A JavaScript string that the code cuts into pieces is a list of
        UTF-16 code units ([jsstring]); identifiers, file names and map
        keys are Rocq strings.
      - A [Date] is its number of milliseconds, an integer.
      - JavaScript numbers that carry scores are exact rationals ([Qc]):
        rounding of doubles is not modelled.
      - [await]ed calls to the outside world (OpenAI, Pinecone, the file
        system, the clock, the uuid generator) are answered by explicit
        arguments; a rejected promise or a [throw] is the [Throw] case of
        [Result].
      - Session objects live in a store of objects and the session [Map]
        holds references to them, as in JavaScript; a local variable
        holding a session is a reference too.  The order in which a loop
        visits the entries of the [Map] is an argument of the functions
        whose result depends on it. *)

From Stdlib Require Import ZArith QArith Qcanon Qround List Lia Ascii String.
From stdpp Require Import base option list numbers sorting gmap strings pretty.

Set Default Proof Using "Type".

(* ===================================================================== *)
(** * Part I: definitions                                                 *)
(* ===================================================================== *)

(** ** JavaScript values and library functions used by the services *)

Module Js.

(** A thrown [Error], with its message. *)
Inductive Error := Err (msg : string).

(** Outcome of an expression that may throw / of an awaited promise. *)
Inductive Result (A : Type) :=
| Ok (a : A)
| Throw (e : Error).
Arguments Ok {A} a.
Arguments Throw {A} e.

Definition bind {A B} (r : Result A) (k : A → Result B) : Result B :=
  match r with
  | Ok a => k a
  | Throw e => Throw e
  end.

(** [try { body } catch (error) { handler }] *)
Definition try_catch {A} (body : Result A) (handler : Error → Result A)
  : Result A :=
  match body with
  | Ok a => Ok a
  | Throw e => handler e
  end.

(** Strings that are taken apart: lists of UTF-16 code units. *)
Abbreviation jsstring := (list N).

Definition units (s : string) : jsstring :=
  N_of_ascii <$> list_ascii_of_string s.

(** Code units that [String.prototype.trim] strips: WhiteSpace and
    LineTerminator of ECMAScript. *)
Definition is_whitespace (c : N) : bool :=
  ((9 <=? c) && (c <=? 13) || (c =? 32) || (c =? 160) || (c =? 5760)
   || (8192 <=? c) && (c <=? 8202) || (c =? 8232) || (c =? 8233)
   || (c =? 8239) || (c =? 8287) || (c =? 12288) || (c =? 65279))%N.

Fixpoint drop_while {A} (p : A → bool) (l : list A) : list A :=
  match l with
  | [] => []
  | x :: l' => if p x then drop_while p l' else l
  end.

(** [s.trim()] *)
Definition trim (s : jsstring) : jsstring :=
  rev (drop_while is_whitespace (rev (drop_while is_whitespace s))).

(** [a.slice(start)] for an integer [start] (negative: counted from the
    end; [-0] is [0]). *)
Definition slice {A} (start : Z) (a : list A) : list A :=
  let len := Z.of_nat (length a) in
  let k := if (start <? 0)%Z then Z.max (len + start) 0
           else Z.min start len in
  drop (Z.to_nat k) a.

(** [a.join(sep)] on an array of strings. *)
Fixpoint join (sep : jsstring) (a : list jsstring) : jsstring :=
  match a with
  | [] => []
  | [w] => w
  | w :: a' => w ++ sep ++ join sep a'
  end.

(** [s.split(' ')]: cut at every single occurrence of the separator
    code unit; the pieces may be empty, and the empty string gives one
    empty piece. *)
Fixpoint split_at (sep : N) (s : jsstring) : list jsstring :=
  match s with
  | [] => [[]]
  | c :: s' =>
      if (c =? sep)%N then [] :: split_at sep s'
      else match split_at sep s' with
           | [] => [[c]]
           | w :: ws => (c :: w) :: ws
           end
  end.

(** [s.split(/[.!?]+/)]: cut at every maximal run of the code units
    accepted by [sep].  [in_run] says that the previous code unit was a
    separator; [cur] is the piece being read. *)
Fixpoint split_runs (sep : N → bool) (in_run : bool) (cur : jsstring)
    (s : jsstring) : list jsstring :=
  match s with
  | [] => [cur]
  | c :: s' =>
      if sep c then
        if in_run then split_runs sep true [] s'
        else cur :: split_runs sep true [] s'
      else split_runs sep false (cur ++ [c]) s'
  end.

(** The names of the properties that every object inherits from
    [Object.prototype]; the value of each is a function or an object. *)
Definition Object_prototype_properties : list string :=
  [ "constructor"; "__defineGetter__"; "__defineSetter__"; "hasOwnProperty";
    "__lookupGetter__"; "__lookupSetter__"; "isPrototypeOf";
    "propertyIsEnumerable"; "toString"; "valueOf"; "__proto__";
    "toLocaleString" ].

(** [x || d] on an optional string: [undefined] and [''] are falsy. *)
Definition or_string (x : option string) (d : string) : string :=
  match x with
  | Some s => if bool_decide (s = "") then d else s
  | None => d
  end.

End Js.

Import Js.

#[global] Instance Result_ret : MRet Result := @Ok.
#[global] Instance Result_bind : MBind Result := λ A B k r, Js.bind r k.

(** Code that changes a state of type [S] and may throw: the state
    reached so far is kept when it throws. *)
Definition SE (S A : Type) : Type := S → S * Result A.

#[global] Instance SE_ret {S} : MRet (SE S) := λ A a st, (st, Ok a).
#[global] Instance SE_bind {S} : MBind (SE S) := λ A B k m st,
  match m st with
  | (st', Ok a) => k a st'
  | (st', Throw e) => (st', Throw e)
  end.

Definition get_state {S} : SE S S := λ st, (st, Ok st).
Definition modify_state {S} (f : S → S) : SE S unit := λ st, (f st, Ok tt).
Definition lift {S A} (r : Result A) : SE S A := λ st, (st, r).
Definition throw {S A} (e : Error) : SE S A := lift (Throw e).

(** Decimal literals of the source, as exact rationals. *)
Definition dec (n : Z) (d : positive) : Qc := Q2Qc (n # d).

(** [Math.round(x)]: the nearest integer, halves going up. *)
Definition Math_round (x : Qc) : Qc := Qc_of_Z (Qfloor (x + Q2Qc (1 # 2))%Qc).

(** [Math.min(x, y)] *)
Definition Math_min (x y : Qc) : Qc := if decide (x ≤ y)%Qc then x else y.

(** ** services/openaiService.js *)

Module OpenAIService.

(** The value a classification resolves to, when it is not [null]: the
    two fields its callers read.  [None] is a field that is absent
    ([undefined]), as both are on a value that is not an object; a
    [confianza] that is present is a number. *)
Record Intent := {
  categoria : option string;
  confianza : option Qc
}.

Definition Embedding := list Qc.

(** Reading a property of [undefined]. *)
Definition TypeError : Error := Err "TypeError".

Definition message (e : Error) : string := let 'Err m := e in m.

(** [response.choices[0].message.content]: [None] when the chain of
    property reads throws (no choice, [null] content). *)
Definition first_choice_content (response : option jsstring)
  : Result jsstring :=
  match response with
  | Some content => Ok content
  | None => Throw TypeError
  end.

Section with_JSON.
(** [JSON.parse], restricted to what the callers read of its result:
    [None] is [null], on which reading a property throws, and every other
    value is read through its two fields.  [Throw] is a [SyntaxError]. *)
Variable JSON_parse : jsstring → Result (option Intent).

(** [classifyIntent(query)].  [completion] is the outcome of
    [await this.openai.chat.completions.create(...)] for the prompt
    built from [query]. *)
Definition classifyIntent (query : jsstring)
    (completion : Result (option jsstring)) : Result (option Intent) :=
  try_catch
    (response ← completion;
     try_catch
       (content ← first_choice_content response;
        JSON_parse (trim content))
       (λ parseError,
          Ok (Some {| categoria := Some "general";
                      confianza := Some (dec 5 10) |})))
    (λ error,
       Ok (Some {| categoria := Some "general";
                   confianza := Some (dec 0 10) |})).
End with_JSON.

(** [generateEmbedding(text)]; [created] is the outcome of
    [await this.openai.embeddings.create(...)], the [embedding] fields
    of [response.data]. *)
Definition generateEmbedding (text : jsstring)
    (created : Result (list Embedding)) : Result Embedding :=
  try_catch
    (data ← created;
     match data with
     | e :: _ => Ok e
     | [] => Throw TypeError
     end)
    (λ error, Throw (Err ("Error generando embedding: " +:+ message error))).

(** [generateBatchEmbeddings(texts)] *)
Definition generateBatchEmbeddings (texts : list jsstring)
    (created : Result (list Embedding)) : Result (list Embedding) :=
  try_catch
    (data ← created; Ok data)
    (λ error, Throw (Err ("Error generando embeddings: " +:+ message error))).

(** [generateRAGResponse(query, context, chatHistory)]; the prompt it
    assembles only travels to the provider, whose outcome is
    [completion]. *)
Definition generateRAGResponse {C H} (query : jsstring) (context : list C)
    (chatHistory : list H) (completion : Result (option jsstring))
  : Result jsstring :=
  try_catch
    (response ← completion;
     content ← first_choice_content response;
     Ok (trim content))
    (λ error, Throw (Err ("Error generando respuesta: " +:+ message error))).

(** [generateSummary(text, maxLength)]; [completion] is the outcome of
    the completion call, made with [max_tokens] set to
    [Math.floor(maxLength * 1.5)]. *)
Definition summary_max_tokens (maxLength : nat) : nat := maxLength * 3 / 2.

Definition generateSummary (text : jsstring) (maxLength : nat)
    (completion : Result (option jsstring)) : Result jsstring :=
  try_catch
    (response ← completion;
     content ← first_choice_content response;
     Ok (trim content))
    (λ error, Throw (Err ("Error generando resumen: " +:+ message error))).

End OpenAIService.

(** ** config/database.js *)

Module VectorDatabase.
Import OpenAIService.

(** Metadata stored with a vector. *)
Record Metadata := {
  documentId : string;
  filename : string;
  chunkIndex : nat;
  text : jsstring;
  title : string;
  category : string;
  tags : list string;
  uploadedAt : Z;
  fileSize : nat;
  chunkSize : nat
}.

(** An entry sent to [index.upsert]. *)
Record Vector := {
  id : string;
  values : option Embedding;
  metadata : Metadata
}.

(** An entry of [response.matches]. *)
Record Match := {
  match_id : string;
  score : Qc;
  match_metadata : option Metadata
}.

Record t := {
  initialized : bool;
  index : bool            (* [this.index] is set *)
}.

Definition not_initialized : Error :=
  Err "Vector database no está inicializada".

(** [upsertVectors(vectors)]; [answer] is the outcome of
    [await this.index.upsert(vectors)]. *)
Definition upsertVectors (db : t) (vectors : list Vector)
    (answer : Result unit) : Result unit :=
  if negb (initialized db) || negb (index db) then Throw not_initialized
  else try_catch answer (λ error, Throw error).

(** The value a query is restricted to by [filter.category.$eq]: a
    string, or a value that is not a string (an object or a function). *)
Inductive Category :=
| Name (c : string)
| Not_a_string.

(** [queryVectors(vector, topK, filter)]; [answer] is the outcome of
    [await this.index.query(queryRequest)], its [matches] field
    ([None]: absent). *)
Definition queryVectors (db : t) (vector : Embedding) (topK : nat)
    (filter : option Category) (answer : Result (option (list Match)))
  : Result (list Match) :=
  if negb (initialized db) || negb (index db) then Throw not_initialized
  else try_catch
         (matches ← answer; Ok (default [] matches))
         (λ error, Throw error).

(** The answer of [index.describeIndexStats()]; [None] is a field that
    is absent. *)
Record IndexStats := {
  totalVectorCount : option nat;
  indexFullness : option Qc;
  dimension : option nat
}.

(** [deleteVectors(ids)]; [answer] is the outcome of
    [await this.index.deleteOne(ids)]. *)
Definition deleteVectors (db : t) (ids : list string)
    (answer : Result unit) : Result unit :=
  if negb (initialized db) || negb (index db) then Throw not_initialized
  else try_catch answer (λ error, Throw error).

(** [getIndexStats()]; [answer] is the outcome of
    [await this.index.describeIndexStats()]. *)
Definition getIndexStats (db : t) (answer : Result IndexStats)
  : Result IndexStats :=
  if negb (initialized db) || negb (index db) then Throw not_initialized
  else try_catch answer (λ error, Throw error).

(** The object built by [new VectorDatabase()]. *)
Definition constructor : t := {| initialized := false; index := false |}.

(** Answers of the outside world during one [initialize]:
    whether [PINECONE_API_KEY] is set, [new Pinecone(...)],
    [this.pinecone.index(indexName)], [index.describeIndexStats()],
    [pinecone.createIndex(...)], the successive answers of
    [pinecone.describeIndex(indexName)], read as [status?.ready], and the
    second [this.pinecone.index(indexName)]. *)
Record InitEnv := {
  api_key : bool;
  client : Result unit;
  handle : Result unit;
  describe_stats : Result unit;
  create_index : Result unit;
  polls : list (Result bool);
  handle_again : Result unit
}.

(** [while (!ready) { ... }]: [None] when the answers at hand do not end
    the loop. *)
Fixpoint wait_ready (polls : list (Result bool)) : option (Result unit) :=
  match polls with
  | [] => None
  | Ok true :: _ => Some (Ok tt)
  | Ok false :: polls' => wait_ready polls'
  | Throw e :: _ => Some (Throw e)
  end.

Definition set_index (db : t) : t :=
  {| initialized := initialized db; index := true |}.

Definition set_initialized (db : t) : t :=
  {| initialized := true; index := index db |}.

(** [initialize()]; [None] when it is still waiting for the index. *)
Definition initialize (env : InitEnv) (db : t) : option (t * bool) :=
  if negb (api_key env) then Some (db, false)
  else
    match client env with
    | Throw _ => Some (db, false)
    | Ok _ =>
        match (_ ← handle env; describe_stats env) with
        | Ok _ => Some (set_initialized (set_index db), true)
        | Throw _ =>
            (* the inner [catch]; [this.index] is set if the handle was
               obtained *)
            let db1 := if handle env is Ok _ then set_index db else db in
            match create_index env with
            | Throw _ => Some (db1, false)
            | Ok _ =>
                match wait_ready (polls env) with
                | None => None
                | Some (Throw _) => Some (db1, false)
                | Some (Ok _) =>
                    match handle_again env with
                    | Ok _ => Some (set_initialized (set_index db1), true)
                    | Throw _ => Some (db1, false)
                    end
                end
            end
        end
    end.

End VectorDatabase.

(** ** services/documentService.js *)

Module DocumentService.
Import OpenAIService VectorDatabase.

Definition chunkSize : nat := 1000.
Definition chunkOverlap : nat := 200.

(** The uploaded file (multer file object). *)
Record File := {
  originalname : string;
  path : string;
  size : nat
}.

(** The [metadata] argument of an upload. *)
Record UploadMetadata := {
  md_documentId : option string;
  md_title : option string;
  md_category : option string;
  md_tags : option (list string)
}.

(** *** createChunks *)

(** The class [[.!?]] of the sentence separator. *)
Definition is_terminator (c : N) : bool :=
  ((c =? 46) || (c =? 33) || (c =? 63))%N.

Definition space : N := 32%N.

(** [text.split(/[.!?]+/).filter(sentence => sentence.trim().length > 0)] *)
Definition sentences (text : jsstring) : list jsstring :=
  filter (λ sentence, 0 < length (trim sentence))
         (split_runs is_terminator false [] text).

(** The variables of the loop of [createChunks]. *)
Record Acc := {
  chunks : list jsstring;
  currentChunk : jsstring;
  currentLength : nat
}.

(** One turn of [for (const sentence of sentences)]. *)
Definition add_sentence (st : Acc) (sentence : jsstring) : Acc :=
  let sentenceLength := length (trim sentence) in
  if bool_decide (chunkSize < currentLength st + sentenceLength)
     && bool_decide (0 < length (currentChunk st))
  then
    let chunks' := chunks st ++ [trim (currentChunk st)] in
    let words := split_at space (currentChunk st) in
    let overlapWords := slice (- Z.of_nat (chunkOverlap / 6)) words in
    let cur := join [space] overlapWords ++ [space] ++ trim sentence in
    {| chunks := chunks'; currentChunk := cur; currentLength := length cur |}
  else
    let cur := currentChunk st
               ++ (if bool_decide (currentChunk st ≠ []) then [space] else [])
               ++ trim sentence in
    {| chunks := chunks st; currentChunk := cur;
       currentLength := length cur |}.

(** The array [chunks] just before the final [filter]. *)
Definition closedChunks (text : jsstring) : list jsstring :=
  let st := foldl add_sentence
              {| chunks := []; currentChunk := []; currentLength := 0 |}
              (sentences text) in
  if bool_decide (0 < length (trim (currentChunk st)))
  then chunks st ++ [trim (currentChunk st)]
  else chunks st.

Definition createChunks (text : jsstring) : list jsstring :=
  filter (λ chunk, 50 < length chunk) (closedChunks text).

(** *** generateVectorData *)

(** [created]: outcome of the embeddings call; [uuid]: what [uuidv4()]
    returns if it is called; [now index]: the clock when chunk [index]
    is mapped. *)
Definition generateVectorData (chunks : list jsstring) (file : File)
    (metadata : UploadMetadata) (created : Result (list Embedding))
    (uuid : string) (now : nat → Z) : Result (list Vector) :=
  try_catch
    (embeddings ← generateBatchEmbeddings chunks created;
     let documentId := or_string (md_documentId metadata) uuid in
     Ok (imap (λ index chunk,
                 {| id := documentId +:+ "_chunk_" +:+ pretty index;
                    values := embeddings !! index;
                    metadata :=
                      {| documentId := documentId;
                         filename := originalname file;
                         chunkIndex := index;
                         text := chunk;
                         title := or_string (md_title metadata)
                                            (originalname file);
                         category := or_string (md_category metadata)
                                               "general";
                         tags := default [] (md_tags metadata);
                         uploadedAt := now index;
                         fileSize := size file;
                         VectorDatabase.chunkSize := length chunk |} |})
              chunks))
    (λ error, Throw error).

(** *** processDocument *)

(** What [processDocument] acts on: the temporary files on disk, the
    vector database handle and the batches the index has accepted. *)
Record World := {
  files : gset string;
  db : VectorDatabase.t;
  upserted : list (list Vector)
}.

(** Answers of the outside world during one [processDocument]. *)
Record Env := {
  read : Result (option jsstring);   (* reading and parsing the file *)
  created : Result (list Embedding); (* embeddings call *)
  uuid_vectors : string;             (* first uuidv4() *)
  uploaded : nat → Z;
  upsert_answer : Result unit;       (* index.upsert *)
  unlink_answer : Result unit;       (* fs.unlink *)
  uuid_result : string;              (* second uuidv4() *)
  processed : Z
}.

Record Processed := {
  result_documentId : string;
  result_filename : string;
  result_fileSize : nat;
  chunksCreated : nat;
  status : string;
  processedAt : Z
}.

Section with_path.
(** [path.extname(name).toLowerCase().slice(1)] of Node's [path]. *)
Variable extension_of : string → string.

(** [extractText(file)] with [extractFromPDF], [extractFromText] and
    [extractFromDocx] *)
Definition extractText (file : File) (read : Result (option jsstring))
  : Result (option jsstring) :=
  let extension := extension_of (originalname file) in
  if bool_decide (extension = "pdf") then
    try_catch read (λ error, Throw (Err "Error procesando archivo PDF"))
  else if bool_decide (extension = "txt" ∨ extension = "md") then
    try_catch read
              (λ error, Throw (Err "Error procesando archivo de texto"))
  else if bool_decide (extension = "docx") then
    try_catch read (λ error, Throw (Err "Error procesando archivo DOCX"))
  else Throw (Err ("Tipo de archivo no soportado: " +:+ extension)).

(** [await vectorDB.upsertVectors(vectors)], with the index recording
    a batch it accepts. *)
Definition upsert (vectors : list Vector) (answer : Result unit)
  : SE World unit :=
  w ← get_state;
  _ ← lift (upsertVectors (db w) vectors answer);
  modify_state (λ w, {| files := files w; db := db w;
                        upserted := upserted w ++ [vectors] |}).

(** [try { await fs.unlink(file.path) } catch (error) { warn }] *)
Definition unlink_quietly (path : string) (answer : Result unit)
  : SE World unit :=
  match answer with
  | Ok _ => modify_state (λ w, {| files := files w ∖ {[path]};
                                   db := db w; upserted := upserted w |})
  | Throw _ => mret tt
  end.

(** [if (!text || text.trim().length === 0) throw new Error(...)] *)
Definition usable_text (text : option jsstring) : SE World jsstring :=
  match text with
  | Some text =>
      if bool_decide (text = [] ∨ length (trim text) = 0)
      then throw (Err "No se pudo extraer texto del documento")
      else mret text
  | None => throw (Err "No se pudo extraer texto del documento")
  end.

Definition processDocument (file : File) (metadata : UploadMetadata)
    (env : Env) : SE World Processed :=
  text ← lift (extractText file (read env));
  text ← usable_text text;
  let chunks := createChunks text in
  vectors ← lift (generateVectorData chunks file metadata (created env)
                    (uuid_vectors env) (uploaded env));
  _ ← upsert vectors (upsert_answer env);
  _ ← unlink_quietly (path file) (unlink_answer env);
  mret {| result_documentId :=
            or_string (md_documentId metadata) (uuid_result env);
          result_filename := originalname file;
          result_fileSize := size file;
          chunksCreated := length chunks;
          status := "processed";
          processedAt := processed env |}.
End with_path.

(** *** searchDocuments *)

Record SearchOptions := {
  topK : option nat;
  opt_category : option Category;
  minScore : option Qc
}.

Record Doc := {
  doc_id : string;
  doc_score : Qc;
  doc_metadata : option Metadata;
  doc_text : jsstring
}.

(** [if (category) filter.category = { $eq: category }]: the category the
    query is restricted to, if any; the empty string is falsy, objects
    and functions are not. *)
Definition category_filter (category : option Category)
  : option Category :=
  match category with
  | Some (Name c) => if bool_decide (c = "") then None else Some (Name c)
  | Some Not_a_string => Some Not_a_string
  | None => None
  end.

(** [result => ({ id, score, metadata, text: metadata?.text || '' })] *)
Definition format_match (result : Match) : Doc :=
  {| doc_id := match_id result;
     doc_score := score result;
     doc_metadata := match_metadata result;
     doc_text := from_option text [] (match_metadata result) |}.

(** [searchDocuments(query, options)]; [created]: outcome of the
    embedding call for the query; [answer]: outcome of the index query. *)
Definition searchDocuments (db : VectorDatabase.t) (query : jsstring)
    (options : SearchOptions) (created : Result (list Embedding))
    (answer : Result (option (list Match))) : Result (list Doc) :=
  try_catch
    (let topK := default 5 (topK options) in
     let category := opt_category options in
     let minScore := default (dec 7 10) (minScore options) in
     queryEmbedding ← generateEmbedding query created;
     let filter_ := category_filter category in
     results ← queryVectors db queryEmbedding topK filter_ answer;
     Ok (format_match
           <$> filter (λ result, (minScore ≤ score result)%Qc)
                      (results : list Match)))
    (λ error, Throw error).

(** *** deleteDocument, getDocumentStats *)

(** [deleteDocument(documentId)]; [answer] is the outcome of the
    statistics call of the index. *)
Definition deleteDocument (documentId : string)
    (answer : Result IndexStats) : SE World bool :=
  w ← get_state;
  lift (try_catch
          (stats ← getIndexStats (db w) answer; Ok true)
          (λ error, Ok false)).

Record DocumentStats := {
  totalVectors : nat;
  stats_indexFullness : Qc;
  stats_dimension : nat;
  lastUpdate : Z
}.

(** [x || d] on an optional number: [undefined] and [0] are falsy. *)
Definition or_nat (x : option nat) (d : nat) : nat :=
  match x with
  | Some n => if bool_decide (n = 0) then d else n
  | None => d
  end.

Definition or_Qc (x : option Qc) (d : Qc) : Qc :=
  match x with
  | Some q => if bool_decide (q = 0%Qc) then d else q
  | None => d
  end.

(** [getDocumentStats()]; [now1] and [now2] are the readings of the clock
    on the two paths. *)
Definition getDocumentStats (db : VectorDatabase.t)
    (answer : Result IndexStats) (now1 now2 : Z) : Result DocumentStats :=
  try_catch
    (indexStats ← getIndexStats db answer;
     Ok {| totalVectors := or_nat (totalVectorCount indexStats) 0;
           stats_indexFullness := or_Qc (indexFullness indexStats) 0%Qc;
           stats_dimension := or_nat (dimension indexStats) 1536;
           lastUpdate := now1 |})
    (λ error,
       Ok {| totalVectors := 0; stats_indexFullness := 0%Qc;
             stats_dimension := 1536; lastUpdate := now2 |}).

End DocumentService.

(** ** services/chatService.js *)

Module ChatService.
Import OpenAIService VectorDatabase DocumentService.

Definition maxHistoryLength : nat := 20.
Definition sessionTimeout : Z := 1000 * 60 * 60.

Inductive Role := user | assistant.

Record Source := {
  src_documentId : option string;
  src_filename : option string;
  src_score : Qc
}.

Record Message := {
  msg_id : string;
  role : Role;
  content : jsstring;
  timestamp : Z;
  intent : option Intent;             (* user messages *)
  sources : option (list Source);     (* assistant messages *)
  confidence : option Qc              (* assistant messages *)
}.

Record Session := {
  sid : string;
  userId : option string;
  createdAt : Z;
  lastActivity : Z;
  messages : list Message;
  session_metadata : gmap string string;
  isActive : bool;
  endedAt : option Z
}.

(** A reference to a session object. *)
Definition ref := nat.

(** The service: the [Map] from session ids to session objects, and the
    objects themselves. *)
Record t := {
  chatSessions : gmap string ref;
  objects : gmap ref Session
}.

Definition constructor : t := {| chatSessions := ∅; objects := ∅ |}.

(** Assignments to the fields of a session object. *)
Definition set_lastActivity (d : Z) (o : Session) : Session :=
  {| sid := sid o; userId := userId o; createdAt := createdAt o;
     lastActivity := d; messages := messages o;
     session_metadata := session_metadata o; isActive := isActive o;
     endedAt := endedAt o |}.

Definition set_messages (ms : list Message) (o : Session) : Session :=
  {| sid := sid o; userId := userId o; createdAt := createdAt o;
     lastActivity := lastActivity o; messages := ms;
     session_metadata := session_metadata o; isActive := isActive o;
     endedAt := endedAt o |}.

Definition set_ended (d : Z) (o : Session) : Session :=
  {| sid := sid o; userId := userId o; createdAt := createdAt o;
     lastActivity := lastActivity o; messages := messages o;
     session_metadata := session_metadata o; isActive := false;
     endedAt := Some d |}.

(** [session.messages.push(...)] *)
Definition push_messages (new : list Message) (o : Session) : Session :=
  set_messages (messages o ++ new) o.

(** [if (session.messages.length > this.maxHistoryLength * 2)
      session.messages = session.messages.slice(-this.maxHistoryLength * 2)] *)
Definition limit_history (o : Session) : Session :=
  if bool_decide (maxHistoryLength * 2 < length (messages o))
  then set_messages
         (slice (- Z.of_nat maxHistoryLength * 2) (messages o)) o
  else o.

(** [session.field = ...] through the reference [session]. *)
Definition update (session : ref) (f : Session → Session) : SE t unit :=
  modify_state (λ cs, {| chatSessions := chatSessions cs;
                         objects := alter f session (objects cs) |}).

(** The object a key of the [Map] leads to. *)
Definition stored (cs : t) (sessionId : string) : option Session :=
  session ← chatSessions cs !! sessionId; objects cs !! session.

Record Created := {
  created_sessionId : string;
  created_createdAt : Z;
  welcomeMessage : string
}.

(** [createChatSession(userId, metadata)]; [uuid] is what [uuidv4()]
    returns, [now1] and [now2] the two readings of the clock. *)
Definition createChatSession (userId : option string)
    (metadata : gmap string string) (uuid : string) (now1 now2 : Z)
  : SE t Created := λ cs,
  let sessionId := uuid in
  let session :=
    {| sid := sessionId; userId := userId; createdAt := now1;
       lastActivity := now2; messages := [];
       session_metadata :=
         metadata ∪ {[ "userAgent" := ""; "ip" := ""; "source" := "web" ]};
       isActive := true; endedAt := None |} in
  let r := fresh (dom (objects cs)) in
  ({| chatSessions := <[sessionId := r]> (chatSessions cs);
      objects := <[r := session]> (objects cs) |},
   Ok {| created_sessionId := sessionId; created_createdAt := now1;
         welcomeMessage :=
           "¡Hola! Soy tu asistente de atención al cliente. ¿En qué puedo ayudarte hoy?" |}).

(** [getSession(sessionId)]; [now] is the reading of the clock. *)
Definition getSession (sessionId : string) (now : Z) : SE t (option ref) :=
  λ cs,
  match chatSessions cs !! sessionId with
  | None => (cs, Ok None)
  | Some session =>
      match objects cs !! session with
      | None => (cs, Ok None)
      | Some o =>
          let timeDiff := (now - lastActivity o)%Z in
          if bool_decide (sessionTimeout < timeDiff)%Z then
            ({| chatSessions := delete sessionId (chatSessions cs);
                objects := objects cs |}, Ok None)
          else (cs, Ok (Some session))
      end
  end.

(** [getChatHistory(session)] *)
Definition getChatHistory (o : Session) : list Message :=
  slice (-10) (messages o).

(** [endChatSession(sessionId)] *)
Definition endChatSession (sessionId : string) (now_get now_end : Z)
  : SE t bool :=
  session ← getSession sessionId now_get;
  match session with
  | None => mret false
  | Some session =>
      _ ← update session (set_ended now_end);
      mret true
  end.

(** The test of the loop of [cleanExpiredSessions] on one entry. *)
Definition is_expired (cs : t) (now : Z) (entry : string * ref) : Prop :=
  match objects cs !! entry.2 with
  | Some o => (sessionTimeout < now - lastActivity o)%Z
  | None => False
  end.

#[global] Instance is_expired_dec cs now entry :
  Decision (is_expired cs now entry).
Proof. unfold is_expired. destruct (objects cs !! entry.2); apply _. Defined.

(** [cleanExpiredSessions()] *)
Definition cleanExpiredSessions (now : Z) : SE t unit :=
  modify_state (λ cs,
    let expiredSessions :=
      (filter (is_expired cs now) (map_to_list (chatSessions cs))).*1 in
    {| chatSessions :=
         foldl (λ m sessionId, delete sessionId m) (chatSessions cs)
               expiredSessions;
       objects := objects cs |}).

(** [mapIntentToCategory(intent)]: [intentToCategory[intent] || null].
    The lookup in the object literal also finds the properties it
    inherits, whose values are not strings. *)
Definition mapIntentToCategory (intent : option string)
  : option Category :=
  match intent with
  | Some i =>
      if bool_decide (i = "soporte_tecnico") then Some (Name "technical")
      else if bool_decide (i = "facturacion") then Some (Name "billing")
      else if bool_decide (i = "producto_info") then Some (Name "product")
      else if bool_decide (i = "cuenta_usuario") then Some (Name "account")
      else if bool_decide (i = "devolucion_reembolso")
           then Some (Name "returns")
      else if bool_decide (i = "general") then None
      else if bool_decide (i ∈ Object_prototype_properties)
           then Some Not_a_string
      else None
  | None => None
  end.

(** [intent.confianza || 0.5]: [undefined] and [0] are falsy. *)
Definition or_number (x : option Qc) (d : Qc) : Qc :=
  match x with
  | Some q => if bool_decide (q = 0%Qc) then d else q
  | None => d
  end.

(** [calculateConfidence(relevantDocs, intent)] *)
Definition calculateConfidence (relevantDocs : list Doc) (intent : Intent)
  : Qc :=
  if bool_decide (length relevantDocs = 0) then dec 1 10
  else
    let avgScore :=
      (foldl (λ sum doc, sum + doc_score doc) 0 relevantDocs
       / Qc_of_Z (Z.of_nat (length relevantDocs)))%Qc in
    let intentConfidence := or_number (confianza intent) (dec 5 10) in
    Math_min (avgScore * dec 7 10 + intentConfidence * dec 3 10)%Qc 1%Qc.

Record Exported := {
  exp_sessionId : string;
  exp_userId : option string;
  exp_createdAt : Z;
  exp_endedAt : option Z;
  exp_isActive : bool;
  exp_metadata : gmap string string;
  exp_messages : list Message
}.

(** [exportSessionData(sessionId)]; [None] is [null]. *)
Definition exportSessionData (cs : t) (sessionId : string)
  : option Exported :=
  match stored cs sessionId with
  | None => None
  | Some session =>
      Some {| exp_sessionId := sessionId;
              exp_userId := userId session;
              exp_createdAt := createdAt session;
              exp_endedAt := endedAt session;
              exp_isActive := isActive session;
              exp_metadata := session_metadata session;
              exp_messages :=
                (λ msg, {| msg_id := msg_id msg; role := role msg;
                           content := content msg;
                           timestamp := timestamp msg;
                           intent := intent msg;
                           sources := sources msg;
                           confidence := None |})
                <$> messages session |}
  end.

(** Answers of the outside world during one [processMessage], in the
    order in which the code asks for them. *)
Record Env := {
  t_get : Z;                                    (* clock, in getSession *)
  t_sweep : Z;                                  (* clock, in the sweep *)
  t_activity : Z;                               (* clock, lastActivity *)
  classification : Result (option jsstring);    (* completion call *)
  query_embedding : Result (list Embedding);    (* embedding call *)
  index_answer : Result (option (list Match));  (* index query *)
  generation : Result (option jsstring);        (* completion call *)
  uuid_user : string;
  t_user : Z;
  uuid_assistant : string;
  t_assistant : Z
}.

Record Response := {
  messageId : string;
  response : jsstring;
  resp_sources : list Source;
  resp_intent : Intent;
  resp_confidence : Qc;
  resp_timestamp : Z
}.

Section with_collaborators.
Variable JSON_parse : jsstring → Result (option Intent).
Variable vectorDB : VectorDatabase.t.

(** [processMessage(sessionId, message, options)]; [maxResults] is
    [options.maxResults]. *)
Definition processMessage (sessionId : string) (message : jsstring)
    (maxResults : option nat) (env : Env) : SE t Response :=
  session ← getSession sessionId (t_get env);
  session ← match session with
             | Some session => mret session
             | None => throw (Err "Sesión de chat no encontrada")
             end;
  _ ← cleanExpiredSessions (t_sweep env);
  _ ← update session (set_lastActivity (t_activity env));
  intent ← lift (classifyIntent JSON_parse message (classification env));
  (* [intent.categoria] *)
  intent ← match intent with
            | Some intent => mret intent
            | None => throw TypeError
            end;
  let searchOptions :=
    {| topK := Some (match maxResults with
                     | Some n => if bool_decide (n = 0) then 5 else n
                     | None => 5
                     end);
       opt_category := mapIntentToCategory (categoria intent);
       minScore := Some (dec 6 10) |} in
  relevantDocs ← lift (searchDocuments vectorDB message searchOptions
                         (query_embedding env) (index_answer env));
  cs ← get_state;
  let chatHistory :=
    from_option getChatHistory [] (objects cs !! session) in
  response ← lift (generateRAGResponse message relevantDocs chatHistory
                     (generation env));
  let userMessage :=
    {| msg_id := uuid_user env; role := user; content := message;
       timestamp := t_user env; intent := Some intent;
       sources := None; confidence := None |} in
  let assistantMessage :=
    {| msg_id := uuid_assistant env; role := assistant;
       content := response; timestamp := t_assistant env;
       intent := None;
       sources :=
         Some ((λ doc,
                  {| src_documentId := documentId <$> doc_metadata doc;
                     src_filename := filename <$> doc_metadata doc;
                     src_score := doc_score doc |})
               <$> relevantDocs);
       confidence := Some (calculateConfidence relevantDocs intent) |} in
  _ ← update session (push_messages [userMessage; assistantMessage]);
  _ ← update session limit_history;
  mret {| messageId := msg_id assistantMessage;
          response := response;
          resp_sources := default [] (sources assistantMessage);
          resp_intent := intent;
          resp_confidence := calculateConfidence relevantDocs intent;
          resp_timestamp := timestamp assistantMessage |}.
End with_collaborators.

(** *** getActiveSessions, getChatStats *)

Record ActiveSession := {
  as_sessionId : string;
  as_userId : option string;
  as_createdAt : Z;
  as_lastActivity : Z;
  messageCount : nat;
  as_isActive : bool
}.

(** The body of the loop of [getActiveSessions] on one entry; [now] is
    the reading of the clock in that turn. *)
Definition active_entry (cs : t) (now : Z) (entry : string * ref)
  : option ActiveSession :=
  session ← objects cs !! entry.2;
  if bool_decide (now - lastActivity session ≤ sessionTimeout)%Z
  then Some {| as_sessionId := entry.1;
               as_userId := userId session;
               as_createdAt := createdAt session;
               as_lastActivity := lastActivity session;
               messageCount := length (messages session);
               as_isActive := isActive session |}
  else None.

(** [getActiveSessions()]; [order] lists the keys of the [Map] in the
    order in which the loop visits its entries, which is the order in
    which they were inserted; [now sessionId] is the reading of the clock
    in the turn of the loop that visits [sessionId]. *)
Definition getActiveSessions (now : string → Z) (order : list string)
    (cs : t) : list ActiveSession :=
  omap (λ sessionId,
          session ← chatSessions cs !! sessionId;
          active_entry cs (now sessionId) (sessionId, session))
       order.

(** [Array.from(this.chatSessions.values())], in the order of
    [map_to_list]: the count, the sums and the maximum that [getChatStats]
    takes of it do not depend on the order. *)
Definition session_values (cs : t) : list Session :=
  omap (λ entry : string * ref, objects cs !! entry.2)
       (map_to_list (chatSessions cs)).

(** [Math.max(...xs)] on a non-empty list. *)
Definition Math_max (xs : list Z) : option Z :=
  match xs with
  | [] => None
  | x :: xs' => Some (foldl Z.max x xs')
  end.

Record ChatStats := {
  totalSessions : nat;
  activeSessions : nat;
  totalMessages : nat;
  avgMessagesPerSession : Qc;
  stats_lastActivity : option Z
}.

(** [getChatStats()] *)
Definition getChatStats (cs : t) : ChatStats :=
  let sessions := session_values cs in
  let activeSessions := filter (λ s, isActive s = true) sessions in
  let totalMessages :=
    foldl (λ sum session, sum + length (messages session)) 0 sessions in
  let avgMessagesPerSession :=
    if bool_decide (0 < length sessions)
    then (Qc_of_Z (Z.of_nat totalMessages)
          / Qc_of_Z (Z.of_nat (length sessions)))%Qc
    else 0%Qc in
  {| totalSessions := length sessions;
     activeSessions := length activeSessions;
     totalMessages := totalMessages;
     avgMessagesPerSession :=
       (Math_round (avgMessagesPerSession * Qc_of_Z 100) / Qc_of_Z 100)%Qc;
     stats_lastActivity :=
       if bool_decide (0 < length sessions)
       then Math_max (lastActivity <$> sessions)
       else None |}.

End ChatService.

(** ** middleware/errorHandler.js *)

Module ErrorHandler.

(** What [errorHandler] reads of the value it is given.  [message] is
    [None] when [err.message] is not a string ([undefined] on a value
    that is not an [Error]): calling [includes] on it throws. *)
Record Thrown := {
  name : string;
  code : option string;
  message : option string;
  errors : option (list string);   (* the messages of [err.errors] *)
  stack : option string
}.

(** An error made by [new Error(message)]. *)
Definition plain_error (e : Js.Error) (stack : option string) : Thrown :=
  {| name := "Error"; code := None;
     message := Some (OpenAIService.message e);
     errors := None; stack := stack |}.

(** The object [error] that the handler builds. *)
Record ErrorBody := {
  body_message : string;
  status : nat;
  details : option (list string);
  body_stack : option string
}.

Fixpoint starts_with (needle s : string) : bool :=
  match needle, s with
  | EmptyString, _ => true
  | String a needle', String b s' =>
      bool_decide (a = b) && starts_with needle' s'
  | String _ _, EmptyString => false
  end.

(** [s.includes(needle)] *)
Fixpoint includes (s needle : string) : bool :=
  starts_with needle s
  || match s with
     | EmptyString => false
     | String _ s' => includes s' needle
     end.

(** [error.message = ...; error.status = ...] *)
Definition set_error (message : string) (status : nat) (error : ErrorBody)
  : ErrorBody :=
  {| body_message := message; status := status; details := details error;
     body_stack := body_stack error |}.

(** [errorHandler(err, req, res, next)]: the status and the body of the
    answer; [development] is [process.env.NODE_ENV === 'development']. *)
Definition errorHandler (development : bool) (err : Thrown)
  : Result ErrorBody :=
  let error := {| body_message := "Error interno del servidor";
                  status := 500; details := None; body_stack := None |} in
  error ← (if bool_decide (name err = "ValidationError") then
             match errors err with
             | Some messages =>
                 Ok {| body_message := "Datos de entrada inválidos";
                       status := 400; details := Some messages;
                       body_stack := None |}
             | None => Throw OpenAIService.TypeError
             end
           else Ok error);
  let error :=
    if bool_decide (name err = "JsonWebTokenError")
    then set_error "Token de autenticación inválido" 401 error else error in
  let error :=
    if bool_decide (name err = "TokenExpiredError")
    then set_error "Token de autenticación expirado" 401 error else error in
  let error :=
    if bool_decide (code err = Some "LIMIT_FILE_SIZE")
    then set_error
           "El archivo es demasiado grande. Tamaño máximo permitido: 10MB"
           413 error
    else error in
  let error :=
    if bool_decide (code err = Some "INVALID_FILE_TYPE")
    then set_error
           "Tipo de archivo no permitido. Formatos soportados: PDF, TXT, MD, DOCX"
           400 error
    else error in
  (* [err.message.includes(...)] *)
  message ← match message err with
             | Some message => Ok message
             | None => Throw OpenAIService.TypeError
             end;
  let error :=
    if includes message "OpenAI" || includes message "embedding"
    then set_error
           "Error en el servicio de inteligencia artificial. Por favor intenta de nuevo."
           503 error
    else error in
  let error :=
    if includes message "Pinecone" || includes message "vector"
    then set_error "Error en la base de datos. Por favor intenta de nuevo."
                   503 error
    else error in
  let error :=
    if bool_decide (code err = Some "ECONNREFUSED"
                    ∨ code err = Some "ETIMEDOUT")
    then set_error
           "Error de conexión. Por favor verifica tu conexión a internet."
           503 error
    else error in
  Ok {| body_message := body_message error; status := status error;
        details := details error;
        body_stack :=
          if development then
            match stack err with
            | Some trace => if bool_decide (trace = "") then None
                            else Some trace
            | None => None
            end
          else None |}.

End ErrorHandler.

(** ** routes/chat.js and routes/documents.js *)

Module Routes.
Import OpenAIService VectorDatabase DocumentService ChatService.

(** What a route handler does with its request: answer with a status and
    data, answer with a status and an error message, or hand the error
    over with [next(error)]. *)
Inductive Reply (A : Type) :=
| Json (status : nat) (data : A)
| Refused (status : nat) (message : string)
| Next (error : Error).
Arguments Json {A} status data.
Arguments Refused {A} status message.
Arguments Next {A} error.

Section with_collaborators.
Variable JSON_parse : jsstring → Result (option Intent).
Variable vectorDB : VectorDatabase.t.

(** [POST /api/chat/message]; [valid] is [validationResult(req).isEmpty()],
    the other arguments are the fields of [req.body]. *)
Definition post_message (valid : bool) (sessionId : string)
    (message : jsstring) (maxResults : option nat) (env : ChatService.Env)
    (cs : ChatService.t) : ChatService.t * Reply Response :=
  if negb valid then (cs, Refused 400 "Datos de entrada inválidos")
  else
    let maxResults := default 5 maxResults in
    match processMessage JSON_parse vectorDB sessionId message
                         (Some maxResults) env cs with
    | (cs', Ok response) => (cs', Json 200 response)
    | (cs', Throw error) =>
        if bool_decide (OpenAIService.message error
                        = "Sesión de chat no encontrada")
        then (cs', Refused 404 "Sesión de chat no encontrada")
        else (cs', Next error)
    end.
End with_collaborators.

(** [POST /api/chat/session/:sessionId/end] *)
Definition post_end_session (sessionId : string) (now_get now_end : Z)
    (cs : ChatService.t) : ChatService.t * Reply string :=
  match endChatSession sessionId now_get now_end cs with
  | (cs', Ok true) => (cs', Json 200 sessionId)
  | (cs', Ok false) => (cs', Refused 404 "Sesión de chat no encontrada")
  | (cs', Throw error) => (cs', Next error)
  end.

(** The authenticated user of a request. *)
Record User := {
  user_id : string;
  user_role : string
}.

(** The sessions listed by [GET /api/chat/sessions] once the request has
    passed authentication and validation; [limit] is the integer that
    [req.query.limit] denotes and [active] is [req.query.active]; [now]
    and [order] are those of [getActiveSessions]. *)
Definition get_sessions (user : User) (limit : option nat)
    (active : option string) (now : string → Z) (order : list string)
    (cs : ChatService.t) : list ActiveSession :=
  let limit := default 50 limit in
  let sessions := getActiveSessions now order cs in
  let sessions :=
    if bool_decide (user_role user ≠ "admin")
    then filter (λ session, as_userId session = Some (user_id user)) sessions
    else sessions in
  (* [active] is [true] when the parameter is absent, never [undefined] *)
  let isActive := bool_decide (active = Some "true") in
  let sessions := filter (λ session, as_isActive session = isActive) sessions in
  take limit sessions.

(** [DELETE /api/documents/:documentId], for an authenticated
    administrator. *)
Definition delete_document (documentId : string)
    (answer : Result IndexStats) (w : World) : World * Reply string :=
  match deleteDocument documentId answer w with
  | (w', Ok true) => (w', Json 200 documentId)
  | (w', Ok false) =>
      (w', Refused 404 "Documento no encontrado o error al eliminar")
  | (w', Throw error) => (w', Next error)
  end.

End Routes.

(* ===================================================================== *)
(** * Part II: notions used in the statements                            *)
(* ===================================================================== *)

Import OpenAIService VectorDatabase DocumentService ChatService.

(** The fallback intents of [classifyIntent]. *)
Definition general_intent (confidence : Qc) : Intent :=
  {| categoria := Some "general"; confianza := Some confidence |}.

(** Scores listed from the most to the least similar. *)
Definition descending (scores : list Qc) : Prop :=
  StronglySorted (λ a b, (b ≤ a)%Qc) scores.

(** The intent [classifyIntent] falls back to when the provider call
    fails. *)
Definition failed_classification : Intent := general_intent (dec 0 10).

(** The session [sessionId] is in the store and has not expired at [now]:
    [getSession] finds it. *)
Definition reachable (cs : ChatService.t) (sessionId : string) (now : Z)
    (session : ref) (o : Session) : Prop :=
  chatSessions cs !! sessionId = Some session
  ∧ objects cs !! session = Some o
  ∧ (now - lastActivity o ≤ sessionTimeout)%Z.

(** The session [sessionId] is in the store and has expired at [now]. *)
Definition expired (cs : ChatService.t) (sessionId : string) (now : Z)
    (session : ref) (o : Session) : Prop :=
  chatSessions cs !! sessionId = Some session
  ∧ objects cs !! session = Some o
  ∧ (sessionTimeout < now - lastActivity o)%Z.

(** No two keys of the [Map] lead to the same session object, and every
    key leads to an object.  [createChatSession], the only writer of the
    [Map], binds a key to an object it has just made. *)
Definition well_formed (cs : ChatService.t) : Prop :=
  (∀ i r, chatSessions cs !! i = Some r → is_Some (objects cs !! r))
  ∧ (∀ i j r, chatSessions cs !! i = Some r → chatSessions cs !! j = Some r →
              i = j).

(** A string that begins, respectively ends, with a code unit that [trim]
    does not strip. *)
Definition starts_solid (x : jsstring) : Prop :=
  ∃ c y, x = c :: y ∧ is_whitespace c = false.

Definition ends_solid (x : jsstring) : Prop :=
  ∃ y c, x = y ++ [c] ∧ is_whitespace c = false.

(** The sentences of one chunk, trimmed and joined by single spaces. *)
Definition body (block : list jsstring) : jsstring :=
  join [DocumentService.space] (trim <$> block).

(** At most [chunkOverlap / 6] words, that is fewer separating spaces. *)
Definition few_words (overlap : jsstring) : Prop :=
  length (split_at DocumentService.space overlap) ≤ chunkOverlap / 6.

(** [chunks] are made of the blocks of sentences [blocks], one chunk per
    block: the first chunk is the body of the first block, and every
    later chunk is an overlap taken from the end of the chunk before it,
    of at most [chunkOverlap / 6] words, then a space, then the body of
    its block. *)
Definition chunked_as (blocks : list (list jsstring))
    (chunks : list jsstring) : Prop :=
  length blocks = length chunks
  ∧ ∀ i block chunk,
      blocks !! i = Some block → chunks !! i = Some chunk →
      block ≠ []
      ∧ match i with
        | 0 => chunk = body block
        | S j =>
            ∃ previous overlap,
              chunks !! j = Some previous
              ∧ overlap `suffix_of` previous
              ∧ few_words overlap
              ∧ chunk = overlap ++ [DocumentService.space] ++ body block
        end.

(** What the loop of [createChunks] maintains, [done] being the sentences
    read so far. *)
Definition loop_invariant (done : list jsstring) (st : Acc) : Prop :=
  currentLength st = length (currentChunk st)
  ∧ ((done = [] ∧ chunks st = [] ∧ currentChunk st = [])
     ∨ (ends_solid (currentChunk st)
        ∧ ∃ blocks,
            concat blocks = done
            ∧ chunked_as blocks (chunks st ++ [trim (currentChunk st)]))).

(** [order] lists the keys of the session [Map] as a loop over its
    entries visits them: every key, once. *)
Definition visiting_order (cs : ChatService.t) (order : list string)
  : Prop :=
  NoDup order
  ∧ ∀ sessionId, sessionId ∈ order ↔ is_Some (chatSessions cs !! sessionId).

(** The service once [processMessage] has found [session], swept the
    expired sessions and recorded the activity. *)
Definition touched (env : ChatService.Env) (session : ref)
    (cs : ChatService.t) : ChatService.t :=
  {| chatSessions := chatSessions (cleanExpiredSessions (t_sweep env) cs).1;
     objects := alter (set_lastActivity (t_activity env)) session
                      (objects cs) |}.

(** The options [processMessage] searches with. *)
Definition search_options (maxResults : option nat) (intent : Intent)
  : SearchOptions :=
  {| topK := Some (match maxResults with
                   | Some n => if bool_decide (n = 0) then 5 else n
                   | None => 5
                   end);
     opt_category := mapIntentToCategory (categoria intent);
     minScore := Some (dec 6 10) |}.

(** The citations [processMessage] makes of the retrieved chunks. *)
Definition cited (docs : list Doc) : list Source :=
  (λ doc, {| src_documentId := documentId <$> doc_metadata doc;
             src_filename := filename <$> doc_metadata doc;
             src_score := doc_score doc |}) <$> docs.

(** The two messages [processMessage] appends, and what it returns. *)
Definition user_message (env : ChatService.Env) (message : jsstring)
    (intent : Intent) : Message :=
  {| msg_id := uuid_user env; role := user; content := message;
     timestamp := t_user env; intent := Some intent;
     sources := None; confidence := None |}.

Definition assistant_message (env : ChatService.Env) (answer : jsstring)
    (docs : list Doc) (intent : Intent) : Message :=
  {| msg_id := uuid_assistant env; role := assistant; content := answer;
     timestamp := t_assistant env; intent := None;
     sources := Some (cited docs);
     confidence := Some (calculateConfidence docs intent) |}.

Definition reply (env : ChatService.Env) (answer : jsstring)
    (docs : list Doc) (intent : Intent) : Response :=
  {| messageId := uuid_assistant env; response := answer;
     resp_sources := cited docs; resp_intent := intent;
     resp_confidence := calculateConfidence docs intent;
     resp_timestamp := t_assistant env |}.

(** The service after a turn that succeeded. *)
Definition completed (env : ChatService.Env) (session : ref)
    (new : list Message) (cs : ChatService.t) : ChatService.t :=
  {| chatSessions := chatSessions (cleanExpiredSessions (t_sweep env) cs).1;
     objects :=
       alter limit_history session
         (alter (push_messages new) session
            (alter (set_lastActivity (t_activity env)) session
               (objects cs))) |}.

(** The rules of [errorHandler] that replace the message and the status
    of the answer, in the order in which they are applied: the condition,
    the message and the status of each; [message] is the string
    [err.message]. *)
Definition override_rules (err : ErrorHandler.Thrown) (message : string)
  : list (bool * string * nat) :=
  [ (bool_decide (ErrorHandler.name err = "JsonWebTokenError"),
     "Token de autenticación inválido", 401);
    (bool_decide (ErrorHandler.name err = "TokenExpiredError"),
     "Token de autenticación expirado", 401);
    (bool_decide (ErrorHandler.code err = Some "LIMIT_FILE_SIZE"),
     "El archivo es demasiado grande. Tamaño máximo permitido: 10MB", 413);
    (bool_decide (ErrorHandler.code err = Some "INVALID_FILE_TYPE"),
     "Tipo de archivo no permitido. Formatos soportados: PDF, TXT, MD, DOCX",
     400);
    (ErrorHandler.includes message "OpenAI"
     || ErrorHandler.includes message "embedding",
     "Error en el servicio de inteligencia artificial. Por favor intenta de nuevo.",
     503);
    (ErrorHandler.includes message "Pinecone"
     || ErrorHandler.includes message "vector",
     "Error en la base de datos. Por favor intenta de nuevo.", 503);
    (bool_decide (ErrorHandler.code err = Some "ECONNREFUSED"
                  ∨ ErrorHandler.code err = Some "ETIMEDOUT"),
     "Error de conexión. Por favor verifica tu conexión a internet.", 503) ].

Definition apply_rule (error : ErrorHandler.ErrorBody)
    (rule : bool * string * nat) : ErrorHandler.ErrorBody :=
  if rule.1.1 then ErrorHandler.set_error rule.1.2 rule.2 error else error.

(** An answer whose status is one of those the handler sets, and is 500
    exactly when its message is the default one. *)
Definition regular (error : ErrorHandler.ErrorBody) : Prop :=
  ErrorHandler.status error ∈ [400; 401; 413; 500; 503]
  ∧ (ErrorHandler.status error = 500
     ↔ ErrorHandler.body_message error = "Error interno del servidor").

(* ===================================================================== *)
(** * Part III: sample inputs                                             *)
(* ===================================================================== *)

(** An initialised vector database, and an answer of the index: three
    matches in descending order of score. *)
Definition ready_db : VectorDatabase.t :=
  {| initialized := true; index := true |}.

Definition ranked_matches : list Match :=
  [ {| match_id := "manual_chunk_0"; score := dec 9 10;
       match_metadata := None |};
    {| match_id := "manual_chunk_3"; score := dec 65 100;
       match_metadata := None |};
    {| match_id := "faq_chunk_1"; score := dec 4 10;
       match_metadata := None |} ].

(** The options [processMessage] searches with. *)
Definition chat_search_options : SearchOptions :=
  {| topK := Some 5; opt_category := None; minScore := Some (dec 6 10) |}.

(** A retrieved chunk of score [s]. *)
Definition one_doc (s : Qc) : Doc :=
  {| doc_id := "manual_chunk_0"; doc_score := s; doc_metadata := None;
     doc_text := [] |}.

(** A three-sentence plain-text upload, without a caller-supplied id. *)
Definition faq_file : File :=
  {| originalname := "faq.txt"; path := "uploads/document-17.txt";
     size := 99 |}.

Definition faq_text : jsstring :=
  units "Our office opens at nine. Support answers within one day! Can orders be returned within a month".

Definition no_metadata : UploadMetadata :=
  {| md_documentId := None; md_title := None; md_category := None;
     md_tags := None |}.

Definition faq_env : DocumentService.Env :=
  {| read := Ok (Some faq_text);
     created := Ok [[dec 1 10; dec 2 10]];
     uuid_vectors := "3f2c-1";
     uploaded := λ _, 1000%Z;
     upsert_answer := Ok tt;
     unlink_answer := Ok tt;
     uuid_result := "9a7e-2";
     processed := 1001%Z |}.

Definition upload_world : World :=
  {| files := {[ "uploads/document-17.txt" ]}; db := ready_db;
     upserted := [] |}.

(** The extension of the uploaded files of the samples. *)
Definition txt_extension : string → string := λ _, "txt".

(** The same upload when the embedding provider rejects the call. *)
Definition failing_env : DocumentService.Env :=
  {| read := Ok (Some faq_text);
     created := Throw (Err "429 quota exceeded");
     uuid_vectors := "3f2c-1";
     uploaded := λ _, 1000%Z;
     upsert_answer := Ok tt;
     unlink_answer := Ok tt;
     uuid_result := "9a7e-2";
     processed := 1001%Z |}.

(** A store with two sessions.  Alice's session was last active at time
    0; Bob's was created fifty minutes later.  Seventy minutes after time
    0, Bob sends a message, or his session is ended. *)
Definition two_sessions : ChatService.t :=
  (createChatSession (Some "bob") ∅ "s-bob" 3000000 3000000
     (createChatSession (Some "alice") ∅ "s-alice" 0 0 constructor).1).1.

(** A [JSON.parse] that reads every answer as a general intent. *)
Definition parse_general : jsstring → Result (option Intent) :=
  λ _, Ok (Some {| categoria := Some "general";
                   confianza := Some (dec 9 10) |}).

Definition bob_env : ChatService.Env :=
  {| t_get := 4200000; t_sweep := 4200000; t_activity := 4200001;
     classification := Ok (Some (units "{}"));
     query_embedding := Ok [[dec 1 10]];
     index_answer := Ok (Some ranked_matches);
     generation := Ok (Some (units "Abrimos a las nueve."));
     uuid_user := "m-1"; t_user := 4200900;
     uuid_assistant := "m-2"; t_assistant := 4200901 |}.

(** A store whose only session already holds 40 messages. *)
Definition earlier_message : Message :=
  {| msg_id := "m-0"; role := user; content := units "hola";
     timestamp := 3000000; intent := None; sources := None;
     confidence := None |}.

Definition full_session : Session :=
  {| sid := "s-bob"; userId := Some "bob"; createdAt := 3000000;
     lastActivity := 3000000; messages := replicate 40 earlier_message;
     session_metadata := ∅; isActive := true; endedAt := None |}.

Definition full_store : ChatService.t :=
  {| chatSessions := {[ "s-bob" := 0 ]}; objects := {[ 0 := full_session ]} |}.

(** A word of 900 letters, a full stop, a word of 200 letters. *)
Definition long_word_text : jsstring :=
  replicate 900 97%N ++ [46%N] ++ replicate 200 98%N.

(** Bob's message when the completion call of the answer is rejected. *)
Definition bob_env_no_answer : ChatService.Env :=
  {| t_get := 4200000; t_sweep := 4200000; t_activity := 4200001;
     classification := Ok (Some (units "{}"));
     query_embedding := Ok [[dec 1 10]];
     index_answer := Ok (Some ranked_matches);
     generation := Throw (Err "503 overloaded");
     uuid_user := "m-1"; t_user := 4200900;
     uuid_assistant := "m-2"; t_assistant := 4200901 |}.

(** Bob's message when the completion call of the classifier is
    rejected. *)
Definition bob_env_no_intent : ChatService.Env :=
  {| t_get := 4200000; t_sweep := 4200000; t_activity := 4200001;
     classification := Throw (Err "503 overloaded");
     query_embedding := Ok [[dec 1 10]];
     index_answer := Ok (Some ranked_matches);
     generation := Ok (Some (units " Abrimos a las nueve. "));
     uuid_user := "m-1"; t_user := 4200900;
     uuid_assistant := "m-2"; t_assistant := 4200901 |}.

(** Bob's session object in [two_sessions]. *)
Definition bob_session : Session :=
  {| sid := "s-bob"; userId := Some "bob"; createdAt := 3000000;
     lastActivity := 3000000; messages := [];
     session_metadata :=
       ∅ ∪ {[ "userAgent" := ""; "ip" := ""; "source" := "web" ]};
     isActive := true; endedAt := None |}.

(** Bob's message when the embedding call of the query is rejected. *)
Definition bob_env_no_embedding : ChatService.Env :=
  {| t_get := 4200000; t_sweep := 4200000; t_activity := 4200001;
     classification := Ok (Some (units "{}"));
     query_embedding := Throw (Err "429 quota exceeded");
     index_answer := Ok (Some ranked_matches);
     generation := Ok (Some (units "Abrimos a las nueve."));
     uuid_user := "m-1"; t_user := 4200900;
     uuid_assistant := "m-2"; t_assistant := 4200901 |}.

(** Bob, as an authenticated user of the API, and his session as
    [getActiveSessions] lists it. *)
Definition bob_user : Routes.User :=
  {| Routes.user_id := "bob"; Routes.user_role := "user" |}.

Definition bob_listed : ActiveSession :=
  {| as_sessionId := "s-bob"; as_userId := Some "bob";
     as_createdAt := 3000000; as_lastActivity := 3000000;
     messageCount := 0; as_isActive := true |}.

(** An upload for which the caller supplies the document id. *)
Definition manual_metadata : UploadMetadata :=
  {| md_documentId := Some "manual-7"; md_title := Some "Manual";
     md_category := Some "product"; md_tags := None |}.

(** A note of 18 characters, and its upload. *)
Definition note_text : jsstring := units "Closed on Sundays.".

Definition note_env : DocumentService.Env :=
  {| read := Ok (Some note_text);
     created := Ok [];
     uuid_vectors := "3f2c-1";
     uploaded := λ _, 1000%Z;
     upsert_answer := Ok tt;
     unlink_answer := Throw (Err "ENOENT");
     uuid_result := "9a7e-2";
     processed := 1001%Z |}.

(** A first start: the index does not exist yet, it is created and is
    ready at the second poll. *)
Definition first_start : InitEnv :=
  {| api_key := true; client := Ok tt; handle := Ok tt;
     describe_stats := Throw (Err "404 index not found");
     create_index := Ok tt;
     polls := [Ok false; Ok true];
     handle_again := Ok tt |}.

(** A start without [PINECONE_API_KEY]. *)
Definition no_key_start : InitEnv :=
  {| api_key := false; client := Ok tt; handle := Ok tt;
     describe_stats := Ok tt; create_index := Ok tt; polls := [];
     handle_again := Ok tt |}.

(** A connection error, as Node reports it. *)
Definition connection_refused : ErrorHandler.Thrown :=
  {| ErrorHandler.name := "Error";
     ErrorHandler.code := Some "ECONNREFUSED";
     ErrorHandler.message := Some "connect ECONNREFUSED 10.0.0.7:443";
     ErrorHandler.errors := None;
     ErrorHandler.stack := Some "Error: connect ECONNREFUSED" |}.

(* ===================================================================== *)
(** * Part IV: properties                                                 *)
(* ===================================================================== *)

(** ** Intent classification *)


(** ** Retrieval *)

Lemma StronglySorted_sublist {A} (R : relation A) (l k : list A) :
  k `sublist_of` l → StronglySorted R l → StronglySorted R k.
Proof.
  induction 1 as [|x k l Hkl IH|x k l Hkl IH]; intros Hl.
  - constructor.
  - apply StronglySorted_inv in Hl as [Hl Hx]. constructor; [by apply IH|].
    rewrite Forall_forall in Hx |- *. intros y Hy. apply Hx.
    by eapply sublist_subseteq.
  - apply StronglySorted_inv in Hl as [Hl _]. by apply IH.
Qed.

Lemma fmap_format_score (ms : list Match) :
  doc_score <$> (format_match <$> ms) = score <$> ms.
Proof. by rewrite <-list_fmap_compose. Qed.

(** C3. When the embedding of the query and the index query both succeed,
    [searchDocuments] succeeds, and its result: holds only entries whose
    score is at least [minScore]; lists scores in the order in which the
    index returned them (it is a sub-sequence: nothing is re-sorted), so
    that it is non-increasing in score whenever the index's answer is;
    and is the empty sequence, still a success, when no match reaches
    [minScore] (in particular when the index returns no match). *)
Theorem searchDocuments_min_score_and_order
    (db : VectorDatabase.t) (query : jsstring) (options : SearchOptions)
    (created : Result (list Embedding))
    (answer : Result (option (list Match)))
    (queryEmbedding : Embedding) (matches : list Match) :
  generateEmbedding query created = Ok queryEmbedding →
  queryVectors db queryEmbedding (default 5 (topK options))
               (category_filter (opt_category options)) answer
    = Ok matches →
  ∃ docs,
    searchDocuments db query options created answer = Ok docs
    ∧ Forall (λ d, (default (dec 7 10) (minScore options) ≤ doc_score d)%Qc)
             docs
    ∧ (doc_score <$> docs) `sublist_of` (score <$> matches)
    ∧ (descending (score <$> matches) → descending (doc_score <$> docs))
    ∧ (Forall (λ m, (score m < default (dec 7 10) (minScore options))%Qc)
              matches → docs = []).
Proof.
  intros Hemb Hquery. unfold searchDocuments. rewrite Hemb. simpl.
  rewrite Hquery. simpl. eexists. split; [reflexivity|].
  set (minS := default (dec 7 10) (minScore options)).
  assert (Hsub : (doc_score <$>
            (format_match
               <$> filter (λ result, (minS ≤ score result)%Qc) matches))
          `sublist_of` (score <$> matches)).
  { rewrite fmap_format_score. apply fmap_sublist, sublist_filter. }
  split; [|split; [exact Hsub|split]].
  - rewrite Forall_forall. intros d Hd.
    apply list_elem_of_fmap in Hd as (m & -> & Hm).
    by apply list_elem_of_filter in Hm as [Hm _].
  - intros Hdesc. by eapply StronglySorted_sublist.
  - intros Hlow. replace (filter _ matches) with (@nil Match); [done|].
    symmetry. clear -Hlow. induction Hlow as [|m ms Hm _ IH]; [done|].
    rewrite filter_cons_False; [done|]. by apply Qclt_not_le.
Qed.

Lemma searchDocuments_min_score_and_order_witness :
  ∃ docs,
    searchDocuments ready_db (units "horarios") chat_search_options
                    (Ok [[dec 1 10]]) (Ok (Some ranked_matches)) = Ok docs
    ∧ Forall (λ d, (dec 6 10 ≤ doc_score d)%Qc) docs
    ∧ (doc_score <$> docs) `sublist_of` (score <$> ranked_matches)
    ∧ (descending (score <$> ranked_matches) → descending (doc_score <$> docs))
    ∧ (Forall (λ m, (score m < dec 6 10)%Qc) ranked_matches → docs = []).
Proof.
  apply (searchDocuments_min_score_and_order
           ready_db (units "horarios") chat_search_options
           (Ok [[dec 1 10]]) (Ok (Some ranked_matches))
           [dec 1 10] ranked_matches); reflexivity.
Defined.

(** ** Confidence score *)

Lemma calculateConfidence_no_docs (intent : Intent) :
  calculateConfidence [] intent = dec 1 10.
Proof. reflexivity. Qed.

Lemma calculateConfidence_at_most_one (docs : list Doc) (intent : Intent) :
  (calculateConfidence docs intent ≤ 1)%Qc.
Proof.
  unfold calculateConfidence, Math_min. case_bool_decide; [done|].
  case_decide as Hle; [exact Hle|]. apply Qcle_refl.
Qed.

Lemma foldl_scores_nonneg (docs : list Doc) (acc : Qc) :
  (0 ≤ acc)%Qc → Forall (λ d, (0 ≤ doc_score d)%Qc) docs →
  (0 ≤ foldl (λ sum doc, sum + doc_score doc) acc docs)%Qc.
Proof.
  revert acc. induction docs as [|d docs IH]; intros acc Hacc Hdocs; [done|].
  apply Forall_cons in Hdocs as [Hd Hdocs]. simpl.
  apply IH; [|done]. by apply Qcplus_nonneg_nonneg.
Qed.

(** With scores and an intent confidence that are not negative, the
    confidence is in [0,1]. *)
Lemma calculateConfidence_range (docs : list Doc) (intent : Intent) :
  Forall (λ d, (0 ≤ doc_score d)%Qc) docs →
  (∀ c, confianza intent = Some c → (0 ≤ c)%Qc) →
  (0 ≤ calculateConfidence docs intent ≤ 1)%Qc.
Proof.
  intros Hdocs Hintent. split; [|apply calculateConfidence_at_most_one].
  unfold calculateConfidence, Math_min.
  case_bool_decide as Hlen; [by vm_compute|].
  case_decide; [|by vm_compute].
  apply Qcplus_nonneg_nonneg; apply Qcmult_nonneg_nonneg;
    try by vm_compute.
  - set (n := Qc_of_Z (Z.of_nat (length docs))).
    assert (Hn : (0 < n)%Qc).
    { unfold n. rewrite <-Z2Qc_inj_0. apply (proj1 (Z2Qc_inj_lt 0 _)). lia. }
    apply (Qcmult_lt_0_le_reg_r _ _ n Hn).
    rewrite Qcmult_0_l, Qcmult_comm, Qcmult_div_r.
    + by apply foldl_scores_nonneg.
    + intros Hz. rewrite Hz in Hn. by apply Qclt_not_eq in Hn.
  - unfold or_number. destruct (confianza intent) as [c|]; [|by vm_compute].
    case_bool_decide; [by vm_compute|]. by apply Hintent.
Qed.

(** C2, at the input on which the code departs from it.  With one
    retrieved chunk of score 0.8 and the intent that a failed provider call
    yields (confidence 0.0), the formula of the claim gives
    0.7 * 0.8 + 0.3 * 0.0 = 0.56, but [calculateConfidence] returns 0.71:
    [intent.confianza || 0.5] turns the confidence 0.0 into 0.5. *)
Theorem calculateConfidence_zero_intent_confidence :
  (∀ JSON_parse query e,
     classifyIntent JSON_parse query (Throw e)
     = Ok (Some failed_classification))
  ∧ confianza failed_classification = Some (dec 0 10)
  ∧ calculateConfidence [one_doc (dec 8 10)] failed_classification
    = dec 71 100
  ∧ (dec 7 10 * dec 8 10 + dec 3 10 * dec 0 10)%Qc = dec 56 100
  ∧ calculateConfidence [one_doc (dec 8 10)] failed_classification
    ≠ (dec 7 10 * dec 8 10 + dec 3 10 * dec 0 10)%Qc.
Proof.
  assert (H71 : calculateConfidence [one_doc (dec 8 10)] failed_classification
                = dec 71 100).
  { apply Qc_is_canon. vm_compute. reflexivity. }
  assert (H56 : (dec 7 10 * dec 8 10 + dec 3 10 * dec 0 10)%Qc = dec 56 100).
  { apply Qc_is_canon. vm_compute. reflexivity. }
  split; [reflexivity|]. split; [reflexivity|].
  split; [exact H71|]. split; [exact H56|].
  rewrite H71, H56. intros Heq. apply (f_equal this) in Heq. discriminate Heq.
Qed.

(** ** Stepping through code that changes a state and may throw *)

Lemma SE_bind_Ok {S A B} (m : SE S A) (k : A → SE S B) (st st' : S) (b : B) :
  (m ≫= k) st = (st', Ok b) →
  ∃ st1 a, m st = (st1, Ok a) ∧ k a st1 = (st', Ok b).
Proof.
  unfold mbind, SE_bind. destruct (m st) as [st1 [a|e]]; [eauto|].
  intros [=].
Qed.

Lemma SE_bind_Throw {S A B} (m : SE S A) (k : A → SE S B) (st st' : S)
    (e : Error) :
  (m ≫= k) st = (st', Throw e) →
  m st = (st', Throw e) ∨ ∃ st1 a, m st = (st1, Ok a) ∧ k a st1 = (st', Throw e).
Proof.
  unfold mbind, SE_bind. destruct (m st) as [st1 [a|e1]]; [eauto|].
  intros [= -> ->]. by left.
Qed.

Lemma SE_lift_inv {S A} (r : Result A) (st st' : S) (r' : Result A) :
  lift r st = (st', r') → st' = st ∧ r' = r.
Proof. by intros [= <- <-]. Qed.

(** ** Ingestion *)

Section ingestion.
Variable extension_of : string → string.

Lemma usable_text_state text w w' r :
  usable_text text w = (w', r) → w' = w.
Proof.
  unfold usable_text. destruct text as [text|]; [case_bool_decide|];
    by intros [= <- _].
Qed.

Lemma upsert_Ok vectors answer w w' u :
  upsert vectors answer w = (w', Ok u) →
  files w' = files w ∧ upserted w' = upserted w ++ [vectors].
Proof.
  unfold upsert, get_state, modify_state, lift, mbind, SE_bind.
  destruct (upsertVectors (db w) vectors answer); by intros [= <- _].
Qed.

Lemma upsert_Throw vectors answer w w' e :
  upsert vectors answer w = (w', Throw e) → w' = w.
Proof.
  unfold upsert, get_state, modify_state, lift, mbind, SE_bind.
  destruct (upsertVectors (db w) vectors answer); by intros [= <-].
Qed.

Lemma unlink_quietly_Ok path answer w w' r :
  unlink_quietly path answer w = (w', r) →
  r = Ok tt ∧ upserted w' = upserted w.
Proof. unfold unlink_quietly. destruct answer; by intros [= <- <-]. Qed.

Lemma generateVectorData_Ok chunks file metadata created uuid now vectors :
  generateVectorData chunks file metadata created uuid now = Ok vectors →
  length vectors = length chunks
  ∧ ∀ i v, vectors !! i = Some v →
      let documentId := or_string (md_documentId metadata) uuid in
      id v = documentId +:+ "_chunk_" +:+ pretty i
      ∧ VectorDatabase.documentId (VectorDatabase.metadata v) = documentId.
Proof.
  unfold generateVectorData, generateBatchEmbeddings.
  destruct created as [embeddings|e]; simpl; [|done].
  intros [= <-]. split; [by rewrite length_imap|].
  intros i v. rewrite list_lookup_imap.
  destruct (chunks !! i) as [chunk|]; simpl; [|done]. by intros [= <-].
Qed.

(** C5, on the inputs on which the code departs from it.  When the caller
    supplies no document id and ingestion succeeds, every upserted entry
    [i] has id [{d}_chunk_{i}] and carries [d] in its metadata, where [d]
    is the first generated uuid, while the returned [documentId] is a
    second, separately generated uuid: the returned id is not the id of
    any upserted entry. *)
Theorem processDocument_generated_id_mismatch
    (file : File) (metadata : UploadMetadata) (env : DocumentService.Env)
    (w w' : World) (result : Processed) :
  md_documentId metadata = None →
  uuid_vectors env ≠ uuid_result env →
  processDocument extension_of file metadata env w = (w', Ok result) →
  ∃ vectors,
    upserted w' = upserted w ++ [vectors]
    ∧ length vectors = chunksCreated result
    ∧ result_documentId result = uuid_result env
    ∧ ∀ i v, vectors !! i = Some v →
        id v = uuid_vectors env +:+ "_chunk_" +:+ pretty i
        ∧ VectorDatabase.documentId (VectorDatabase.metadata v)
          = uuid_vectors env
        ∧ VectorDatabase.documentId (VectorDatabase.metadata v)
          ≠ result_documentId result.
Proof.
  intros Hnone Hne. unfold processDocument.
  intros (w1 & text0 & H1 & H)%SE_bind_Ok.
  apply SE_lift_inv in H1 as [-> _].
  apply SE_bind_Ok in H as (w2 & text & H2 & H).
  apply usable_text_state in H2 as ->.
  apply SE_bind_Ok in H as (w3 & vectors & H3 & H).
  apply SE_lift_inv in H3 as [-> H3]. symmetry in H3.
  apply SE_bind_Ok in H as (w4 & [] & H4 & H).
  apply upsert_Ok in H4 as [_ H4].
  apply SE_bind_Ok in H as (w5 & [] & H5 & H).
  apply unlink_quietly_Ok in H5 as [_ H5].
  injection H as <- <-. simpl.
  apply generateVectorData_Ok in H3 as [Hlen Hv].
  exists vectors. rewrite H5, H4, Hnone. simpl.
  split; [done|]. split; [done|]. split; [done|].
  intros i v Hi. destruct (Hv i v Hi) as [Hid Hdoc].
  rewrite Hnone in Hid, Hdoc. simpl in Hid, Hdoc.
  rewrite Hdoc. done.
Qed.

(** C9, on the inputs on which the code departs from it.  Whenever
    [processDocument] fails (extraction, empty text, embedding or index
    upsert), the files on disk are exactly what they were: the temporary
    uploaded file is still there. *)
Theorem processDocument_failure_keeps_temp_file
    (file : File) (metadata : UploadMetadata) (env : DocumentService.Env)
    (w w' : World) (e : Error) :
  processDocument extension_of file metadata env w = (w', Throw e) →
  files w' = files w ∧ (path file ∈ files w → path file ∈ files w').
Proof.
  unfold processDocument. intros H.
  assert (Hfiles : files w' = files w); [|by rewrite Hfiles].
  apply SE_bind_Throw in H as [H|(w1 & text0 & H1 & H)];
    [by apply SE_lift_inv in H as [-> _]|].
  apply SE_lift_inv in H1 as [-> _].
  apply SE_bind_Throw in H as [H|(w2 & text & H2 & H)];
    [by apply usable_text_state in H as ->|].
  apply usable_text_state in H2 as ->.
  apply SE_bind_Throw in H as [H|(w3 & vectors & H3 & H)];
    [by apply SE_lift_inv in H as [-> _]|].
  apply SE_lift_inv in H3 as [-> _].
  apply SE_bind_Throw in H as [H|(w4 & [] & H4 & H)];
    [by apply upsert_Throw in H as ->|].
  apply SE_bind_Throw in H as [H|(w5 & [] & H5 & H)];
    [by apply unlink_quietly_Ok in H as [[=] _]|].
  discriminate H.
Qed.
End ingestion.

Example processDocument_faq :
  ∃ w' result,
    processDocument txt_extension faq_file no_metadata faq_env upload_world
      = (w', Ok result)
    ∧ chunksCreated result = 1
    ∧ result_documentId result = "9a7e-2"
    ∧ fmap (M:=list) VectorDatabase.id <$> upserted w'
      = [["3f2c-1_chunk_0"]]
    ∧ files w' = ∅.
Proof. eexists _, _. split; [vm_compute; reflexivity|]. by vm_compute. Qed.

Lemma processDocument_generated_id_mismatch_witness :
  ∃ w' result,
    (md_documentId no_metadata = None
     ∧ uuid_vectors faq_env ≠ uuid_result faq_env
     ∧ processDocument txt_extension faq_file no_metadata faq_env upload_world
       = (w', Ok result))
    ∧ ∃ vectors,
        upserted w' = upserted upload_world ++ [vectors]
        ∧ length vectors = chunksCreated result
        ∧ result_documentId result = uuid_result faq_env
        ∧ ∀ i v, vectors !! i = Some v →
            id v = uuid_vectors faq_env +:+ "_chunk_" +:+ pretty i
            ∧ VectorDatabase.documentId (VectorDatabase.metadata v)
              = uuid_vectors faq_env
            ∧ VectorDatabase.documentId (VectorDatabase.metadata v)
              ≠ result_documentId result.
Proof.
  eexists _, _.
  split; [split; [reflexivity|split; [done|vm_compute; reflexivity]]|].
  apply (processDocument_generated_id_mismatch
           txt_extension faq_file no_metadata faq_env upload_world);
    [reflexivity|done|vm_compute; reflexivity].
Defined.

Lemma processDocument_failure_keeps_temp_file_witness :
  ∃ w' e,
    processDocument txt_extension faq_file no_metadata failing_env upload_world
      = (w', Throw e)
    ∧ files w' = files upload_world
    ∧ (path faq_file ∈ files upload_world → path faq_file ∈ files w').
Proof.
  eexists _, _. split; [vm_compute; reflexivity|].
  eapply (processDocument_failure_keeps_temp_file
            txt_extension faq_file no_metadata failing_env upload_world).
  vm_compute; reflexivity.
Defined.

Example processDocument_failure_leaves_file :
  ∃ w',
    processDocument txt_extension faq_file no_metadata failing_env upload_world
      = (w', Throw (Err "Error generando embeddings: 429 quota exceeded"))
    ∧ "uploads/document-17.txt" ∈ files w'.
Proof. eexists. split; [vm_compute; reflexivity|]. by vm_compute. Qed.

(** ** Sessions *)

Lemma getSession_reachable cs sessionId now session o :
  reachable cs sessionId now session o →
  getSession sessionId now cs = (cs, Ok (Some session)).
Proof.
  intros (Hs & Ho & Hnow). unfold getSession. rewrite Hs, Ho.
  rewrite bool_decide_eq_false_2; [done|lia].
Qed.

Lemma getSession_expired cs sessionId now session o :
  expired cs sessionId now session o →
  getSession sessionId now cs
  = ({| chatSessions := delete sessionId (chatSessions cs);
        objects := objects cs |}, Ok None).
Proof.
  intros (Hs & Ho & Hnow). unfold getSession. rewrite Hs, Ho.
  by rewrite bool_decide_eq_true_2.
Qed.

Lemma getSession_missing cs sessionId now :
  stored cs sessionId = None →
  getSession sessionId now cs = (cs, Ok None).
Proof.
  unfold stored, getSession.
  destruct (chatSessions cs !! sessionId) as [session|]; simpl; [|done].
  by intros ->.
Qed.

Lemma lookup_foldl_delete {V} (ks : list string) (m : gmap string V) i :
  foldl (λ m k, delete k m) m ks !! i
  = if decide (i ∈ ks) then None else m !! i.
Proof.
  revert m. induction ks as [|k ks IH]; intros m; cbn [foldl].
  - rewrite decide_False; [done|]. apply not_elem_of_nil.
  - rewrite IH. destruct (decide (i = k)) as [->|Hne].
    + rewrite lookup_delete_eq. rewrite (decide_True (P:=k ∈ k :: ks)) by left.
      by case_decide.
    + rewrite lookup_delete_ne by done.
      destruct (decide (i ∈ ks)) as [H1|H1].
      * rewrite decide_True; [done|by right].
      * rewrite decide_False; [done|]. by intros [?|?]%elem_of_cons.
Qed.

Lemma cleanExpiredSessions_objects now cs :
  objects (cleanExpiredSessions now cs).1 = objects cs.
Proof. reflexivity. Qed.

Lemma cleanExpiredSessions_lookup now cs i :
  chatSessions (cleanExpiredSessions now cs).1 !! i
  = match chatSessions cs !! i with
    | Some r => if decide (is_expired cs now (i, r)) then None else Some r
    | None => None
    end.
Proof.
  unfold cleanExpiredSessions, modify_state. simpl.
  rewrite lookup_foldl_delete.
  destruct (chatSessions cs !! i) as [r|] eqn:Hi.
  - case_decide as Hin; case_decide as Hexp; try done.
    + exfalso. apply Hexp.
      apply list_elem_of_fmap in Hin as ([j r'] & -> & Hin).
      apply list_elem_of_filter in Hin as [Hp Hin].
      apply elem_of_map_to_list in Hin. simpl in *.
      by replace r with r' by congruence.
    + exfalso. apply Hin. apply list_elem_of_fmap. exists (i, r).
      split; [done|]. apply list_elem_of_filter. split; [done|].
      by apply elem_of_map_to_list.
  - case_decide as Hin; [done|done].
Qed.

Lemma is_expired_iff cs now i r o :
  objects cs !! r = Some o →
  is_expired cs now (i, r) ↔ (sessionTimeout < now - lastActivity o)%Z.
Proof. intros Ho. unfold is_expired. simpl. by rewrite Ho. Qed.

(** What is left of [processMessage] once [getSession] has found the
    session: the state it ends in, whether it succeeds or throws. *)
Lemma processMessage_state JSON_parse vectorDB sessionId message maxResults
    env cs session o cs' outcome :
  reachable cs sessionId (t_get env) session o →
  processMessage JSON_parse vectorDB sessionId message maxResults env cs
    = (cs', outcome) →
  chatSessions cs' = chatSessions (cleanExpiredSessions (t_sweep env) cs).1
  ∧ match outcome with
    | Ok resp =>
        ∃ userMessage assistantMessage,
          objects cs'
          = alter limit_history session
              (alter (push_messages [userMessage; assistantMessage]) session
                 (alter (set_lastActivity (t_activity env)) session
                    (objects cs)))
          ∧ role userMessage = user ∧ content userMessage = message
          ∧ role assistantMessage = assistant
          ∧ content assistantMessage = response resp
    | Throw _ =>
        objects cs'
        = alter (set_lastActivity (t_activity env)) session (objects cs)
    end.
Proof.
  intros Hreach. unfold processMessage.
  unfold mbind at 1, SE_bind. rewrite (getSession_reachable _ _ _ _ _ Hreach).
  unfold mbind, SE_bind, mret, SE_ret, throw, lift, update, get_state,
    cleanExpiredSessions, modify_state. cbn [fst snd chatSessions objects].
  destruct (classifyIntent _ _ _) as [[intent|]|e];
    [|by intros [= <- <-]..].
  destruct (searchDocuments _ _ _ _ _) as [docs|e]; [|by intros [= <- <-]].
  destruct (generateRAGResponse (H:=Message) message docs _ _) as [answer|e];
    [|by intros [= <- <-]].
  intros [= <- <-]. split; [done|]. eexists _, _. by split; [reflexivity|].
Qed.

Lemma limit_history_messages (o : Session) :
  messages (limit_history o)
  = drop (length (messages o) - maxHistoryLength * 2) (messages o).
Proof.
  unfold limit_history, slice. case_bool_decide as Hlen.
  - simpl. f_equal. unfold maxHistoryLength in *. lia.
  - assert (length (messages o) - maxHistoryLength * 2 = 0) as ->
      by (unfold maxHistoryLength in *; lia).
    done.
Qed.

Lemma limit_history_lastActivity (o : Session) :
  lastActivity (limit_history o) = lastActivity o.
Proof. unfold limit_history. by case_bool_decide. Qed.

(** C10. Let [processMessage] be called for a session that [getSession]
    finds, in a store in which no two keys share a session object.
    Whether the call succeeds or throws later on, every session of the
    store that has expired when the sweep runs is deleted from the store,
    whoever it belongs to, and every other session that has not expired
    then is left as it was: same key, same object, same contents. *)
Theorem processMessage_sweeps_expired_sessions
    (JSON_parse : jsstring → Result (option Intent))
    (vectorDB : VectorDatabase.t)
    (sessionId : string) (message : jsstring) (maxResults : option nat)
    (env : ChatService.Env) (cs cs' : ChatService.t) (session : ref)
    (o : Session) (outcome : Result Response) :
  well_formed cs →
  reachable cs sessionId (t_get env) session o →
  processMessage JSON_parse vectorDB sessionId message maxResults env cs
    = (cs', outcome) →
  ∀ (other : string) (r : ref) (o' : Session),
    chatSessions cs !! other = Some r →
    objects cs !! r = Some o' →
    ((sessionTimeout < t_sweep env - lastActivity o')%Z →
       chatSessions cs' !! other = None)
    ∧ (other ≠ sessionId →
       (t_sweep env - lastActivity o' ≤ sessionTimeout)%Z →
       chatSessions cs' !! other = Some r ∧ objects cs' !! r = Some o').
Proof.
  intros [_ Hshare] Hreach Hrun other r o' Hother Ho'.
  destruct (processMessage_state _ _ _ _ _ _ _ _ _ _ _ Hreach Hrun)
    as [Hmap Hobj].
  rewrite Hmap, cleanExpiredSessions_lookup, Hother. split.
  - intros Hexp. rewrite decide_True; [done|]. by apply (is_expired_iff _ _ _ _ o').
  - intros Hne Hlive. rewrite decide_False.
    2:{ rewrite (is_expired_iff _ _ _ _ o') by done. lia. }
    split; [done|].
    assert (Hr : session ≠ r).
    { intros <-. destruct Hreach as (Hs & _). apply Hne. by eapply Hshare. }
    destruct outcome as [resp|e].
    + destruct Hobj as (u & a & -> & _).
      by rewrite !lookup_alter_ne.
    + rewrite Hobj. by rewrite lookup_alter_ne.
Qed.

(** [well_formed] holds of the initial service and is kept by whatever
    only removes keys and keeps the objects, and by [createChatSession]. *)
Lemma well_formed_constructor : well_formed constructor.
Proof.
  split; [intros i r|intros i j r]; cbn [constructor chatSessions];
    by rewrite lookup_empty.
Qed.

Lemma well_formed_shrink (cs cs' : ChatService.t) :
  (∀ i r, chatSessions cs' !! i = Some r → chatSessions cs !! i = Some r) →
  (∀ r, is_Some (objects cs !! r) → is_Some (objects cs' !! r)) →
  well_formed cs → well_formed cs'.
Proof.
  intros Hmap Hobj [Hdang Hshare]. split.
  - intros i r Hi. eapply Hobj, Hdang, Hmap, Hi.
  - intros i j r Hi Hj. eapply Hshare; by apply Hmap.
Qed.

Lemma well_formed_createChatSession userId metadata uuid now1 now2 cs :
  well_formed cs →
  well_formed (createChatSession userId metadata uuid now1 now2 cs).1.
Proof.
  intros [Hdang Hshare]. unfold well_formed, createChatSession.
  cbn [fst chatSessions objects].
  set (r := fresh (dom (objects cs))).
  assert (Hfresh : objects cs !! r = None).
  { apply not_elem_of_dom, is_fresh. }
  assert (Hnot : ∀ i, chatSessions cs !! i ≠ Some r).
  { intros i Hi. apply Hdang in Hi as [? Hi]. congruence. }
  split.
  - intros i r0. rewrite lookup_insert. case_decide as Hi.
    + intros [= <-]. rewrite lookup_insert_eq. eauto.
    + intros Hr0. rewrite lookup_insert_ne; [by eapply Hdang|].
      intros <-. by eapply Hnot.
  - intros i j r0. rewrite !lookup_insert.
    repeat case_decide; subst; try done.
    + intros [= <-] Hj. by apply Hnot in Hj.
    + intros Hi [= <-]. by apply Hnot in Hi.
    + apply Hshare.
Qed.

Lemma well_formed_getSession sessionId now cs :
  well_formed cs → well_formed (getSession sessionId now cs).1.
Proof.
  unfold getSession.
  destruct (chatSessions cs !! sessionId) as [session|]; [|done].
  destruct (objects cs !! session) as [o|]; [|done].
  case_bool_decide; [|done]. apply well_formed_shrink; [|done].
  intros i r. cbn [fst chatSessions]. rewrite lookup_delete.
  by case_decide.
Qed.

Lemma well_formed_cleanExpiredSessions now cs :
  well_formed cs → well_formed (cleanExpiredSessions now cs).1.
Proof.
  apply well_formed_shrink; [|done].
  intros i r. rewrite cleanExpiredSessions_lookup.
  destruct (chatSessions cs !! i); [|done]. by case_decide.
Qed.

Lemma well_formed_processMessage JSON_parse vectorDB sessionId message
    maxResults env cs session o cs' outcome :
  reachable cs sessionId (t_get env) session o →
  processMessage JSON_parse vectorDB sessionId message maxResults env cs
    = (cs', outcome) →
  well_formed cs → well_formed cs'.
Proof.
  intros Hreach Hrun.
  destruct (processMessage_state _ _ _ _ _ _ _ _ _ _ _ Hreach Hrun)
    as [Hmap Hobj].
  apply well_formed_shrink.
  - intros i r. rewrite Hmap, cleanExpiredSessions_lookup.
    destruct (chatSessions cs !! i); [|done]. by case_decide.
  - intros r Hr. destruct outcome as [resp|e].
    + destruct Hobj as (u & a & -> & _).
      rewrite !lookup_alter_is_Some. done.
    + rewrite Hobj. by rewrite lookup_alter_is_Some.
Qed.

(** C1, as amended.  For a session that [getSession] finds, a successful
    [processMessage] appends to the session object the user message and
    then the assistant message, and keeps of the result the most recent
    [2 * maxHistoryLength] messages, dropping the oldest: the count grows
    by exactly 2 as long as that does not exceed [2 * maxHistoryLength],
    which it never exceeds afterwards.  [lastActivity] becomes the time
    read at the update, which is not before its previous value when the
    clock has not been set back.  The session is still in the store if it
    had not expired when the sweep ran. *)
Theorem processMessage_appends_pair
    (JSON_parse : jsstring → Result (option Intent))
    (vectorDB : VectorDatabase.t)
    (sessionId : string) (message : jsstring) (maxResults : option nat)
    (env : ChatService.Env) (cs cs' : ChatService.t) (session : ref)
    (o : Session) (resp : Response) :
  reachable cs sessionId (t_get env) session o →
  (lastActivity o ≤ t_activity env)%Z →
  processMessage JSON_parse vectorDB sessionId message maxResults env cs
    = (cs', Ok resp) →
  ∃ (userMessage assistantMessage : Message) (o' : Session),
    objects cs' !! session = Some o'
    ∧ role userMessage = user ∧ content userMessage = message
    ∧ role assistantMessage = assistant
    ∧ content assistantMessage = response resp
    ∧ messages o'
      = drop (length (messages o) + 2 - 2 * maxHistoryLength)
             (messages o ++ [userMessage; assistantMessage])
    ∧ length (messages o')
      = (length (messages o) + 2) `min` (2 * maxHistoryLength)
    ∧ (lastActivity o ≤ lastActivity o')%Z
    ∧ lastActivity o' = t_activity env
    ∧ ((t_sweep env - lastActivity o ≤ sessionTimeout)%Z →
       chatSessions cs' !! sessionId = Some session).
Proof.
  intros Hreach Hclock Hrun.
  destruct (processMessage_state _ _ _ _ _ _ _ _ _ _ _ Hreach Hrun)
    as [Hmap (u & a & Hobj & Hu)].
  destruct Hreach as (Hs & Ho & _).
  set (o1 := push_messages [u; a] (set_lastActivity (t_activity env) o)).
  exists u, a, (limit_history o1).
  assert (Hlen : length (messages o1) = length (messages o) + 2).
  { unfold o1. simpl. rewrite length_app. simpl. lia. }
  split; [by rewrite Hobj, !lookup_alter_eq, Ho|].
  destruct Hu as (? & ? & ? & ?). do 4 (split; [done|]).
  rewrite limit_history_messages, limit_history_lastActivity, Hlen.
  split; [f_equal; lia|]. split.
  { rewrite length_drop, Hlen. unfold maxHistoryLength. lia. }
  split; [done|]. split; [done|].
  intros Hlive. rewrite Hmap, cleanExpiredSessions_lookup, Hs.
  rewrite decide_False; [done|].
  rewrite (is_expired_iff _ _ _ _ o) by done. lia.
Qed.

(** C6, as amended.  For a session of the store that has expired at [now]:
    [getSession] returns not-found and deletes it from the store;
    a sweep at [now] or later removes it from the store;
    [exportSessionData] returns not-found once either of them has removed
    it, but checks no expiry itself: as long as the expired session is in
    the store it is still exported, with its id, user, times, active flag
    and metadata, and with its messages in order, each with its id, role,
    content, time, intent and sources (the confidence is not exported). *)
Theorem expired_session_unreachable
    (cs : ChatService.t) (sessionId : string) (now : Z) (session : ref)
    (o : Session) :
  expired cs sessionId now session o →
  let after_get := (getSession sessionId now cs).1 in
  (getSession sessionId now cs).2 = Ok None
  ∧ chatSessions after_get !! sessionId = None
  ∧ exportSessionData after_get sessionId = None
  ∧ (∀ later, (now ≤ later)%Z →
       let after_sweep := (cleanExpiredSessions later cs).1 in
       chatSessions after_sweep !! sessionId = None
       ∧ exportSessionData after_sweep sessionId = None)
  ∧ ∃ exported,
      exportSessionData cs sessionId = Some exported
      ∧ exp_sessionId exported = sessionId
      ∧ exp_userId exported = userId o
      ∧ exp_createdAt exported = createdAt o
      ∧ exp_endedAt exported = endedAt o
      ∧ exp_isActive exported = isActive o
      ∧ exp_metadata exported = session_metadata o
      ∧ length (exp_messages exported) = length (messages o)
      ∧ ∀ i msg, messages o !! i = Some msg →
          ∃ out, exp_messages exported !! i = Some out
                 ∧ msg_id out = msg_id msg ∧ role out = role msg
                 ∧ content out = content msg
                 ∧ timestamp out = timestamp msg
                 ∧ intent out = intent msg ∧ sources out = sources msg
                 ∧ confidence out = None.
Proof.
  intros Hexp. rewrite (getSession_expired _ _ _ _ _ Hexp).
  destruct Hexp as (Hs & Ho & Hnow). cbn [fst snd]. cbv zeta.
  split; [done|]. split; [apply lookup_delete_eq|].
  split; [|split].
  - unfold exportSessionData, stored. cbn [chatSessions].
    by rewrite lookup_delete_eq.
  - intros later Hlater.
    assert (Hgone : chatSessions (cleanExpiredSessions later cs).1
                      !! sessionId = None).
    { rewrite cleanExpiredSessions_lookup, Hs. rewrite decide_True; [done|].
      rewrite (is_expired_iff _ _ _ _ o) by done. lia. }
    split; [done|]. unfold exportSessionData, stored. by rewrite Hgone.
  - unfold exportSessionData, stored. rewrite Hs. simpl. rewrite Ho.
    eexists. split; [reflexivity|].
    cbn [exp_sessionId exp_userId exp_createdAt exp_endedAt exp_isActive
         exp_metadata exp_messages].
    do 6 (split; [done|]). split; [by rewrite length_fmap|].
    intros i msg Hi. rewrite list_lookup_fmap, Hi. by eexists.
Qed.

(** What [endChatSession] returns.  It returns false, leaving the store
    as it was, when the session is missing; it returns false when the
    session has expired, which is then deleted from the store; in every
    other case it returns true, marks the session inactive and records
    the end time: [isActive] is not looked at. *)
Lemma endChatSession_result
    (sessionId : string) (now_get now_end : Z) (cs : ChatService.t) :
  match chatSessions cs !! sessionId with
  | None => endChatSession sessionId now_get now_end cs = (cs, Ok false)
  | Some session =>
      match objects cs !! session with
      | None => endChatSession sessionId now_get now_end cs = (cs, Ok false)
      | Some o =>
          ∃ cs',
            endChatSession sessionId now_get now_end cs
            = (cs', if bool_decide (sessionTimeout < now_get - lastActivity o)%Z
                    then Ok false else Ok true)
            ∧ if bool_decide (sessionTimeout < now_get - lastActivity o)%Z
              then chatSessions cs' !! sessionId = None
              else chatSessions cs' !! sessionId = Some session
                   ∧ objects cs' !! session = Some (set_ended now_end o)
                   ∧ isActive (set_ended now_end o) = false
                   ∧ endedAt (set_ended now_end o) = Some now_end
      end
  end.
Proof.
  unfold endChatSession, mbind, SE_bind, getSession.
  destruct (chatSessions cs !! sessionId) as [session|] eqn:Hs; [|done].
  destruct (objects cs !! session) as [o|] eqn:Ho; [|done].
  case_bool_decide as Hexp.
  - eexists. split; [reflexivity|]. apply lookup_delete_eq.
  - eexists. split; [reflexivity|]. simpl.
    split; [done|]. by rewrite lookup_alter_eq, Ho.
Qed.

Lemma well_formed_two_sessions : well_formed two_sessions.
Proof.
  unfold two_sessions.
  do 2 apply well_formed_createChatSession. apply well_formed_constructor.
Qed.

Lemma processMessage_sweeps_expired_sessions_witness :
  ∃ session o cs' outcome,
    (well_formed two_sessions
     ∧ reachable two_sessions "s-bob" (t_get bob_env) session o
     ∧ processMessage parse_general ready_db "s-bob" (units "horarios?") None
                      bob_env two_sessions = (cs', outcome))
    ∧ ∀ (other : string) (r : ref) (o' : Session),
        chatSessions two_sessions !! other = Some r →
        objects two_sessions !! r = Some o' →
        ((sessionTimeout < t_sweep bob_env - lastActivity o')%Z →
           chatSessions cs' !! other = None)
        ∧ (other ≠ "s-bob" →
           (t_sweep bob_env - lastActivity o' ≤ sessionTimeout)%Z →
           chatSessions cs' !! other = Some r ∧ objects cs' !! r = Some o').
Proof.
  eexists _, _, _, _.
  assert (Hreach : reachable two_sessions "s-bob" (t_get bob_env) 1
            {| sid := "s-bob"; userId := Some "bob"; createdAt := 3000000;
               lastActivity := 3000000; messages := [];
               session_metadata :=
                 ∅ ∪ {[ "userAgent" := ""; "ip" := ""; "source" := "web" ]};
               isActive := true; endedAt := None |}).
  { split; [|split]; [vm_compute; reflexivity..|]. vm_compute. discriminate. }
  split; [split; [exact well_formed_two_sessions|split; [exact Hreach|]]|].
  - vm_compute. reflexivity.
  - eapply (processMessage_sweeps_expired_sessions
             parse_general ready_db "s-bob" (units "horarios?") None bob_env
             two_sessions _ _ _ _ well_formed_two_sessions Hreach).
    vm_compute. reflexivity.
Defined.

Example sweep_during_bobs_message :
  ∃ cs' resp,
    processMessage parse_general ready_db "s-bob" (units "horarios?") None
                   bob_env two_sessions = (cs', Ok resp)
    ∧ stored two_sessions "s-alice" ≠ None
    ∧ stored cs' "s-alice" = None
    ∧ length <$> (messages <$> stored cs' "s-bob") = Some 2.
Proof.
  eexists _, _. split; [vm_compute; reflexivity|].
  split; [vm_compute; discriminate|]. split; vm_compute; reflexivity.
Qed.

Lemma processMessage_appends_pair_witness :
  ∃ session o cs' resp,
    (reachable two_sessions "s-bob" (t_get bob_env) session o
     ∧ (lastActivity o ≤ t_activity bob_env)%Z
     ∧ processMessage parse_general ready_db "s-bob" (units "horarios?") None
                      bob_env two_sessions = (cs', Ok resp))
    ∧ ∃ (userMessage assistantMessage : Message) (o' : Session),
        objects cs' !! session = Some o'
        ∧ role userMessage = user ∧ content userMessage = units "horarios?"
        ∧ role assistantMessage = assistant
        ∧ content assistantMessage = response resp
        ∧ messages o'
          = drop (length (messages o) + 2 - 2 * maxHistoryLength)
                 (messages o ++ [userMessage; assistantMessage])
        ∧ length (messages o')
          = (length (messages o) + 2) `min` (2 * maxHistoryLength)
        ∧ (lastActivity o ≤ lastActivity o')%Z
        ∧ lastActivity o' = t_activity bob_env
        ∧ ((t_sweep bob_env - lastActivity o ≤ sessionTimeout)%Z →
           chatSessions cs' !! "s-bob" = Some session).
Proof.
  eexists _, _, _, _.
  assert (Hreach : reachable two_sessions "s-bob" (t_get bob_env) 1
            {| sid := "s-bob"; userId := Some "bob"; createdAt := 3000000;
               lastActivity := 3000000; messages := [];
               session_metadata :=
                 ∅ ∪ {[ "userAgent" := ""; "ip" := ""; "source" := "web" ]};
               isActive := true; endedAt := None |}).
  { split; [|split]; [vm_compute; reflexivity..|]. vm_compute. discriminate. }
  split; [split; [exact Hreach|split]|].
  - vm_compute. discriminate.
  - vm_compute. reflexivity.
  - eapply (processMessage_appends_pair
             parse_general ready_db "s-bob" (units "horarios?") None bob_env
             two_sessions _ _ _ _ Hreach).
    + vm_compute. discriminate.
    + vm_compute. reflexivity.
Defined.

(** C1 fails as stated: on a session that holds 40 messages, a successful
    [processMessage] leaves 40 messages, not 42; and 40 is more than the
    configured [maxHistoryLength] of 20. *)
Lemma processMessage_full_history_counterexample :
  ∃ cs' resp o',
    reachable full_store "s-bob" (t_get bob_env) 0 full_session
    ∧ processMessage parse_general ready_db "s-bob" (units "horarios?") None
                     bob_env full_store = (cs', Ok resp)
    ∧ stored cs' "s-bob" = Some o'
    ∧ length (messages full_session) = 40
    ∧ length (messages o') = 40
    ∧ length (messages o') ≠ length (messages full_session) + 2
    ∧ maxHistoryLength < length (messages o').
Proof.
  eexists _, _, _.
  split; [split; [|split]; [vm_compute; reflexivity..|vm_compute; discriminate]|].
  split; [vm_compute; reflexivity|]. split; [vm_compute; reflexivity|].
  split; [reflexivity|]. split; [reflexivity|].
  split; [vm_compute; discriminate|]. vm_compute. lia.
Qed.

(** C6 fails as stated: Alice's session has expired, and
    [exportSessionData] still returns it. *)
Lemma exportSessionData_expired_counterexample :
  ∃ session o,
    expired two_sessions "s-alice" 4200000 session o
    ∧ exportSessionData two_sessions "s-alice" ≠ None.
Proof.
  eexists _, _.
  split; [split; [|split]; [vm_compute; reflexivity..|vm_compute; reflexivity]|].
  vm_compute. discriminate.
Qed.

Lemma expired_session_unreachable_witness :
  ∃ session o,
    expired two_sessions "s-alice" 4200000 session o
    ∧ (getSession "s-alice" 4200000 two_sessions).2 = Ok None
    ∧ chatSessions (getSession "s-alice" 4200000 two_sessions).1 !! "s-alice"
      = None
    ∧ exportSessionData (getSession "s-alice" 4200000 two_sessions).1
                        "s-alice" = None
    ∧ (∀ later, (4200000 ≤ later)%Z →
         chatSessions (cleanExpiredSessions later two_sessions).1 !! "s-alice"
         = None
         ∧ exportSessionData (cleanExpiredSessions later two_sessions).1
                             "s-alice" = None)
    ∧ ∃ exported,
        exportSessionData two_sessions "s-alice" = Some exported
        ∧ exp_sessionId exported = "s-alice"
        ∧ exp_userId exported = userId o
        ∧ exp_createdAt exported = createdAt o
        ∧ exp_endedAt exported = endedAt o
        ∧ exp_isActive exported = isActive o
        ∧ exp_metadata exported = session_metadata o
        ∧ length (exp_messages exported) = length (messages o)
        ∧ ∀ i msg, messages o !! i = Some msg →
            ∃ out, exp_messages exported !! i = Some out
                   ∧ msg_id out = msg_id msg ∧ role out = role msg
                   ∧ content out = content msg
                   ∧ timestamp out = timestamp msg
                   ∧ intent out = intent msg ∧ sources out = sources msg
                   ∧ confidence out = None.
Proof.
  eexists _, _.
  assert (Hexp : expired two_sessions "s-alice" 4200000 0
            {| sid := "s-alice"; userId := Some "alice"; createdAt := 0;
               lastActivity := 0; messages := [];
               session_metadata :=
                 ∅ ∪ {[ "userAgent" := ""; "ip" := ""; "source" := "web" ]};
               isActive := true; endedAt := None |}).
  { split; [|split]; vm_compute; reflexivity. }
  split; [exact Hexp|].
  exact (expired_session_unreachable two_sessions "s-alice" 4200000 _ _ Hexp).
Defined.

(** C8, at the input on which the code departs from it.  Bob's session
    is ended, which returns true and marks it inactive; ending it again,
    while it has not expired, returns true again, where the claim (and
    the caller that reports "not found or already ended" on false)
    expects false. *)
Theorem endChatSession_already_ended_returns_true :
  ∃ cs1 cs2 o1,
    endChatSession "s-bob" 4200000 4200000 two_sessions = (cs1, Ok true)
    ∧ stored cs1 "s-bob" = Some o1
    ∧ isActive o1 = false
    ∧ endChatSession "s-bob" 4200500 4200500 cs1 = (cs2, Ok true).
Proof.
  eexists _, _, _. split; [vm_compute; reflexivity|].
  split; [vm_compute; reflexivity|]. split; [reflexivity|].
  vm_compute. reflexivity.
Qed.

(** ** Chunking *)

(** *** Trimming *)

Lemma drop_while_suffix {A} (p : A → bool) (l : list A) :
  drop_while p l `suffix_of` l.
Proof.
  induction l as [|x l IH]; simpl; [done|].
  destruct (p x); [by apply suffix_cons_r|done].
Qed.

Lemma drop_while_head {A} (p : A → bool) (l : list A) :
  drop_while p l = [] ∨ ∃ c y, drop_while p l = c :: y ∧ p c = false.
Proof.
  induction l as [|x l IH]; simpl; [by left|].
  destruct (p x) eqn:Hx; [done|]. right. by exists x, l.
Qed.

Lemma drop_while_app_solid {A} (p : A → bool) (x : list A) c y :
  p c = false → drop_while p (x ++ c :: y) = drop_while p x ++ c :: y.
Proof.
  intros Hc. induction x as [|a x IH]; simpl; [by rewrite Hc|].
  by destruct (p a).
Qed.

Lemma ends_solid_app (x y : jsstring) : ends_solid y → ends_solid (x ++ y).
Proof. intros (z & c & -> & Hc). exists (x ++ z), c. by rewrite (assoc_L (++)). Qed.

Lemma ends_solid_drop_while (x : jsstring) :
  ends_solid x → ends_solid (drop_while is_whitespace x).
Proof.
  intros (y & c & -> & Hc). rewrite drop_while_app_solid by done.
  by exists (drop_while is_whitespace y), c.
Qed.

Lemma drop_while_app_ends (x y : jsstring) :
  ends_solid x →
  drop_while is_whitespace (x ++ y) = drop_while is_whitespace x ++ y.
Proof.
  intros (z & c & -> & Hc). rewrite <-(assoc_L (++) z [c] y).
  rewrite (drop_while_app_solid _ z c y) by done.
  rewrite (drop_while_app_solid _ z c []) by done.
  by rewrite <-(assoc_L (++)).
Qed.

Lemma trim_ends_solid (x : jsstring) :
  ends_solid x → trim x = drop_while is_whitespace x.
Proof.
  intros (y & c & Hy & Hc)%ends_solid_drop_while. unfold trim.
  rewrite Hy, rev_app_distr. simpl. rewrite Hc. simpl.
  by rewrite rev_involutive.
Qed.

Lemma trim_solid (x : jsstring) :
  starts_solid x → ends_solid x → trim x = x.
Proof.
  intros (c & y & -> & Hc) Hend. rewrite trim_ends_solid by done.
  simpl. by rewrite Hc.
Qed.

Lemma trim_is_solid (s : jsstring) :
  trim s ≠ [] → starts_solid (trim s) ∧ ends_solid (trim s).
Proof.
  unfold trim. set (u := drop_while is_whitespace s).
  destruct (drop_while_head is_whitespace (rev u)) as [Hv|(c & v & Hv & Hc)];
    rewrite Hv; [done|]. intros _.
  assert (Hend : ends_solid (rev (c :: v))).
  { exists (rev v), c. by simpl. }
  split; [|done].
  destruct (drop_while_suffix is_whitespace (rev u)) as [k Hk].
  rewrite Hv in Hk. apply (f_equal (@rev N)) in Hk.
  rewrite rev_involutive, rev_app_distr in Hk.
  destruct (drop_while_head is_whitespace s) as [Hu|(a & w & Hu & Ha)];
    fold u in Hu; rewrite Hu in Hk.
  - destruct Hend as (z & d & Hz & _). rewrite Hz in Hk.
    by destruct z.
  - destruct (rev (c :: v)) as [|b t] eqn:Hrev.
    + destruct Hend as (z & d & Hz & _). by destruct z.
    + simpl in Hk. injection Hk as -> _. by exists b, t.
Qed.

Lemma trim_trim (s : jsstring) : trim (trim s) = trim s.
Proof.
  destruct (decide (trim s = [])) as [->|Hne]; [done|].
  apply trim_is_solid in Hne as [??]. by apply trim_solid.
Qed.

Lemma trim_app_solid (x t : jsstring) :
  x ≠ [] → ends_solid x → starts_solid t → ends_solid t →
  trim (x ++ [DocumentService.space] ++ t)
  = trim x ++ [DocumentService.space] ++ t.
Proof.
  intros Hx Hxe Hts Hte.
  rewrite (trim_ends_solid (x ++ _)) by by do 2 apply ends_solid_app.
  rewrite (trim_ends_solid x) by done.
  destruct Hxe as (y & c & -> & Hc).
  rewrite <-(assoc_L (++) y [c]).
  rewrite (drop_while_app_solid _ y c ([DocumentService.space] ++ t)) by done.
  rewrite (drop_while_app_solid _ y c []) by done.
  by rewrite <-(assoc_L (++)).
Qed.

(** *** Splitting into words and joining them *)

Lemma join_cons (sep w : jsstring) (ws : list jsstring) :
  ws ≠ [] → join sep (w :: ws) = w ++ sep ++ join sep ws.
Proof. by destruct ws. Qed.

Lemma join_snoc (sep w : jsstring) (ws : list jsstring) :
  ws ≠ [] → join sep (ws ++ [w]) = join sep ws ++ sep ++ w.
Proof.
  induction ws as [|v ws IH]; [done|]. intros _.
  destruct ws as [|u ws]; [done|].
  change ((v :: u :: ws) ++ [w]) with (v :: ((u :: ws) ++ [w])).
  rewrite join_cons by done. rewrite IH by done.
  rewrite (join_cons sep v (u :: ws)) by done. by rewrite <-!(assoc_L (++)).
Qed.

Lemma join_elem (sep w : jsstring) (ws : list jsstring) :
  w ∈ ws → ∃ l r, join sep ws = l ++ w ++ r.
Proof.
  induction ws as [|v ws IH]; [by intros ?%not_elem_of_nil|].
  destruct (decide (ws = [])) as [->|Hne].
  - intros ->%list_elem_of_singleton. exists [], []. simpl. by rewrite app_nil_r.
  - rewrite join_cons by done. intros [->|Hin]%elem_of_cons.
    + by exists [], (sep ++ join sep ws).
    + destruct (IH Hin) as (l & r & ->). exists (v ++ sep ++ l), r.
      by rewrite <-!(assoc_L (++)).
Qed.

Lemma join_drop_suffix (sep : jsstring) (ws : list jsstring) (k : nat) :
  join sep (drop k ws) `suffix_of` join sep ws.
Proof.
  revert k. induction ws as [|w ws IH]; intros [|k]; try done.
  change (drop (S k) (w :: ws)) with (drop k ws).
  etrans; [apply IH|]. destruct (decide (ws = [])) as [->|Hne].
  - by apply suffix_nil.
  - rewrite join_cons by done. rewrite (assoc_L (++)). by apply suffix_app_r.
Qed.

Lemma split_at_nonempty (sep : N) (s : jsstring) : split_at sep s ≠ [].
Proof.
  destruct s as [|c s]; simpl; [done|].
  destruct (c =? sep)%N; [done|]. by destruct (split_at sep s).
Qed.

Lemma join_split_at (sep : N) (s : jsstring) :
  join [sep] (split_at sep s) = s.
Proof.
  induction s as [|c s IH]; [done|]. simpl.
  destruct (c =? sep)%N eqn:Hc.
  - apply N.eqb_eq in Hc as ->.
    rewrite join_cons by apply split_at_nonempty. simpl. by rewrite IH.
  - destruct (split_at sep s) as [|w ws] eqn:Hs;
      [by apply split_at_nonempty in Hs|].
    destruct ws as [|v ws]; simpl in *; by rewrite <-IH.
Qed.

Lemma split_at_app (sep : N) (w r : jsstring) :
  sep ∉ w → split_at sep (w ++ sep :: r) = w :: split_at sep r.
Proof.
  induction w as [|c w IH]; intros Hw; simpl.
  - by rewrite N.eqb_refl.
  - apply not_elem_of_cons in Hw as [Hc Hw].
    rewrite (proj2 (N.eqb_neq c sep)) by done. by rewrite IH.
Qed.

Lemma split_at_word (sep : N) (w : jsstring) :
  sep ∉ w → split_at sep w = [w].
Proof.
  induction w as [|c w IH]; intros Hw; simpl; [done|].
  apply not_elem_of_cons in Hw as [Hc Hw].
  rewrite (proj2 (N.eqb_neq c sep)) by done. by rewrite IH.
Qed.

Lemma split_at_words (sep : N) (s : jsstring) :
  Forall (λ w, sep ∉ w) (split_at sep s).
Proof.
  induction s as [|c s IH]; simpl.
  - constructor; [apply not_elem_of_nil|constructor].
  - destruct (c =? sep)%N eqn:Hc.
    + constructor; [apply not_elem_of_nil|done].
    + destruct (split_at sep s) as [|w ws]; [repeat constructor|].
      * apply not_elem_of_cons. split; [|apply not_elem_of_nil].
        apply N.eqb_neq in Hc. congruence.
      * apply Forall_cons in IH as [Hw Hws]. constructor; [|done].
        apply not_elem_of_cons. split; [|done].
        apply N.eqb_neq in Hc. congruence.
Qed.

Lemma split_at_join (sep : N) (ws : list jsstring) :
  ws ≠ [] → Forall (λ w, sep ∉ w) ws → split_at sep (join [sep] ws) = ws.
Proof.
  induction ws as [|w ws IH]; [done|]. intros _ [Hw Hws]%Forall_cons.
  destruct (decide (ws = [])) as [->|Hne]; [by apply split_at_word|].
  rewrite join_cons by done. simpl. rewrite split_at_app by done.
  by rewrite IH.
Qed.

(** The number of words of a string is one more than its number of
    separators. *)
Lemma length_split_at (sep : N) (s : jsstring) :
  length (split_at sep s) = S (length (filter (λ c, c = sep) s)).
Proof.
  induction s as [|c s IH]; [done|]. cbn [split_at].
  destruct (c =? sep)%N eqn:Hc.
  - apply N.eqb_eq in Hc as ->. rewrite filter_cons_True by done.
    cbn [length]. by rewrite IH.
  - apply N.eqb_neq in Hc. rewrite filter_cons_False by done.
    rewrite <-IH. by destruct (split_at sep s).
Qed.

Lemma length_split_at_suffix (sep : N) (x y : jsstring) :
  x `suffix_of` y → length (split_at sep x) ≤ length (split_at sep y).
Proof.
  intros [k ->]. rewrite !length_split_at, filter_app, length_app. lia.
Qed.

Lemma split_at_last (sep : N) (y : jsstring) (c : N) :
  c ≠ sep → ∃ ws w, split_at sep (y ++ [c]) = ws ++ [w ++ [c]].
Proof.
  intros Hc. induction y as [|a y (ws & w & IH)]; simpl.
  - rewrite (proj2 (N.eqb_neq c sep)) by done. by exists [], [].
  - rewrite IH. destruct (a =? sep)%N.
    + by exists ([] :: ws), w.
    + destruct ws as [|v ws]; simpl.
      * by exists [], (a :: w).
      * by exists ((a :: v) :: ws), w.
Qed.

Lemma slice_last {A} (n : nat) (l : list A) :
  0 < n → slice (- Z.of_nat n) l = drop (length l - n) l.
Proof.
  intros Hn. unfold slice.
  rewrite (proj2 (Z.ltb_lt _ _)) by lia. f_equal. lia.
Qed.

(** *** The shape of the chunks *)

Lemma body_snoc (block : list jsstring) (sentence : jsstring) :
  block ≠ [] →
  body (block ++ [sentence])
  = body block ++ [DocumentService.space] ++ trim sentence.
Proof.
  intros Hb. unfold body. rewrite fmap_app. simpl.
  apply join_snoc. by destruct block.
Qed.

Lemma chunked_as_first (sentence : jsstring) :
  chunked_as [[sentence]] [trim sentence].
Proof.
  split; [done|]. intros [|i] block chunk; simpl; [|done].
  by intros [= <-] [= <-].
Qed.

(** Closing a chunk and opening the next one with an overlap. *)
Lemma chunked_as_snoc blocks chunks previous overlap block :
  chunked_as blocks (chunks ++ [previous]) →
  overlap `suffix_of` previous → few_words overlap → block ≠ [] →
  chunked_as (blocks ++ [block])
             ((chunks ++ [previous])
                ++ [overlap ++ [DocumentService.space] ++ body block]).
Proof.
  intros [Hlen Hall] Hov Hfew Hb. split.
  { rewrite !length_app in *. simpl in *. lia. }
  intros i b c Hi Hc.
  destruct (decide (i < length blocks)) as [Hlt|Hge].
  - rewrite lookup_app_l in Hi by done.
    rewrite lookup_app_l in Hc by lia.
    destruct (Hall i b c Hi Hc) as [Hne Hshape]. split; [done|].
    destruct i as [|j]; [done|].
    destruct Hshape as (p & ov & Hp & ?). exists p, ov.
    split; [|done]. rewrite lookup_app_l; [done|]. lia.
  - assert (i = length blocks) as ->.
    { apply lookup_lt_Some in Hi. rewrite length_app in Hi. simpl in Hi. lia. }
    rewrite list_lookup_middle in Hi by done. injection Hi as <-.
    rewrite Hlen in Hc. rewrite list_lookup_middle in Hc by done.
    injection Hc as <-. split; [done|].
    rewrite Hlen, length_app. simpl.
    replace (length chunks + 1) with (S (length chunks)) by lia.
    exists previous, overlap. split; [|done].
    rewrite lookup_app_l by (rewrite length_app; simpl; lia).
    by rewrite list_lookup_middle.
Qed.

(** Appending a sentence to the chunk that is open. *)
Lemma chunked_as_extend blocks block chunks chunk sentence :
  chunked_as (blocks ++ [block]) (chunks ++ [chunk]) →
  chunked_as (blocks ++ [block ++ [sentence]])
             (chunks ++ [chunk ++ [DocumentService.space] ++ trim sentence]).
Proof.
  intros [Hlen Hall].
  assert (Hlen' : length blocks = length chunks).
  { rewrite !length_app in Hlen. simpl in Hlen. lia. }
  split; [by rewrite !length_app, Hlen'|].
  intros i b c Hi Hc.
  destruct (decide (i < length blocks)) as [Hlt|Hge].
  - rewrite lookup_app_l in Hi by done.
    rewrite lookup_app_l in Hc by lia.
    destruct (Hall i b c) as [Hne Hshape];
      [by rewrite lookup_app_l|by rewrite lookup_app_l by lia|].
    split; [done|]. destruct i as [|j]; [done|].
    destruct Hshape as (p & ov & Hp & ?). exists p, ov. split; [|done].
    rewrite lookup_app_l in Hp by lia. rewrite lookup_app_l; [done|lia].
  - assert (i = length blocks) as ->.
    { apply lookup_lt_Some in Hi. rewrite length_app in Hi. simpl in Hi. lia. }
    rewrite list_lookup_middle in Hi by done. injection Hi as <-.
    rewrite Hlen' in Hc. rewrite list_lookup_middle in Hc by done.
    injection Hc as <-.
    destruct (Hall (length blocks) block chunk) as [Hne Hshape];
      [by rewrite list_lookup_middle
      |by rewrite Hlen', list_lookup_middle|].
    split; [by destruct block|]. rewrite body_snoc by done.
    destruct (length blocks) as [|j] eqn:Hj.
    + by rewrite Hshape.
    + destruct Hshape as (p & ov & Hp & Hsuf & Hfew & ->). exists p, ov.
      split; [|split; [done|split; [done|]]].
      * rewrite lookup_app_l in Hp by lia. rewrite lookup_app_l; [done|lia].
      * by rewrite <-!(assoc_L (++)).
Qed.

Lemma elem_of_concat {A} (x : A) (ls : list (list A)) :
  x ∈ concat ls → ∃ l, l ∈ ls ∧ x ∈ l.
Proof.
  induction ls as [|l ls IH]; simpl; [by intros ?%not_elem_of_nil|].
  intros [Hx|Hx]%elem_of_app.
  - exists l. split; [by left|done].
  - destruct (IH Hx) as (l' & ? & ?). exists l'. split; [by right|done].
Qed.

Lemma chunked_as_covers blocks chunks sentence :
  chunked_as blocks chunks → sentence ∈ concat blocks →
  ∃ chunk l r, chunk ∈ chunks ∧ chunk = l ++ trim sentence ++ r.
Proof.
  intros [Hlen Hall] (block & Hblock & Hs)%elem_of_concat.
  apply list_elem_of_lookup in Hblock as [i Hi].
  destruct (lookup_lt_is_Some_2 chunks i) as [chunk Hc].
  { rewrite <-Hlen. by eapply lookup_lt_Some. }
  destruct (join_elem [DocumentService.space] (trim sentence) (trim <$> block))
    as (l & r & Hbody); [by apply list_elem_of_fmap_2|].
  fold (body block) in Hbody.
  exists chunk. destruct (Hall i block chunk Hi Hc) as [_ Hshape].
  destruct i as [|j].
  - exists l, r. split; [by eapply list_elem_of_lookup_2|]. by rewrite Hshape.
  - destruct Hshape as (p & ov & _ & _ & _ & ->).
    exists (ov ++ [DocumentService.space] ++ l), r.
    split; [by eapply list_elem_of_lookup_2|].
    rewrite Hbody. by rewrite <-!(assoc_L (++)).
Qed.

(** The overlap that [add_sentence] carries over from the chunk it
    closes. *)
Lemma overlap_words (cur : jsstring) :
  ends_solid cur →
  let overlap :=
    join [DocumentService.space]
         (slice (- Z.of_nat (chunkOverlap / 6))
                (split_at DocumentService.space cur)) in
  overlap `suffix_of` cur ∧ ends_solid overlap ∧ few_words overlap.
Proof.
  intros (y & c & -> & Hc). cbv zeta.
  rewrite slice_last by (unfold chunkOverlap; simpl; lia).
  set (ws := split_at DocumentService.space (y ++ [c])).
  set (k := length ws - chunkOverlap / 6).
  assert (Hcsp : c ≠ DocumentService.space) by by intros ->.
  destruct (split_at_last DocumentService.space y c Hcsp) as (ws0 & w & Hws).
  fold ws in Hws.
  assert (Hk : k ≤ length ws0).
  { unfold k. rewrite Hws, length_app. unfold chunkOverlap. simpl. lia. }
  assert (Hdrop : drop k ws = drop k ws0 ++ [w ++ [c]]).
  { rewrite Hws. by apply drop_app_le. }
  split; [|split].
  - rewrite <-(join_split_at DocumentService.space (y ++ [c])).
    apply join_drop_suffix.
  - rewrite Hdrop. destruct (decide (drop k ws0 = [])) as [->|Hne].
    + by exists w, c.
    + rewrite join_snoc by done. rewrite !(assoc_L (++)). by eexists _, c.
  - unfold few_words. rewrite split_at_join.
    + rewrite length_drop. unfold k. lia.
    + rewrite Hdrop. by destruct (drop k ws0).
    + apply Forall_drop, split_at_words.
Qed.

Lemma drop_while_suffix_mono {A} (p : A → bool) (x y : list A) :
  x `suffix_of` y → drop_while p x `suffix_of` drop_while p y.
Proof.
  intros [k ->]. induction k as [|a k IH]; [done|]. simpl.
  destruct (p a); [done|].
  etrans; [apply drop_while_suffix|]. apply suffix_cons_r. by apply suffix_app_r.
Qed.

Lemma ends_solid_nonempty (x : jsstring) : ends_solid x → x ≠ [].
Proof. intros (y & c & -> & _). by destruct y. Qed.

Lemma add_sentence_invariant done st sentence :
  trim sentence ≠ [] →
  loop_invariant done st →
  loop_invariant (done ++ [sentence]) (add_sentence st sentence).
Proof.
  intros Hs [Hlen Hinv].
  destruct (trim_is_solid sentence Hs) as [Hstart Hend].
  unfold add_sentence.
  destruct (bool_decide (chunkSize < _) && bool_decide (0 < _)) eqn:Hsplit.
  - (* the chunk is closed *)
    apply andb_true_iff in Hsplit as [_ Hpos%bool_decide_eq_true_1].
    split; [done|]. right. cbn [chunks currentChunk].
    destruct Hinv as [(_ & _ & Hnil)|(Hcur & blocks & Hdone & Hblocks)].
    { rewrite Hnil in Hpos. simpl in Hpos. lia. }
    destruct (overlap_words (currentChunk st) Hcur) as (Hsuf & Hov & Hfew).
    set (raw := join _ _) in *.
    split; [by do 2 apply ends_solid_app|].
    exists (blocks ++ [[sentence]]). split.
    { by rewrite concat_app, Hdone. }
    rewrite (trim_ends_solid (raw ++ _)) by by do 2 apply ends_solid_app.
    rewrite drop_while_app_ends by done.
    change (trim sentence) with (body [sentence]).
    apply chunked_as_snoc; [done| | |done].
    + rewrite (trim_ends_solid (currentChunk st)) by done.
      by apply drop_while_suffix_mono.
    + unfold few_words in *. etrans; [|exact Hfew].
      apply length_split_at_suffix, drop_while_suffix.
  - (* the sentence joins the open chunk *)
    split; [done|]. right. cbn [chunks currentChunk].
    destruct Hinv as [(-> & -> & ->)|(Hcur & blocks & Hdone & Hblocks)].
    + rewrite bool_decide_eq_false_2 by (by intros ?). simpl.
      split; [done|]. exists [[sentence]]. split; [done|].
      rewrite trim_trim. apply chunked_as_first.
    + rewrite bool_decide_eq_true_2 by by apply ends_solid_nonempty.
      split; [by do 2 apply ends_solid_app|].
      rewrite trim_app_solid by (try done; by apply ends_solid_nonempty).
      destruct (decide (blocks = [])) as [->|Hne].
      { destruct Hblocks as [Hl _]. rewrite length_app in Hl. simpl in Hl. lia. }
      destruct (exists_last Hne) as (bs & b & ->).
      exists (bs ++ [b ++ [sentence]]). split.
      * rewrite concat_app in Hdone |- *. simpl in *.
        rewrite app_nil_r in Hdone. rewrite <-Hdone.
        by rewrite app_nil_r, <-(assoc_L (++)).
      * by apply chunked_as_extend.
Qed.

Lemma foldl_add_sentence_invariant done st todo :
  Forall (λ sentence, trim sentence ≠ []) todo →
  loop_invariant done st →
  loop_invariant (done ++ todo) (foldl add_sentence st todo).
Proof.
  revert done st. induction todo as [|s todo IH]; intros done st Htodo Hinv.
  - by rewrite app_nil_r.
  - apply Forall_cons in Htodo as [Hs Htodo]. simpl.
    rewrite (cons_middle s), (assoc_L (++)). apply IH; [done|].
    by apply add_sentence_invariant.
Qed.

Lemma sentences_not_blank (text : jsstring) :
  Forall (λ sentence, trim sentence ≠ []) (sentences text).
Proof.
  unfold sentences. apply Forall_forall. intros s [Hs _]%list_elem_of_filter.
  intros Hnil. rewrite Hnil in Hs. simpl in Hs. lia.
Qed.

Lemma closedChunks_chunked (text : jsstring) :
  ∃ blocks,
    concat blocks = sentences text
    ∧ chunked_as blocks (closedChunks text).
Proof.
  unfold closedChunks.
  set (init := {| chunks := []; currentChunk := []; currentLength := 0 |}).
  destruct (foldl_add_sentence_invariant [] init (sentences text))
    as [_ [(Hnil & -> & ->)|(Hcur & blocks & Hdone & Hblocks)]].
  - apply sentences_not_blank.
  - split; [done|]. by left.
  - exists []. simpl in Hnil. rewrite Hnil.
    rewrite bool_decide_eq_false_2 by (simpl; lia).
    split; [done|]. split; [done|]. by intros [|?] ???.
  - exists blocks. split; [done|].
    rewrite bool_decide_eq_true_2; [done|].
    rewrite trim_ends_solid by done.
    apply ends_solid_drop_while, ends_solid_nonempty in Hcur.
    destruct (drop_while _ _); [done|simpl; lia].
Qed.

(** Cutting at the terminators loses the terminators and nothing else. *)
Lemma concat_split_runs (sep : N → bool) (in_run : bool) (cur s : jsstring) :
  (in_run = true → cur = []) →
  concat (split_runs sep in_run cur s)
  = cur ++ filter (λ c, sep c = false) s.
Proof.
  revert in_run cur. induction s as [|c s IH]; intros in_run cur Hrun.
  - cbn [split_runs concat]. by rewrite filter_nil.
  - cbn [split_runs]. destruct (sep c) eqn:Hc.
    + rewrite filter_cons_False by (by rewrite Hc).
      destruct in_run.
      * rewrite IH by done. by rewrite Hrun.
      * cbn [concat]. by rewrite IH.
    + rewrite filter_cons_True by done. rewrite IH by done.
      by rewrite <-(assoc_L (++)).
Qed.

(** C4, as amended.  For every input text:
    - no returned chunk has 50 characters or fewer;
    - the pieces between the runs of terminators hold every character of
      the input except the terminators [. ! ?], and the sentences are the
      pieces that are not blank;
    - the chunks closed by the loop are made, in order, of consecutive
      blocks of these sentences, trimmed and joined by single spaces, each
      chunk after the first being preceded by an overlap and a space; the
      overlap is a suffix of the chunk closed just before and has at most
      [chunkOverlap / 6] = 33 space-separated words (its number of
      characters is not bounded);
    - the returned chunks are the closed chunks longer than 50 characters,
      in order, wherever the shorter ones occur;
    - so every sentence, trimmed, occurs in a closed chunk, which is
      returned if it is longer than 50 characters. *)
Theorem createChunks_structure (text : jsstring) :
  Forall (λ chunk, 50 < length chunk) (createChunks text)
  ∧ concat (split_runs is_terminator false [] text)
    = filter (λ c, is_terminator c = false) text
  ∧ ∃ (blocks : list (list jsstring)) (closed : list jsstring),
      concat blocks = sentences text
      ∧ chunked_as blocks closed
      ∧ createChunks text = filter (λ chunk, 50 < length chunk) closed
      ∧ ∀ sentence, sentence ∈ sentences text →
          ∃ chunk l r,
            chunk ∈ closed
            ∧ chunk = l ++ trim sentence ++ r
            ∧ (50 < length chunk → chunk ∈ createChunks text).
Proof.
  split; [|split].
  - unfold createChunks. apply Forall_forall.
    by intros chunk [? _]%list_elem_of_filter.
  - by rewrite concat_split_runs.
  - destruct (closedChunks_chunked text) as (blocks & Hblocks & Hchunked).
    exists blocks, (closedChunks text). do 3 (split; [done|]).
    intros sentence Hs. rewrite <-Hblocks in Hs.
    destruct (chunked_as_covers _ _ _ Hchunked Hs) as (chunk & l & r & Hin & Heq).
    exists chunk, l, r. do 2 (split; [done|]).
    intros Hlong. unfold createChunks. by apply list_elem_of_filter.
Qed.

(** C4 fails as stated: both chunks of [long_word_text] are returned, the
    second one begins with the whole first one, an overlap of 900
    characters, and the full stop of the input is in neither. *)
Lemma createChunks_long_word_counterexample :
  ∃ first second,
    createChunks long_word_text = [first; second]
    ∧ first `prefix_of` second
    ∧ chunkOverlap < length first
    ∧ 46%N ∈ long_word_text
    ∧ (46%N ∉ first) ∧ (46%N ∉ second).
Proof.
  exists (replicate 900 97%N),
         (replicate 900 97%N ++ [32%N] ++ replicate 200 98%N).
  split; [vm_compute; reflexivity|].
  split; [by eexists|].
  split; [vm_compute; lia|].
  split; [apply elem_of_app; right; by left|].
  split; apply (bool_decide_unpack _); vm_compute; reflexivity.
Qed.

Example createChunks_three_sentences :
  createChunks faq_text
  = [units "Our office opens at nine Support answers within one day Can orders be returned within a month"].
Proof. vm_compute. reflexivity. Qed.

(* ===================================================================== *)
(** * Part V: further properties of the services and of their callers    *)
(* ===================================================================== *)

(** ** Sessions: creation, lookup, sweep *)

Lemma classifyIntent_total JSON_parse query completion :
  ∃ intent, classifyIntent JSON_parse query completion = Ok intent.
Proof.
  unfold classifyIntent. destruct completion as [[content|]|e]; simpl;
    [|by eexists..].
  destruct (JSON_parse (trim content)); simpl; by eexists.
Qed.

(** [classifyIntent] resolves to [null] only when the provider's output
    parses to [null]. *)
Lemma classifyIntent_not_null JSON_parse query completion :
  (∀ output, completion = Ok (Some output) →
     JSON_parse (trim output) ≠ Ok None) →
  ∃ intent, classifyIntent JSON_parse query completion = Ok (Some intent).
Proof.
  intros Hparse. unfold classifyIntent.
  destruct completion as [[output|]|e]; simpl; [|by eexists..].
  specialize (Hparse output eq_refl).
  destruct (JSON_parse (trim output)) as [[parsed|]|e]; simpl;
    [by eexists|done|by eexists].
Qed.

(** [processMessage], step by step, for a session that [getSession]
    finds. *)
Lemma processMessage_run JSON_parse vectorDB sessionId message maxResults
    env cs session o :
  reachable cs sessionId (t_get env) session o →
  processMessage JSON_parse vectorDB sessionId message maxResults env cs
  = match classifyIntent JSON_parse message (classification env) with
    | Throw e => (touched env session cs, Throw e)
    | Ok None => (touched env session cs, Throw TypeError)
    | Ok (Some intent) =>
        match searchDocuments vectorDB message
                (search_options maxResults intent)
                (query_embedding env) (index_answer env) with
        | Throw e => (touched env session cs, Throw e)
        | Ok docs =>
            match generateRAGResponse message docs (@nil Message)
                                      (generation env) with
            | Throw e => (touched env session cs, Throw e)
            | Ok answer =>
                (completed env session
                   [user_message env message intent;
                    assistant_message env answer docs intent] cs,
                 Ok (reply env answer docs intent))
            end
        end
    end.
Proof.
  intros Hreach. unfold processMessage.
  unfold mbind at 1, SE_bind. rewrite (getSession_reachable _ _ _ _ _ Hreach).
  unfold mbind, SE_bind, mret, SE_ret, throw, lift, update, get_state,
    cleanExpiredSessions, modify_state. cbn [fst snd chatSessions objects].
  destruct (classifyIntent _ _ _) as [[intent|]|e]; [|done..].
  fold (search_options maxResults intent).
  destruct (searchDocuments _ _ _ _ _) as [docs|e]; [|done].
  unfold generateRAGResponse.
  by destruct (generation env) as [[content|]|e].
Qed.

(** X1. A session just created is found by [getSession] as long as it has
    not expired: under the id that was returned, with no message, active,
    not ended, with the user id and the times of its creation.  The
    sessions that were in the store are still there, unchanged. *)
Theorem createChatSession_then_getSession
    (userId : option string) (metadata : gmap string string) (uuid : string)
    (now1 now2 later : Z) (cs : ChatService.t) :
  (later - now2 ≤ sessionTimeout)%Z →
  ∃ cs1 created session o,
    createChatSession userId metadata uuid now1 now2 cs = (cs1, Ok created)
    ∧ created_sessionId created = uuid
    ∧ created_createdAt created = now1
    ∧ getSession uuid later cs1 = (cs1, Ok (Some session))
    ∧ objects cs1 !! session = Some o
    ∧ sid o = uuid ∧ ChatService.userId o = userId
    ∧ messages o = [] ∧ isActive o = true ∧ endedAt o = None
    ∧ createdAt o = now1 ∧ lastActivity o = now2
    ∧ ∀ other o', other ≠ uuid →
        stored cs other = Some o' → stored cs1 other = Some o'.
Proof.
  intros Hlater. unfold createChatSession.
  set (r := fresh (dom (objects cs))).
  assert (Hfresh : objects cs !! r = None) by apply not_elem_of_dom, is_fresh.
  eexists _, _, r, _. split; [reflexivity|]. do 2 (split; [done|]).
  split; [|split; [cbn [objects]; apply lookup_insert_eq|]].
  - eapply (getSession_reachable _ _ _ r). split; [|split].
    + cbn [chatSessions]. apply lookup_insert_eq.
    + cbn [objects]. apply lookup_insert_eq.
    + done.
  - do 7 (split; [done|]). intros other o' Hne. unfold stored.
    cbn [chatSessions objects]. rewrite lookup_insert_ne by done.
    destruct (chatSessions cs !! other) as [r'|]; simpl; [|done].
    intros Ho'. rewrite lookup_insert_ne; [done|]. intros <-. congruence.
Qed.

Lemma createChatSession_then_getSession_witness :
  (1000 - 0 ≤ sessionTimeout)%Z
  ∧ ∃ cs1 created session o,
      createChatSession (Some "carol") ∅ "s-carol" 0 0 two_sessions
        = (cs1, Ok created)
      ∧ created_sessionId created = "s-carol"
      ∧ created_createdAt created = 0%Z
      ∧ getSession "s-carol" 1000 cs1 = (cs1, Ok (Some session))
      ∧ objects cs1 !! session = Some o
      ∧ sid o = "s-carol" ∧ ChatService.userId o = Some "carol"
      ∧ messages o = [] ∧ isActive o = true ∧ endedAt o = None
      ∧ createdAt o = 0%Z ∧ lastActivity o = 0%Z
      ∧ ∀ other o', other ≠ "s-carol" →
          stored two_sessions other = Some o' → stored cs1 other = Some o'.
Proof.
  split; [vm_compute; discriminate|].
  apply (createChatSession_then_getSession
           (Some "carol") ∅ "s-carol" 0 0 1000 two_sessions).
  vm_compute; discriminate.
Defined.

Lemma service_eq (a b : ChatService.t) :
  chatSessions a = chatSessions b → objects a = objects b → a = b.
Proof. destruct a, b. simpl. by intros -> ->. Qed.

(** X2. The sweep removes from the store exactly the sessions that have
    expired at the time it reads, keeps every other session under the
    same key, touches no session object, and sweeping again at the same
    time changes nothing more. *)
Theorem cleanExpiredSessions_exact (now : Z) (cs : ChatService.t) :
  ∃ cs',
    cleanExpiredSessions now cs = (cs', Ok tt)
    ∧ objects cs' = objects cs
    ∧ (∀ sessionId, chatSessions cs !! sessionId = None →
                    chatSessions cs' !! sessionId = None)
    ∧ (∀ sessionId session o,
         chatSessions cs !! sessionId = Some session →
         objects cs !! session = Some o →
         chatSessions cs' !! sessionId
         = if bool_decide (sessionTimeout < now - lastActivity o)%Z
           then None else Some session)
    ∧ cleanExpiredSessions now cs' = (cs', Ok tt).
Proof.
  exists (cleanExpiredSessions now cs).1. split; [done|]. split; [done|].
  split; [|split].
  - intros sessionId Hs. by rewrite cleanExpiredSessions_lookup, Hs.
  - intros sessionId session o Hs Ho.
    rewrite cleanExpiredSessions_lookup, Hs.
    case_bool_decide as Hexp.
    + rewrite decide_True; [done|]. by apply (is_expired_iff _ _ _ _ o).
    + rewrite decide_False; [done|]. by rewrite (is_expired_iff _ _ _ _ o).
  - set (cs' := (cleanExpiredSessions now cs).1).
    assert (Hmap : chatSessions (cleanExpiredSessions now cs').1
                   = chatSessions cs').
    { apply map_eq. intros i. rewrite cleanExpiredSessions_lookup.
      destruct (chatSessions cs' !! i) as [r|] eqn:Hi; [|done].
      rewrite decide_False; [done|].
      unfold cs' in Hi. rewrite cleanExpiredSessions_lookup in Hi.
      destruct (chatSessions cs !! i) as [r'|]; [|done].
      case_decide as Hexp; [done|]. by injection Hi as ->. }
    change (cleanExpiredSessions now cs')
      with ((cleanExpiredSessions now cs').1, @Ok unit tt).
    f_equal. by apply service_eq.
Qed.

(** X3. For a session that is missing, or that has expired when
    [getSession] looks, [processMessage] throws the session-not-found
    error and does nothing else: no sweep, no session object is changed,
    every other key of the store keeps its binding, and no session is
    created under the requested id. *)
Theorem processMessage_unknown_session
    (JSON_parse : jsstring → Result (option Intent))
    (vectorDB : VectorDatabase.t)
    (sessionId : string) (message : jsstring) (maxResults : option nat)
    (env : ChatService.Env) (cs : ChatService.t) :
  (∀ session o, ¬ reachable cs sessionId (t_get env) session o) →
  ∃ cs',
    processMessage JSON_parse vectorDB sessionId message maxResults env cs
      = (cs', Throw (Err "Sesión de chat no encontrada"))
    ∧ objects cs' = objects cs
    ∧ (∀ other, other ≠ sessionId →
                chatSessions cs' !! other = chatSessions cs !! other)
    ∧ stored cs' sessionId = None.
Proof.
  intros Hnot. unfold processMessage. unfold mbind at 1, SE_bind.
  unfold getSession, stored.
  destruct (chatSessions cs !! sessionId) as [session|] eqn:Hs.
  - destruct (objects cs !! session) as [o|] eqn:Ho.
    + case_bool_decide as Hexp.
      * eexists. split; [reflexivity|]. cbn [objects chatSessions].
        split; [done|]. split; [|by rewrite lookup_delete_eq].
        intros other Hne. by rewrite lookup_delete_ne.
      * destruct (Hnot session o). split; [done|split; [done|lia]].
    + eexists. split; [reflexivity|]. by rewrite Hs; simpl.
  - eexists. split; [reflexivity|]. by rewrite Hs.
Qed.

Lemma two_sessions_order :
  visiting_order two_sessions ["s-alice"; "s-bob"].
Proof.
  split.
  - apply (bool_decide_unpack _). vm_compute. reflexivity.
  - intros sessionId. rewrite !elem_of_cons, elem_of_nil.
    unfold two_sessions, createChatSession. cbn [fst chatSessions constructor].
    rewrite !lookup_insert_is_Some, lookup_empty, is_Some_alt.
    intuition congruence.
Qed.

Lemma parse_general_not_null (content : jsstring) :
  parse_general content ≠ Ok None.
Proof. done. Qed.

Lemma bob_reachable : reachable two_sessions "s-bob" 4200000 1 bob_session.
Proof.
  split; [|split]; [vm_compute; reflexivity..|]. vm_compute. discriminate.
Qed.

Lemma processMessage_unknown_session_witness :
  (∀ session o, ¬ reachable two_sessions "s-alice" (t_get bob_env) session o)
  ∧ ∃ cs',
      processMessage parse_general ready_db "s-alice" (units "hola") None
                     bob_env two_sessions
        = (cs', Throw (Err "Sesión de chat no encontrada"))
      ∧ objects cs' = objects two_sessions
      ∧ (∀ other, other ≠ "s-alice" →
           chatSessions cs' !! other = chatSessions two_sessions !! other)
      ∧ stored cs' "s-alice" = None.
Proof.
  assert (Hnot : ∀ session o,
            ¬ reachable two_sessions "s-alice" (t_get bob_env) session o).
  { intros session o (Hs & Ho & Hlive).
    vm_compute in Hs. injection Hs as <-.
    vm_compute in Ho. injection Ho as <-.
    vm_compute in Hlive. by apply Hlive. }
  split; [exact Hnot|].
  exact (processMessage_unknown_session parse_general ready_db "s-alice"
           (units "hola") None bob_env two_sessions Hnot).
Defined.

(** ** Sessions: one turn of conversation *)

(** X4. When [processMessage] fails after it has found the session, that
    is when retrieval or generation fails, nothing is appended to the
    history of the session: its messages and its active flag are what
    they were, only [lastActivity] has been set; the sweep has run. *)
Theorem processMessage_failure_appends_nothing
    (JSON_parse : jsstring → Result (option Intent))
    (vectorDB : VectorDatabase.t)
    (sessionId : string) (message : jsstring) (maxResults : option nat)
    (env : ChatService.Env) (cs cs' : ChatService.t) (session : ref)
    (o : Session) (e : Error) :
  reachable cs sessionId (t_get env) session o →
  processMessage JSON_parse vectorDB sessionId message maxResults env cs
    = (cs', Throw e) →
  ∃ o',
    objects cs' !! session = Some o'
    ∧ messages o' = messages o
    ∧ isActive o' = isActive o
    ∧ endedAt o' = endedAt o
    ∧ lastActivity o' = t_activity env
    ∧ chatSessions cs'
      = chatSessions (cleanExpiredSessions (t_sweep env) cs).1.
Proof.
  intros Hreach Hrun.
  destruct (processMessage_state _ _ _ _ _ _ _ _ _ _ _ Hreach Hrun)
    as [Hmap Hobj].
  destruct Hreach as (Hs & Ho & _).
  exists (set_lastActivity (t_activity env) o).
  split; [by rewrite Hobj, lookup_alter_eq, Ho|]. by repeat split.
Qed.

Lemma processMessage_failure_appends_nothing_witness :
  ∃ cs' e,
    (reachable two_sessions "s-bob" (t_get bob_env_no_answer) 1 bob_session
     ∧ processMessage parse_general ready_db "s-bob" (units "horarios?") None
                      bob_env_no_answer two_sessions = (cs', Throw e))
    ∧ ∃ o',
        objects cs' !! 1 = Some o'
        ∧ messages o' = messages bob_session
        ∧ isActive o' = isActive bob_session
        ∧ endedAt o' = endedAt bob_session
        ∧ lastActivity o' = t_activity bob_env_no_answer
        ∧ chatSessions cs'
          = chatSessions
              (cleanExpiredSessions (t_sweep bob_env_no_answer)
                                    two_sessions).1.
Proof.
  eexists _, _. split; [split; [exact bob_reachable|]|].
  - vm_compute. reflexivity.
  - eapply (processMessage_failure_appends_nothing
              parse_general ready_db "s-bob" (units "horarios?") None
              bob_env_no_answer two_sessions _ 1 bob_session _ bob_reachable).
    vm_compute. reflexivity.
Defined.

(** [searchDocuments], case by case. *)
Lemma searchDocuments_eq db query options created answer :
  searchDocuments db query options created answer
  = match created with
    | Throw e => Throw (Err ("Error generando embedding: " +:+ message e))
    | Ok [] => Throw (Err ("Error generando embedding: " +:+ message TypeError))
    | Ok (_ :: _) =>
        if negb (initialized db) || negb (index db) then Throw not_initialized
        else match answer with
             | Throw e => Throw e
             | Ok matches =>
                 Ok (format_match
                       <$> filter (λ result,
                                     (default (dec 7 10) (minScore options)
                                      ≤ score result)%Qc)
                                  (default [] matches))
             end
    end.
Proof.
  unfold searchDocuments, generateEmbedding, queryVectors.
  destruct created as [[|emb rest]|e]; simpl; try done.
  destruct (negb (initialized db) || negb (index db)); simpl; [done|].
  by destruct answer as [matches|e].
Qed.

(** X5. For a session that [getSession] finds, [processMessage] succeeds
    exactly when the classifier's output is not the JSON value [null],
    the embedding call returns an embedding, the vector database is
    initialised, the index answers the query and the completion call
    returns a content.  A classification call that is rejected, or whose
    output cannot be read or parsed, plays no part in it: only an output
    that parses to [null] makes [processMessage] fail, at
    [intent.categoria]. *)
Theorem processMessage_succeeds_iff
    (JSON_parse : jsstring → Result (option Intent))
    (vectorDB : VectorDatabase.t)
    (sessionId : string) (message : jsstring) (maxResults : option nat)
    (env : ChatService.Env) (cs : ChatService.t) (session : ref)
    (o : Session) :
  reachable cs sessionId (t_get env) session o →
  (∃ cs' resp,
     processMessage JSON_parse vectorDB sessionId message maxResults env cs
     = (cs', Ok resp))
  ↔ ((∀ output, classification env = Ok (Some output) →
        JSON_parse (trim output) ≠ Ok None)
     ∧ (∃ embedding rest, query_embedding env = Ok (embedding :: rest))
     ∧ initialized vectorDB = true ∧ index vectorDB = true
     ∧ (∃ matches, index_answer env = Ok matches)
     ∧ ∃ content, generation env = Ok (Some content)).
Proof.
  intros Hreach. rewrite (processMessage_run _ _ _ _ _ _ _ _ _ Hreach).
  destruct (classifyIntent JSON_parse message (classification env))
    as [[intent|]|e] eqn:Hintent.
  2:{ split; [by intros (? & ? & [=])|]. intros [Hparse _].
      destruct (classifyIntent_not_null _ message _ Hparse) as [? Hsome].
      by rewrite Hintent in Hsome. }
  2:{ destruct (classifyIntent_total JSON_parse message
                  (classification env)) as [? Htotal].
      by rewrite Hintent in Htotal. }
  assert (Hparse : ∀ output, classification env = Ok (Some output) →
                     JSON_parse (trim output) ≠ Ok None).
  { intros output Hout Hnone. unfold classifyIntent in Hintent.
    rewrite Hout in Hintent. simpl in Hintent. rewrite Hnone in Hintent.
    done. }
  rewrite searchDocuments_eq. unfold generateRAGResponse.
  destruct (query_embedding env) as [[|emb rest]|e1];
    [| |]; try (split; [by intros (? & ? & [=])
                       |by intros (_ & (? & ? & [=]) & _)]).
  destruct (initialized vectorDB), (index vectorDB); simpl;
    try (split; [by intros (? & ? & [=])|by intros (_ & _ & ? & ? & _)]).
  destruct (index_answer env) as [matches|e2];
    [|split; [by intros (? & ? & [=])
             |by intros (_ & _ & _ & _ & [? [=]] & _)]].
  destruct (generation env) as [[content|]|e3]; simpl.
  - split; [|by eexists _, _]. intros _. repeat split; by eauto.
  - split; [by intros (? & ? & [=])|by intros (_ & _ & _ & _ & _ & ? & [=])].
  - split; [by intros (? & ? & [=])|by intros (_ & _ & _ & _ & _ & ? & [=])].
Qed.

Lemma processMessage_succeeds_iff_witness :
  reachable two_sessions "s-bob" (t_get bob_env) 1 bob_session
  ∧ ((∃ cs' resp,
        processMessage parse_general ready_db "s-bob" (units "horarios?")
                       None bob_env two_sessions = (cs', Ok resp))
     ↔ ((∀ output, classification bob_env = Ok (Some output) →
           parse_general (trim output) ≠ Ok None)
        ∧ (∃ embedding rest, query_embedding bob_env = Ok (embedding :: rest))
        ∧ initialized ready_db = true ∧ index ready_db = true
        ∧ (∃ matches, index_answer bob_env = Ok matches)
        ∧ ∃ content, generation bob_env = Ok (Some content))).
Proof.
  split; [exact bob_reachable|].
  exact (processMessage_succeeds_iff parse_general ready_db "s-bob"
           (units "horarios?") None bob_env two_sessions 1 bob_session
           bob_reachable).
Defined.




Lemma limit_history_flags (o : Session) :
  isActive (limit_history o) = isActive o
  ∧ endedAt (limit_history o) = endedAt o.
Proof. unfold limit_history. by case_bool_decide. Qed.

(** X7. Ending a session does not close it to messages.  For a session
    that [getSession] finds, [endChatSession] returns true and leaves the
    session in the store; a [processMessage] for it that arrives before it
    expires goes through as for any session: it refreshes [lastActivity],
    and when it succeeds it appends its two messages.  The session stays
    marked as ended all along. *)
Theorem endChatSession_then_processMessage
    (JSON_parse : jsstring → Result (option Intent))
    (vectorDB : VectorDatabase.t)
    (sessionId : string) (message : jsstring) (maxResults : option nat)
    (env : ChatService.Env) (now_get now_end : Z) (cs : ChatService.t)
    (session : ref) (o : Session) :
  reachable cs sessionId now_get session o →
  (t_get env - lastActivity o ≤ sessionTimeout)%Z →
  ∃ cs1,
    endChatSession sessionId now_get now_end cs = (cs1, Ok true)
    ∧ reachable cs1 sessionId (t_get env) session (set_ended now_end o)
    ∧ ∀ cs2 outcome,
        processMessage JSON_parse vectorDB sessionId message maxResults
                       env cs1 = (cs2, outcome) →
        ∃ o2,
          objects cs2 !! session = Some o2
          ∧ isActive o2 = false
          ∧ endedAt o2 = Some now_end
          ∧ lastActivity o2 = t_activity env
          ∧ length (messages o2)
            = match outcome with
              | Ok _ => (length (messages o) + 2) `min` (2 * maxHistoryLength)
              | Throw _ => length (messages o)
              end.
Proof.
  intros Hreach Hlive.
  unfold endChatSession. unfold mbind at 1, SE_bind.
  rewrite (getSession_reachable _ _ _ _ _ Hreach).
  destruct Hreach as (Hs & Ho & _).
  unfold update, modify_state, mbind, SE_bind, mret, SE_ret.
  eexists. split; [reflexivity|].
  assert (Hreach1 : reachable
            {| chatSessions := chatSessions cs;
               objects := alter (set_ended now_end) session (objects cs) |}
            sessionId (t_get env) session (set_ended now_end o)).
  { split; [done|]. split; [|done]. cbn [objects].
    by rewrite lookup_alter_eq, Ho. }
  split; [exact Hreach1|]. intros cs2 outcome Hrun.
  destruct (processMessage_state _ _ _ _ _ _ _ _ _ _ _ Hreach1 Hrun)
    as [_ Hobj].
  destruct Hreach1 as (_ & Ho1 & _).
  destruct outcome as [resp|e].
  - destruct Hobj as (u & a & -> & _).
    rewrite !lookup_alter_eq, Ho1. eexists. split; [reflexivity|].
    destruct (limit_history_flags
                (push_messages [u; a]
                   (set_lastActivity (t_activity env)
                      (set_ended now_end o)))) as [-> ->].
    rewrite limit_history_lastActivity, limit_history_messages.
    do 3 (split; [done|]).
    cbn [push_messages set_messages set_lastActivity set_ended messages].
    rewrite length_drop, length_app. unfold maxHistoryLength. simpl. lia.
  - rewrite Hobj, lookup_alter_eq, Ho1. eexists. by split; [reflexivity|].
Qed.

Lemma endChatSession_then_processMessage_witness :
  (reachable two_sessions "s-bob" 4100000 1 bob_session
   ∧ (t_get bob_env - lastActivity bob_session ≤ sessionTimeout)%Z)
  ∧ ∃ cs1,
      endChatSession "s-bob" 4100000 4100001 two_sessions = (cs1, Ok true)
      ∧ reachable cs1 "s-bob" (t_get bob_env) 1
                  (set_ended 4100001 bob_session)
      ∧ ∀ cs2 outcome,
          processMessage parse_general ready_db "s-bob" (units "horarios?")
                         None bob_env cs1 = (cs2, outcome) →
          ∃ o2,
            objects cs2 !! 1 = Some o2
            ∧ isActive o2 = false
            ∧ endedAt o2 = Some 4100001%Z
            ∧ lastActivity o2 = t_activity bob_env
            ∧ length (messages o2)
              = match outcome with
                | Ok _ => (length (messages bob_session) + 2)
                            `min` (2 * maxHistoryLength)
                | Throw _ => length (messages bob_session)
                end.
Proof.
  assert (Hreach : reachable two_sessions "s-bob" 4100000 1 bob_session).
  { split; [|split]; [vm_compute; reflexivity..|]. vm_compute. discriminate. }
  assert (Hlive : (t_get bob_env - lastActivity bob_session
                   ≤ sessionTimeout)%Z) by (vm_compute; discriminate).
  split; [by split|].
  exact (endChatSession_then_processMessage parse_general ready_db "s-bob"
           (units "horarios?") None bob_env 4100000 4100001 two_sessions 1
           bob_session Hreach Hlive).
Defined.

(** ** Sessions: listing and statistics *)

Lemma active_entry_Some cs now i r a :
  active_entry cs now (i, r) = Some a
  ↔ ∃ o, objects cs !! r = Some o
         ∧ (now - lastActivity o ≤ sessionTimeout)%Z
         ∧ a = {| as_sessionId := i; as_userId := userId o;
                  as_createdAt := createdAt o;
                  as_lastActivity := lastActivity o;
                  messageCount := length (messages o);
                  as_isActive := isActive o |}.
Proof.
  unfold active_entry. cbn [fst snd].
  destruct (objects cs !! r) as [o|]; simpl.
  - case_bool_decide as Hlive.
    + split; [intros [= <-]; by exists o|]. by intros (? & [= <-] & _ & ->).
    + split; [done|]. by intros (? & [= <-] & ? & _).
  - split; [done|]. by intros (? & [=] & _).
Qed.

Lemma getActiveSessions_ids (now : string → Z) (order : list string)
    (cs : ChatService.t) :
  (as_sessionId <$> getActiveSessions now order cs) `sublist_of` order.
Proof.
  unfold getActiveSessions.
  induction order as [|i order IH]; [done|]. cbn [omap list_omap].
  destruct (chatSessions cs !! i) as [r|]; simpl; [|by apply sublist_cons].
  destruct (active_entry cs (now i) (i, r)) as [a|] eqn:Ha.
  - apply active_entry_Some in Ha as (o & _ & _ & ->).
    rewrite !fmap_cons. by apply sublist_skip.
  - by apply sublist_cons.
Qed.

(** X8. [getActiveSessions] lists exactly the sessions that [getSession]
    would find at the time the loop reads for them, each of them once,
    with the user, the times, the number of messages and the active flag
    of the session object: sessions that were ended are listed, sessions
    that have expired are not (and are not deleted either).  This holds
    in whatever order the entries of the [Map] are visited. *)
Theorem getActiveSessions_lists_reachable
    (now : string → Z) (order : list string) (cs : ChatService.t) :
  visiting_order cs order →
  (∀ a, a ∈ getActiveSessions now order cs
        ↔ ∃ session o,
            reachable cs (as_sessionId a) (now (as_sessionId a)) session o
            ∧ a = {| as_sessionId := as_sessionId a; as_userId := userId o;
                     as_createdAt := createdAt o;
                     as_lastActivity := lastActivity o;
                     messageCount := length (messages o);
                     as_isActive := isActive o |})
  ∧ NoDup (as_sessionId <$> getActiveSessions now order cs).
Proof.
  intros [Hnodup Hkeys]. split.
  - intros a. unfold getActiveSessions. rewrite list_elem_of_omap. split.
    + intros (i & Hin & Ha).
      destruct (chatSessions cs !! i) as [r|] eqn:Hi; [|done]. simpl in Ha.
      apply active_entry_Some in Ha as (o & Ho & Hlive & ->).
      exists r, o. by repeat split.
    + intros (r & o & (Hs & Ho & Hlive) & Ha).
      exists (as_sessionId a). split; [apply Hkeys; by rewrite Hs|].
      rewrite Hs. simpl. apply active_entry_Some. exists o. by repeat split.
  - eapply sublist_NoDup; [exact Hnodup|]. apply getActiveSessions_ids.
Qed.

Lemma getActiveSessions_lists_reachable_witness :
  visiting_order two_sessions ["s-alice"; "s-bob"]
  ∧ (∀ a, a ∈ getActiveSessions (λ _, 4200000%Z) ["s-alice"; "s-bob"]
                                 two_sessions
          ↔ ∃ session o,
              reachable two_sessions (as_sessionId a) 4200000 session o
              ∧ a = {| as_sessionId := as_sessionId a; as_userId := userId o;
                       as_createdAt := createdAt o;
                       as_lastActivity := lastActivity o;
                       messageCount := length (messages o);
                       as_isActive := isActive o |})
  ∧ NoDup (as_sessionId <$> getActiveSessions (λ _, 4200000%Z)
                              ["s-alice"; "s-bob"] two_sessions).
Proof.
  split; [exact two_sessions_order|].
  exact (getActiveSessions_lists_reachable (λ _, 4200000%Z)
           ["s-alice"; "s-bob"] two_sessions two_sessions_order).
Defined.

Lemma elem_of_session_values (cs : ChatService.t) (o : Session) :
  o ∈ session_values cs ↔ ∃ i, stored cs i = Some o.
Proof.
  unfold session_values, stored. rewrite list_elem_of_omap. split.
  - intros ([i r] & Hin%elem_of_map_to_list & Ho). exists i.
    by rewrite Hin.
  - intros (i & Hi). destruct (chatSessions cs !! i) as [r|] eqn:Hr; [|done].
    exists (i, r). split; [by apply elem_of_map_to_list|done].
Qed.

Lemma length_session_values (cs : ChatService.t) :
  well_formed cs → length (session_values cs) = base.size (chatSessions cs).
Proof.
  intros [Hdang _]. unfold session_values.
  rewrite <-length_map_to_list.
  assert (Hall : Forall (λ entry : string * ref,
                           is_Some (objects cs !! entry.2))
                        (map_to_list (chatSessions cs))).
  { apply Forall_forall. intros [i r] Hin%elem_of_map_to_list.
    by eapply Hdang. }
  induction Hall as [|entry entries [o Ho] _ IH]; [done|].
  cbn [omap list_omap]. rewrite Ho. simpl. by rewrite IH.
Qed.

Lemma foldl_max_bounds (x : Z) (xs : list Z) :
  foldl Z.max x xs ∈ x :: xs ∧ ∀ y, y ∈ x :: xs → (y ≤ foldl Z.max x xs)%Z.
Proof.
  revert x. induction xs as [|z xs IH]; intros x; cbn [foldl].
  - split; [by left|]. intros y ->%list_elem_of_singleton. lia.
  - destruct (IH (x `max` z)%Z) as [Hin Hle]. split.
    + apply elem_of_cons in Hin as [Hin|Hin]; [|by do 2 right].
      rewrite Hin. destruct (Z.max_spec x z) as [[_ ->]|[_ ->]];
        [right|]; by left.
    + intros y [->|[->|Hy]%elem_of_cons]%elem_of_cons.
      * etrans; [|apply Hle; by left]. lia.
      * etrans; [|apply Hle; by left]. lia.
      * apply Hle. by right.
Qed.

Lemma foldl_messages_ge (sessions : list Session) (acc : nat) (o : Session) :
  o ∈ sessions →
  length (messages o)
  ≤ foldl (λ sum session, sum + length (messages session)) acc sessions.
Proof.
  assert (Hmono : ∀ sessions acc,
            acc ≤ foldl (λ (sum : nat) (session : Session),
                           sum + length (messages session)) acc sessions).
  { clear. induction sessions as [|s sessions IH]; intros acc; [done|].
    simpl. etrans; [|apply IH]. lia. }
  revert acc. induction sessions as [|s sessions IH]; intros acc;
    [by intros ?%not_elem_of_nil|].
  intros [->|Hin]%elem_of_cons; simpl.
  - etrans; [|apply Hmono]. lia.
  - by apply IH.
Qed.

(** X9. [getChatStats] counts every session of the store, whether or not
    it has expired: in a store in which every key leads to a session
    object, [totalSessions] is the number of keys; [activeSessions] is at
    most that; [totalMessages] is at least the number of messages of any
    one session; [lastActivity] is absent exactly for the empty store, and
    otherwise it is the [lastActivity] of some session and no session has
    a later one. *)
Theorem getChatStats_counts (cs : ChatService.t) :
  well_formed cs →
  totalSessions (getChatStats cs) = base.size (chatSessions cs)
  ∧ activeSessions (getChatStats cs) ≤ totalSessions (getChatStats cs)
  ∧ (stats_lastActivity (getChatStats cs) = None ↔ chatSessions cs = ∅)
  ∧ (∀ latest, stats_lastActivity (getChatStats cs) = Some latest →
       ∃ sessionId o, stored cs sessionId = Some o ∧ lastActivity o = latest)
  ∧ ∀ sessionId o, stored cs sessionId = Some o →
      length (messages o) ≤ totalMessages (getChatStats cs)
      ∧ ∃ latest, stats_lastActivity (getChatStats cs) = Some latest
                  ∧ (lastActivity o ≤ latest)%Z.
Proof.
  intros Hwf. pose proof (length_session_values cs Hwf) as Hlen.
  unfold getChatStats.
  cbn [totalSessions activeSessions totalMessages stats_lastActivity].
  split; [done|]. split; [apply length_filter|].
  assert (Hmax : ∀ o, o ∈ session_values cs →
            ∃ latest,
              Math_max (lastActivity <$> session_values cs) = Some latest
              ∧ latest ∈ lastActivity <$> session_values cs
              ∧ ∀ o', o' ∈ session_values cs → (lastActivity o' ≤ latest)%Z).
  { intros o Hin. destruct (session_values cs) as [|s sessions];
      [by apply not_elem_of_nil in Hin|].
    rewrite fmap_cons. cbn [Math_max]. eexists. split; [reflexivity|].
    destruct (foldl_max_bounds (lastActivity s) (lastActivity <$> sessions))
      as [Hin' Hle].
    split; [done|]. intros o' Ho'. apply Hle.
    rewrite <-fmap_cons. by apply list_elem_of_fmap_2. }
  split; [|split].
  - rewrite Hlen. case_bool_decide as Hpos.
    + split.
      * destruct (session_values cs) as [|s sessions] eqn:Hvalues;
          [simpl in Hlen; lia|done].
      * intros Hempty. rewrite Hempty, map_size_empty in Hpos. lia.
    + split; [|done]. intros _. apply map_size_empty_inv. lia.
  - intros latest. case_bool_decide as Hpos; [|done].
    destruct (session_values cs) as [|s sessions] eqn:Hvalues;
      [simpl in Hpos; lia|].
    destruct (Hmax s) as (latest' & -> & Hin & _); [by left|].
    intros [= <-].
    apply list_elem_of_fmap in Hin as (o & -> & Ho).
    rewrite <-Hvalues in Ho. apply elem_of_session_values in Ho as [i Hi].
    by exists i, o.
  - intros sessionId o Ho.
    assert (Hin : o ∈ session_values cs)
      by (apply elem_of_session_values; by exists sessionId).
    split; [by apply foldl_messages_ge|].
    rewrite bool_decide_eq_true_2.
    + destruct (Hmax o Hin) as (latest & -> & _ & Hle).
      exists latest. split; [done|]. by apply Hle.
    + destruct (session_values cs); [by apply not_elem_of_nil in Hin|].
      simpl. lia.
Qed.

Lemma getChatStats_counts_witness :
  well_formed two_sessions
  ∧ totalSessions (getChatStats two_sessions) = base.size (chatSessions two_sessions)
  ∧ activeSessions (getChatStats two_sessions)
    ≤ totalSessions (getChatStats two_sessions)
  ∧ (stats_lastActivity (getChatStats two_sessions) = None
     ↔ chatSessions two_sessions = ∅)
  ∧ (∀ latest, stats_lastActivity (getChatStats two_sessions) = Some latest →
       ∃ sessionId o,
         stored two_sessions sessionId = Some o ∧ lastActivity o = latest)
  ∧ ∀ sessionId o, stored two_sessions sessionId = Some o →
      length (messages o) ≤ totalMessages (getChatStats two_sessions)
      ∧ ∃ latest, stats_lastActivity (getChatStats two_sessions) = Some latest
                  ∧ (lastActivity o ≤ latest)%Z.
Proof.
  split; [exact well_formed_two_sessions|].
  exact (getChatStats_counts two_sessions well_formed_two_sessions).
Defined.

(** X10. A session that has just been created is exported under the id
    that was returned: with the user and the creation time it was given,
    no message, active, not ended.  Its metadata holds every entry the
    caller passed, and for the keys [userAgent], [ip] and [source] that
    the caller did not pass the defaults [''], [''] and ['web']. *)
Theorem createChatSession_then_export
    (userId : option string) (metadata : gmap string string) (uuid : string)
    (now1 now2 : Z) (cs : ChatService.t) :
  ∃ cs1 created exported,
    createChatSession userId metadata uuid now1 now2 cs = (cs1, Ok created)
    ∧ exportSessionData cs1 (created_sessionId created) = Some exported
    ∧ exp_sessionId exported = uuid
    ∧ exp_userId exported = userId
    ∧ exp_createdAt exported = now1
    ∧ exp_endedAt exported = None
    ∧ exp_isActive exported = true
    ∧ exp_messages exported = []
    ∧ (∀ key value, metadata !! key = Some value →
         exp_metadata exported !! key = Some value)
    ∧ (∀ key, metadata !! key = None →
         exp_metadata exported !! key
         = if bool_decide (key = "userAgent" ∨ key = "ip") then Some ""
           else if bool_decide (key = "source") then Some "web"
           else None).
Proof.
  unfold createChatSession, exportSessionData, stored.
  eexists _, _, _. split; [reflexivity|].
  cbn [created_sessionId chatSessions objects].
  rewrite lookup_insert_eq. simpl. rewrite lookup_insert_eq.
  split; [reflexivity|]. cbn [exp_sessionId exp_userId exp_createdAt
    exp_endedAt exp_isActive exp_messages exp_metadata sid ChatService.userId
    createdAt endedAt isActive messages session_metadata].
  do 6 (split; [done|]). split.
  - intros key value Hkey. by apply lookup_union_Some_l.
  - intros key Hkey. rewrite lookup_union_r by done.
    destruct (decide (key = "userAgent")) as [->|H1]; [done|].
    rewrite lookup_insert_ne by done.
    destruct (decide (key = "ip")) as [->|H2]; [done|].
    rewrite lookup_insert_ne by done.
    rewrite bool_decide_eq_false_2 by (by intros [?|?]).
    destruct (decide (key = "source")) as [->|H3]; [done|].
    rewrite lookup_singleton_ne by done.
    by rewrite bool_decide_eq_false_2.
Qed.

(** ** The chat routes and the error handler *)

(** X11. [POST /api/chat/message] answers 404 with the session-not-found
    message when the session is missing or has expired: no session object
    is changed and none is created under the requested id.  A request that
    fails validation is answered 400 before the service is called, so the
    store stays as it was. *)
Theorem post_message_unknown_session
    (JSON_parse : jsstring → Result (option Intent))
    (vectorDB : VectorDatabase.t)
    (sessionId : string) (message : jsstring) (maxResults : option nat)
    (env : ChatService.Env) (cs : ChatService.t) :
  (∀ session o, ¬ reachable cs sessionId (t_get env) session o) →
  (∃ cs',
     Routes.post_message JSON_parse vectorDB true sessionId message
                         maxResults env cs
     = (cs', Routes.Refused 404 "Sesión de chat no encontrada")
     ∧ objects cs' = objects cs
     ∧ stored cs' sessionId = None)
  ∧ Routes.post_message JSON_parse vectorDB false sessionId message
                        maxResults env cs
    = (cs, Routes.Refused 400 "Datos de entrada inválidos").
Proof.
  intros Hnot. split; [|done]. unfold Routes.post_message. cbn [negb].
  unfold processMessage. unfold mbind at 1, SE_bind.
  unfold getSession, stored.
  destruct (chatSessions cs !! sessionId) as [session|] eqn:Hs.
  - destruct (objects cs !! session) as [o|] eqn:Ho.
    + case_bool_decide as Hexp.
      * eexists. split; [reflexivity|]. cbn [objects chatSessions].
        split; [done|]. by rewrite lookup_delete_eq.
      * destruct (Hnot session o). split; [done|split; [done|lia]].
    + eexists. split; [reflexivity|]. by rewrite Hs; simpl.
  - eexists. split; [reflexivity|]. by rewrite Hs.
Qed.

Lemma post_message_unknown_session_witness :
  (∀ session o, ¬ reachable two_sessions "s-alice" (t_get bob_env) session o)
  ∧ (∃ cs',
       Routes.post_message parse_general ready_db true "s-alice"
                           (units "hola") None bob_env two_sessions
       = (cs', Routes.Refused 404 "Sesión de chat no encontrada")
       ∧ objects cs' = objects two_sessions
       ∧ stored cs' "s-alice" = None)
  ∧ Routes.post_message parse_general ready_db false "s-alice"
                        (units "hola") None bob_env two_sessions
    = (two_sessions, Routes.Refused 400 "Datos de entrada inválidos").
Proof.
  assert (Hnot : ∀ session o,
            ¬ reachable two_sessions "s-alice" (t_get bob_env) session o).
  { intros session o (Hs & Ho & Hlive).
    vm_compute in Hs. injection Hs as <-.
    vm_compute in Ho. injection Ho as <-.
    vm_compute in Hlive. by apply Hlive. }
  split; [exact Hnot|].
  exact (post_message_unknown_session parse_general ready_db "s-alice"
           (units "hola") None bob_env two_sessions Hnot).
Defined.

(** What the route does with an error of [processMessage] whose message
    is not the session-not-found one. *)
Lemma post_message_hands_over JSON_parse vectorDB sessionId message
    maxResults env cs cs' e :
  processMessage JSON_parse vectorDB sessionId message
                 (Some (default 5 maxResults)) env cs = (cs', Throw e) →
  OpenAIService.message e ≠ "Sesión de chat no encontrada" →
  Routes.post_message JSON_parse vectorDB true sessionId message maxResults
                      env cs
  = (cs', Routes.Next e).
Proof.
  intros Hrun Hne. unfold Routes.post_message. cbn [negb]. rewrite Hrun.
  by rewrite bool_decide_eq_false_2.
Qed.

(** X12. When the embedding call of the query is rejected, a valid
    [POST /api/chat/message] for a session that [getSession] finds, with
    a classifier output that is not [null], hands over to the error
    handler an error whose message is the provider's message after
    ['Error generando embedding: '], and the error handler answers 503,
    with one of its two service-unavailable messages. *)
Theorem post_message_embedding_failure
    (JSON_parse : jsstring → Result (option Intent))
    (vectorDB : VectorDatabase.t)
    (sessionId : string) (message : jsstring) (maxResults : option nat)
    (env : ChatService.Env) (cs : ChatService.t) (session : ref)
    (o : Session) (e : Error) (development : bool) (stack : option string) :
  reachable cs sessionId (t_get env) session o →
  (∀ output, classification env = Ok (Some output) →
     JSON_parse (trim output) ≠ Ok None) →
  query_embedding env = Throw e →
  ∃ cs' error body,
    Routes.post_message JSON_parse vectorDB true sessionId message
                        maxResults env cs
    = (cs', Routes.Next error)
    ∧ OpenAIService.message error
      = "Error generando embedding: " +:+ OpenAIService.message e
    ∧ ErrorHandler.errorHandler development
        (ErrorHandler.plain_error error stack) = Ok body
    ∧ ErrorHandler.status body = 503
    ∧ (ErrorHandler.body_message body
       = "Error en el servicio de inteligencia artificial. Por favor intenta de nuevo."
       ∨ ErrorHandler.body_message body
         = "Error en la base de datos. Por favor intenta de nuevo.").
Proof.
  intros Hreach Hparse Hemb.
  pose proof (processMessage_run JSON_parse vectorDB sessionId message
                (Some (default 5 maxResults)) env cs session o Hreach) as Hrun.
  destruct (classifyIntent_not_null JSON_parse message (classification env)
              Hparse) as [intent Hintent].
  rewrite Hintent, searchDocuments_eq, Hemb in Hrun.
  destruct e as [msg]. cbn [OpenAIService.message] in *.
  assert (ErrorHandler.includes ("Error generando embedding: " +:+ msg)
                                "embedding" = true) as Hinc
    by (vm_compute; reflexivity).
  set (wrapped := "Error generando embedding: " +:+ msg) in *.
  assert (Hroute : Routes.post_message JSON_parse vectorDB true sessionId
                     message maxResults env cs
                   = (touched env session cs, Routes.Next (Err wrapped))).
  { by apply (post_message_hands_over _ _ _ _ _ _ _ _ _ Hrun). }
  assert (Hname : ∀ other : string,
            other ≠ "Error" →
            bool_decide (ErrorHandler.name
                           (ErrorHandler.plain_error (Err wrapped) stack)
                         = other) = false).
  { intros other Hother. apply bool_decide_eq_false_2. cbn. congruence. }
  exists (touched env session cs), (Err wrapped).
  destruct (ErrorHandler.includes wrapped "Pinecone"
            || ErrorHandler.includes wrapped "vector") eqn:Hdb;
    eexists; (split; [exact Hroute|]); (split; [reflexivity|]);
    unfold ErrorHandler.errorHandler;
    rewrite !Hname by done;
    cbn [ErrorHandler.name ErrorHandler.code ErrorHandler.message
         ErrorHandler.errors ErrorHandler.stack ErrorHandler.plain_error
         OpenAIService.message mbind Result_bind Js.bind];
    fold wrapped; rewrite Hinc, Hdb, orb_true_r;
    rewrite !bool_decide_eq_false_2 by (intros ?; intuition discriminate);
    (split; [reflexivity|]); (split; [reflexivity|]); [by right|by left].
Qed.

Lemma post_message_embedding_failure_witness :
  (reachable two_sessions "s-bob" (t_get bob_env_no_embedding) 1 bob_session
   ∧ (∀ output, classification bob_env_no_embedding = Ok (Some output) →
        parse_general (trim output) ≠ Ok None)
   ∧ query_embedding bob_env_no_embedding = Throw (Err "429 quota exceeded"))
  ∧ ∃ cs' error body,
      Routes.post_message parse_general ready_db true "s-bob"
                          (units "horarios?") None bob_env_no_embedding
                          two_sessions
      = (cs', Routes.Next error)
      ∧ OpenAIService.message error
        = "Error generando embedding: "
          +:+ OpenAIService.message (Err "429 quota exceeded")
      ∧ ErrorHandler.errorHandler false
          (ErrorHandler.plain_error error None) = Ok body
      ∧ ErrorHandler.status body = 503
      ∧ (ErrorHandler.body_message body
         = "Error en el servicio de inteligencia artificial. Por favor intenta de nuevo."
         ∨ ErrorHandler.body_message body
           = "Error en la base de datos. Por favor intenta de nuevo.").
Proof.
  split; [split; [exact bob_reachable|split; [|reflexivity]]|].
  { intros output _. exact (parse_general_not_null (trim output)). }
  exact (post_message_embedding_failure parse_general ready_db "s-bob"
           (units "horarios?") None bob_env_no_embedding two_sessions 1
           bob_session (Err "429 quota exceeded") false None bob_reachable
           (λ output _, parse_general_not_null (trim output)) eq_refl).
Defined.

(** X13. When the vector database is not initialised, a valid
    [POST /api/chat/message] for a session that [getSession] finds, with
    a classifier output that is not [null] and a query that was embedded,
    hands over the not-initialised error of [queryVectors], and the error
    handler answers it with the default 500: the message, which begins
    with a capital [Vector], matches none of its rules. *)
Theorem post_message_database_not_initialized
    (JSON_parse : jsstring → Result (option Intent))
    (vectorDB : VectorDatabase.t)
    (sessionId : string) (message : jsstring) (maxResults : option nat)
    (env : ChatService.Env) (cs : ChatService.t) (session : ref)
    (o : Session) (embedding : Embedding) (rest : list Embedding)
    (development : bool) (stack : option string) :
  reachable cs sessionId (t_get env) session o →
  (∀ output, classification env = Ok (Some output) →
     JSON_parse (trim output) ≠ Ok None) →
  query_embedding env = Ok (embedding :: rest) →
  initialized vectorDB = false ∨ index vectorDB = false →
  ∃ cs' body,
    Routes.post_message JSON_parse vectorDB true sessionId message
                        maxResults env cs
    = (cs', Routes.Next not_initialized)
    ∧ ErrorHandler.errorHandler development
        (ErrorHandler.plain_error not_initialized stack) = Ok body
    ∧ ErrorHandler.status body = 500
    ∧ ErrorHandler.body_message body = "Error interno del servidor"
    ∧ ErrorHandler.details body = None.
Proof.
  intros Hreach Hparse Hemb Hdb.
  pose proof (processMessage_run JSON_parse vectorDB sessionId message
                (Some (default 5 maxResults)) env cs session o Hreach) as Hrun.
  destruct (classifyIntent_not_null JSON_parse message (classification env)
              Hparse) as [intent Hintent].
  rewrite Hintent, searchDocuments_eq, Hemb in Hrun.
  assert (negb (initialized vectorDB) || negb (index vectorDB) = true) as Hnot.
  { destruct Hdb as [-> | ->]; [done|]. apply orb_true_r. }
  rewrite Hnot in Hrun.
  eexists _, _. split.
  { by apply (post_message_hands_over _ _ _ _ _ _ _ _ _ Hrun). }
  split; [reflexivity|]. by vm_compute.
Qed.

Lemma post_message_database_not_initialized_witness :
  (reachable two_sessions "s-bob" (t_get bob_env) 1 bob_session
   ∧ (∀ output, classification bob_env = Ok (Some output) →
        parse_general (trim output) ≠ Ok None)
   ∧ query_embedding bob_env = Ok [[dec 1 10]]
   ∧ (initialized VectorDatabase.constructor = false
      ∨ index VectorDatabase.constructor = false))
  ∧ ∃ cs' body,
      Routes.post_message parse_general VectorDatabase.constructor true
                          "s-bob" (units "horarios?") None bob_env
                          two_sessions
      = (cs', Routes.Next not_initialized)
      ∧ ErrorHandler.errorHandler true
          (ErrorHandler.plain_error not_initialized None) = Ok body
      ∧ ErrorHandler.status body = 500
      ∧ ErrorHandler.body_message body = "Error interno del servidor"
      ∧ ErrorHandler.details body = None.
Proof.
  split; [split; [exact bob_reachable|split; [|split; [reflexivity|by left]]]|].
  { intros output _. exact (parse_general_not_null (trim output)). }
  exact (post_message_database_not_initialized parse_general
           VectorDatabase.constructor "s-bob" (units "horarios?") None
           bob_env two_sessions 1 bob_session [dec 1 10] [] true None
           bob_reachable (λ output _, parse_general_not_null (trim output))
           eq_refl (or_introl eq_refl)).
Defined.

(** X14. What [GET /api/chat/sessions] lists.  Every listed session is one
    that [getActiveSessions] lists; its active flag is true exactly when
    the request carries [active=true], so that without the parameter, as
    with [active=false], only ended sessions are listed; a user who is
    not an administrator is only shown sessions of their own; and at most
    [limit] sessions are listed, 50 when no limit is given. *)
Theorem get_sessions_filters
    (user : Routes.User) (limit : option nat) (active : option string)
    (now : string → Z) (order : list string) (cs : ChatService.t)
    (a : ActiveSession) :
  a ∈ Routes.get_sessions user limit active now order cs →
  a ∈ getActiveSessions now order cs
  ∧ (as_isActive a = true ↔ active = Some "true")
  ∧ (Routes.user_role user ≠ "admin" →
     as_userId a = Some (Routes.user_id user))
  ∧ length (Routes.get_sessions user limit active now order cs)
    ≤ default 50 limit.
Proof.
  unfold Routes.get_sessions. intros Hin.
  split; [|split; [|split]].
  - apply (subseteq_take _ _) in Hin.
    apply list_elem_of_filter in Hin as [_ Hin].
    case_bool_decide; [|done]. by apply list_elem_of_filter in Hin as [_ Hin].
  - apply (subseteq_take _ _) in Hin.
    apply list_elem_of_filter in Hin as [-> _].
    split; [by intros ?%bool_decide_eq_true_1|by intros ?; apply bool_decide_eq_true_2].
  - intros Hrole. apply (subseteq_take _ _) in Hin.
    apply list_elem_of_filter in Hin as [_ Hin].
    rewrite bool_decide_eq_true_2 in Hin by done.
    by apply list_elem_of_filter in Hin as [Hin _].
  - rewrite length_take. lia.
Qed.

Lemma get_sessions_filters_witness :
  bob_listed ∈ Routes.get_sessions bob_user None (Some "true")
                 (λ _, 4200000%Z) ["s-alice"; "s-bob"] two_sessions
  ∧ bob_listed ∈ getActiveSessions (λ _, 4200000%Z) ["s-alice"; "s-bob"]
                                   two_sessions
  ∧ (as_isActive bob_listed = true ↔ Some "true" = Some "true")
  ∧ (Routes.user_role bob_user ≠ "admin" →
     as_userId bob_listed = Some (Routes.user_id bob_user))
  ∧ length (Routes.get_sessions bob_user None (Some "true")
              (λ _, 4200000%Z) ["s-alice"; "s-bob"] two_sessions)
    ≤ default 50 None.
Proof.
  assert (Hin : bob_listed ∈ Routes.get_sessions bob_user None (Some "true")
                               (λ _, 4200000%Z) ["s-alice"; "s-bob"]
                               two_sessions).
  { assert (Routes.get_sessions bob_user None (Some "true")
              (λ _, 4200000%Z) ["s-alice"; "s-bob"] two_sessions
            = [bob_listed]) as ->
      by (vm_compute; reflexivity).
    by left. }
  split; [exact Hin|].
  exact (get_sessions_filters bob_user None (Some "true") (λ _, 4200000%Z)
           ["s-alice"; "s-bob"] two_sessions bob_listed Hin).
Defined.

(** ** Chunking: short texts, characters of the chunks *)

Lemma length_trim_le (s : jsstring) : length (trim s) ≤ length s.
Proof.
  unfold trim. rewrite length_rev.
  etrans; [apply suffix_length, drop_while_suffix|]. rewrite length_rev.
  apply suffix_length, drop_while_suffix.
Qed.

(** The characters of a list of pieces, counting one separator after
    each piece. *)
Lemma weight_app (a b : list jsstring) :
  sum_list (length <$> (a ++ b))
  = sum_list (length <$> a) + sum_list (length <$> b).
Proof. induction a as [|w a IH]; csimpl in *; lia. Qed.

Lemma length_join_spaces (ws : list jsstring) :
  ws ≠ [] →
  length (join [DocumentService.space] ws) + 1
  = sum_list (length <$> ws) + length ws.
Proof.
  induction ws as [|w ws IH]; [done|]. intros _.
  destruct (decide (ws = [])) as [->|Hne]; [simpl; lia|].
  rewrite join_cons by done. rewrite !length_app. specialize (IH Hne).
  csimpl in *. lia.
Qed.

Lemma weight_trim (ss : list jsstring) :
  sum_list (length <$> (trim <$> ss)) ≤ sum_list (length <$> ss).
Proof.
  induction ss as [|s ss IH]; csimpl in *; [done|].
  pose proof (length_trim_le s). lia.
Qed.

Lemma weight_filter (P : jsstring → Prop) `{!∀ s, Decision (P s)}
    (ps : list jsstring) :
  sum_list (length <$> filter P ps) + length (filter P ps)
  ≤ sum_list (length <$> ps) + length ps.
Proof.
  induction ps as [|p ps IH]; [done|].
  destruct (decide (P p)).
  - rewrite filter_cons_True by done. csimpl in *. lia.
  - rewrite filter_cons_False by done. csimpl in *. lia.
Qed.

Lemma weight_split_runs (sep : N → bool) (in_run : bool) (cur s : jsstring) :
  sum_list (length <$> split_runs sep in_run cur s)
  + length (split_runs sep in_run cur s)
  ≤ length cur + length s + 1.
Proof.
  revert in_run cur. induction s as [|c s IH]; intros in_run cur;
    cbn [split_runs].
  - csimpl. lia.
  - destruct (sep c).
    + destruct in_run.
      * specialize (IH true []). csimpl in *. lia.
      * specialize (IH true []). csimpl in *. lia.
    + specialize (IH false (cur ++ [c])). rewrite length_app in IH.
      csimpl in *. lia.
Qed.

Lemma length_body_app (a b : list jsstring) :
  length (body a) ≤ length (body (a ++ b)).
Proof.
  unfold body. destruct (decide (a = [])) as [->|Ha]; [simpl; lia|].
  assert (H1 := length_join_spaces (trim <$> a) ltac:(by destruct a)).
  assert (H2 := length_join_spaces (trim <$> (a ++ b)) ltac:(by destruct a)).
  rewrite fmap_app, weight_app, length_app in H2.
  rewrite fmap_app. lia.
Qed.

Lemma length_body_sentences (text : jsstring) :
  length (body (sentences text)) ≤ length text.
Proof.
  destruct (decide (sentences text = [])) as [->|Hne]; [simpl; lia|].
  assert (H1 := length_join_spaces (trim <$> sentences text)
                  ltac:(by destruct (sentences text))).
  pose proof (weight_trim (sentences text)) as H2.
  pose proof (weight_filter (λ sentence, 0 < length (trim sentence))
                (split_runs is_terminator false [] text)) as H3.
  pose proof (weight_split_runs is_terminator false [] text) as H4.
  fold (sentences text) in H3. unfold body.
  rewrite length_fmap in H1. simpl in H4. lia.
Qed.

Lemma body_nonempty (ss : list jsstring) :
  ss ≠ [] → Forall (λ sentence, trim sentence ≠ []) ss → body ss ≠ [].
Proof.
  destruct ss as [|s ss]; [done|]. intros _ [Hs _]%Forall_cons.
  destruct (join_elem [DocumentService.space] (trim s) (trim <$> s :: ss))
    as (l & r & Heq); [by left|].
  unfold body. rewrite Heq. destruct l; [|done]. by destruct (trim s).
Qed.

(** As long as the sentences read so far, joined, fit in [chunkSize], the
    loop of [createChunks] closes no chunk. *)
Lemma foldl_add_sentence_short (done todo : list jsstring) :
  Forall (λ sentence, trim sentence ≠ []) (done ++ todo) →
  length (body (done ++ todo)) ≤ chunkSize →
  foldl add_sentence
        {| chunks := []; currentChunk := body done;
           currentLength := length (body done) |} todo
  = {| chunks := []; currentChunk := body (done ++ todo);
       currentLength := length (body (done ++ todo)) |}.
Proof.
  revert done. induction todo as [|s todo IH]; intros done Hall Hlen.
  { by rewrite app_nil_r. }
  cbn [foldl]. rewrite (cons_middle s), (assoc_L (++)) in Hall, Hlen |- *.
  rewrite <-(IH (done ++ [s]) Hall Hlen). f_equal.
  pose proof (length_body_app (done ++ [s]) todo) as Hmono.
  unfold add_sentence. cbn [chunks currentChunk currentLength].
  destruct (decide (done = [])) as [->|Hne].
  - change (body []) with (@nil N). cbn [length].
    rewrite (bool_decide_eq_false_2 (0 < 0)) by lia.
    rewrite andb_false_r. rewrite bool_decide_eq_false_2 by (by intros ?).
    done.
  - rewrite body_snoc in Hmono |- * by done.
    rewrite !length_app in Hmono. simpl in Hmono.
    rewrite bool_decide_eq_false_2 by lia. cbn [andb].
    rewrite bool_decide_eq_true_2; [done|].
    apply body_nonempty; [done|].
    apply Forall_app in Hall as [Hall _]. by apply Forall_app in Hall as [Hall _].
Qed.

(** X15. A text of at most [chunkSize] characters is never cut: the
    result is the single chunk made of all its sentences, trimmed and
    joined by single spaces, when that chunk has more than 50 characters,
    and no chunk at all otherwise.  The chunk is no longer than the text,
    so that a text of at most 50 characters yields no chunk. *)
Theorem createChunks_short_text (text : jsstring) :
  length text ≤ chunkSize →
  createChunks text
  = (if bool_decide (50 < length (body (sentences text)))
     then [body (sentences text)] else [])
  ∧ length (body (sentences text)) ≤ length text
  ∧ (length text ≤ 50 → createChunks text = []).
Proof.
  intros Hshort. pose proof (length_body_sentences text) as Hbody.
  assert (Hchunks : createChunks text
            = if bool_decide (50 < length (body (sentences text)))
              then [body (sentences text)] else []).
  { destruct (closedChunks_chunked text) as (blocks & Hconcat & Hlen & Hall).
    unfold createChunks. revert Hlen Hall. unfold closedChunks.
    change {| chunks := []; currentChunk := []; currentLength := 0 |}
      with {| chunks := []; currentChunk := body [];
              currentLength := length (body []) |}.
    rewrite (foldl_add_sentence_short [] (sentences text));
      [|apply sentences_not_blank|simpl; lia].
    cbn [app chunks currentChunk].
    case_bool_decide as Hpos; intros Hlen Hall.
    - destruct blocks as [|block [|? ?]]; [done| |done].
      simpl in Hconcat. rewrite app_nil_r in Hconcat. subst block.
      destruct (Hall 0 (sentences text) (trim (body (sentences text))))
        as [_ ->]; [done..|].
      rewrite filter_cons, filter_nil. by destruct (decide _);
        [rewrite bool_decide_eq_true_2|rewrite bool_decide_eq_false_2].
    - destruct blocks; [|done]. simpl in Hconcat. rewrite <-Hconcat.
      by rewrite bool_decide_eq_false_2 by (simpl; lia). }
  split; [exact Hchunks|]. split; [exact Hbody|].
  intros Htiny. rewrite Hchunks. rewrite bool_decide_eq_false_2; [done|lia].
Qed.

Lemma createChunks_short_text_witness :
  length faq_text ≤ chunkSize
  ∧ createChunks faq_text
    = (if bool_decide (50 < length (body (sentences faq_text)))
       then [body (sentences faq_text)] else [])
  ∧ length (body (sentences faq_text)) ≤ length faq_text
  ∧ (length faq_text ≤ 50 → createChunks faq_text = []).
Proof.
  assert (Hshort : length faq_text ≤ chunkSize) by (vm_compute; lia).
  split; [exact Hshort|]. exact (createChunks_short_text faq_text Hshort).
Defined.

Section characters.
(** A property of code units that holds of the space. *)
Variable P : N → Prop.
Hypothesis P_space : P DocumentService.space.

Lemma Forall_suffix (l k : jsstring) :
  l `suffix_of` k → Forall P k → Forall P l.
Proof. intros [m ->] Hk. by apply Forall_app in Hk as [_ ?]. Qed.

Lemma Forall_trim (s : jsstring) : Forall P s → Forall P (trim s).
Proof.
  intros Hs. unfold trim. apply Forall_rev.
  eapply Forall_suffix; [apply drop_while_suffix|]. apply Forall_rev.
  eapply Forall_suffix; [apply drop_while_suffix|done].
Qed.

Lemma Forall_overlap (cur : jsstring) :
  Forall P cur →
  Forall P (join [DocumentService.space]
              (slice (- Z.of_nat (chunkOverlap / 6))
                     (split_at DocumentService.space cur))).
Proof.
  intros Hcur. rewrite slice_last by (unfold chunkOverlap; simpl; lia).
  eapply Forall_suffix; [apply join_drop_suffix|].
  by rewrite join_split_at.
Qed.

Lemma add_sentence_characters (st : Acc) (sentence : jsstring) :
  Forall P sentence →
  Forall (λ chunk, trim chunk = chunk ∧ Forall P chunk) (chunks st)
  ∧ Forall P (currentChunk st) →
  Forall (λ chunk, trim chunk = chunk ∧ Forall P chunk)
         (chunks (add_sentence st sentence))
  ∧ Forall P (currentChunk (add_sentence st sentence)).
Proof using P_space.
  intros Hs [Hchunks Hcur]. unfold add_sentence.
  destruct (bool_decide _ && bool_decide _); cbn [chunks currentChunk].
  - split.
    + apply Forall_app. split; [done|]. apply Forall_singleton.
      split; [apply trim_trim|by apply Forall_trim].
    + apply Forall_app. split; [by apply Forall_overlap|].
      apply Forall_app. split; [by apply Forall_singleton|].
      by apply Forall_trim.
  - split; [done|]. apply Forall_app. split; [done|].
    apply Forall_app. split; [|by apply Forall_trim].
    case_bool_decide; [by apply Forall_singleton|done].
Qed.

Lemma closedChunks_characters (text : jsstring) :
  Forall (Forall P) (sentences text) →
  Forall (λ chunk, trim chunk = chunk ∧ Forall P chunk) (closedChunks text).
Proof using P_space.
  intros Hsentences. unfold closedChunks.
  set (init := {| chunks := []; currentChunk := []; currentLength := 0 |}).
  assert (Hinv : Forall (λ chunk, trim chunk = chunk ∧ Forall P chunk)
                        (chunks init)
                 ∧ Forall P (currentChunk init)) by by split.
  revert Hinv. generalize init. clear init.
  induction Hsentences as [|s ss Hs _ IH]; intros st Hinv; cbn [foldl].
  - destruct Hinv as [Hchunks Hcur]. case_bool_decide; [|done].
    apply Forall_app. split; [done|]. apply Forall_singleton.
    split; [apply trim_trim|by apply Forall_trim].
  - apply IH. by apply add_sentence_characters.
Qed.
End characters.

Lemma elem_of_concat_2 {A} (x : A) (l : list A) (ls : list (list A)) :
  l ∈ ls → x ∈ l → x ∈ concat ls.
Proof.
  induction ls as [|k ls IH]; [by intros ?%not_elem_of_nil|].
  intros [->|Hin]%elem_of_cons Hx; simpl; apply elem_of_app; [by left|].
  right. by apply IH.
Qed.

(** X16. Every chunk returned by [createChunks] is trimmed, and is made
    of characters of the text and of spaces only, none of which is one of
    the terminators [. ! ?]: the punctuation that ends the sentences is
    not part of the chunks. *)
Theorem createChunks_characters (text : jsstring) :
  Forall (λ chunk,
            trim chunk = chunk
            ∧ Forall (λ c, is_terminator c = false
                           ∧ (c ∈ text ∨ c = DocumentService.space)) chunk)
         (createChunks text).
Proof.
  unfold createChunks. apply Forall_forall.
  intros chunk [_ Hin]%list_elem_of_filter. revert chunk Hin.
  apply Forall_forall.
  apply closedChunks_characters; [split; [done|by right]|].
  apply Forall_forall. intros s [_ Hs]%list_elem_of_filter.
  apply Forall_forall. intros c Hc.
  pose proof (elem_of_concat_2 c s _ Hs Hc) as Hin.
  rewrite concat_split_runs in Hin by done. simpl in Hin.
  apply list_elem_of_filter in Hin as [Hterm Hin]. split; [done|by left].
Qed.

(** X17. [createChunks] returns at most as many chunks as the text has
    sentences, and none for a text without a sentence (empty, blank, or
    made of terminators and white space only). *)
Theorem createChunks_count (text : jsstring) :
  length (createChunks text) ≤ length (sentences text)
  ∧ (Forall (λ c, is_terminator c = true ∨ is_whitespace c = true) text →
     createChunks text = []).
Proof.
  assert (Hcount : length (createChunks text) ≤ length (sentences text)).
  { destruct (closedChunks_chunked text) as (blocks & Hconcat & Hlen & Hall).
    unfold createChunks. etrans; [apply length_filter|].
    rewrite <-Hlen, <-Hconcat.
    assert (Hne : Forall (λ block, block ≠ []) blocks).
    { apply Forall_forall. intros block [i Hi]%list_elem_of_lookup.
      destruct (lookup_lt_is_Some_2 (closedChunks text) i) as [chunk Hc].
      { rewrite <-Hlen. by eapply lookup_lt_Some. }
      by destruct (Hall i block chunk Hi Hc). }
    clear -Hne. induction Hne as [|block blocks Hb _ IH]; [done|].
    simpl. rewrite length_app. destruct block; [done|]. simpl. lia. }
  split; [exact Hcount|]. intros Hblank.
  assert (Hnone : sentences text = []).
  { unfold sentences.
    assert (Hpieces : Forall (λ piece, trim piece = [])
                        (split_runs is_terminator false [] text)).
    { apply Forall_forall. intros piece Hpiece.
      assert (Hwhite : Forall (λ c, is_whitespace c = true) piece).
      { apply Forall_forall. intros c Hc.
        pose proof (elem_of_concat_2 c piece _ Hpiece Hc) as Hin.
        rewrite concat_split_runs in Hin by done. simpl in Hin.
        apply list_elem_of_filter in Hin as [Hterm Hin].
        rewrite Forall_forall in Hblank.
        destruct (Hblank c Hin) as [Ht|Hw]; [congruence|done]. }
      unfold trim.
      assert (drop_while is_whitespace piece = []) as ->; [|done].
      clear -Hwhite. induction Hwhite as [|c piece Hc _ IH]; [done|].
      simpl. by rewrite Hc. }
    induction Hpieces as [|piece pieces Hp _ IH]; [done|].
    rewrite filter_cons_False; [done|]. rewrite Hp. simpl. lia. }
  destruct (createChunks text); [done|]. rewrite Hnone in Hcount.
  simpl in Hcount. lia.
Qed.

(** ** Retrieval: failures *)

(** X18. [searchDocuments] succeeds exactly when the embedding call
    returns an embedding, the vector database is initialised and the index
    answers.  When the embedding call is rejected it throws the provider's
    message after ['Error generando embedding: '], whatever the state of
    the database; when the database is not initialised it throws the
    not-initialised error; an error of the index query is thrown as it
    is; an answer of the index without matches is the empty result. *)
Theorem searchDocuments_outcomes
    (db : VectorDatabase.t) (query : jsstring) (options : SearchOptions)
    (created : Result (list Embedding))
    (answer : Result (option (list Match))) :
  ((∃ docs, searchDocuments db query options created answer = Ok docs)
   ↔ (∃ embedding rest, created = Ok (embedding :: rest))
     ∧ initialized db = true ∧ index db = true
     ∧ ∃ matches, answer = Ok matches)
  ∧ (∀ e, created = Throw e →
       searchDocuments db query options created answer
       = Throw (Err ("Error generando embedding: " +:+ message e)))
  ∧ (∀ embedding rest,
       created = Ok (embedding :: rest) →
       (initialized db = false ∨ index db = false →
        searchDocuments db query options created answer
        = Throw not_initialized)
       ∧ (initialized db = true → index db = true →
          (∀ e, answer = Throw e →
             searchDocuments db query options created answer = Throw e)
          ∧ (answer = Ok None →
             searchDocuments db query options created answer = Ok []))).
Proof.
  rewrite searchDocuments_eq. split; [|split].
  - destruct created as [[|emb rest]|e].
    + split; [by intros [? [=]]|by intros [(? & ? & [=]) _]].
    + destruct (initialized db), (index db); simpl;
        try (split; [by intros [? [=]]|by intros (_ & ? & ? & _)]).
      destruct answer as [matches|e].
      * split; [|by eexists]. intros _. repeat split; by eauto.
      * split; [by intros [? [=]]|by intros (_ & _ & _ & ? & [=])].
    + split; [by intros [? [=]]|by intros [(? & ? & [=]) _]].
  - by intros e ->.
  - intros emb rest ->. split.
    + by intros [-> | ->]; [|rewrite orb_true_r].
    + intros -> ->. simpl. split; [by intros e ->|by intros ->].
Qed.

(** ** Ingestion: ids, effects, failures *)

(** X19. The entries that [generateVectorData] makes are as many as the
    chunks, whatever the number of embeddings the provider returned;
    their ids are pairwise distinct; entry [i] carries chunk [i], its
    index and its length, and the embedding [i] of the provider's answer,
    or no values when the answer is shorter than that. *)
Theorem generateVectorData_entries
    (chunks : list jsstring) (file : File) (metadata : UploadMetadata)
    (created : Result (list Embedding)) (uuid : string) (now : nat → Z)
    (vectors : list Vector) :
  generateVectorData chunks file metadata created uuid now = Ok vectors →
  length vectors = length chunks
  ∧ NoDup (VectorDatabase.id <$> vectors)
  ∧ ∃ embeddings,
      created = Ok embeddings
      ∧ ∀ i v, vectors !! i = Some v →
          chunks !! i = Some (text (VectorDatabase.metadata v))
          ∧ chunkIndex (VectorDatabase.metadata v) = i
          ∧ VectorDatabase.chunkSize (VectorDatabase.metadata v)
            = length (text (VectorDatabase.metadata v))
          ∧ values v = embeddings !! i.
Proof.
  unfold generateVectorData, generateBatchEmbeddings.
  destruct created as [embeddings|e]; simpl; [|done].
  intros [= <-]. split; [by rewrite length_imap|]. split.
  - apply NoDup_alt. intros i j x. rewrite !list_lookup_fmap, !list_lookup_imap.
    destruct (chunks !! i) as [ci|]; [|done].
    destruct (chunks !! j) as [cj|]; [|done]. simpl.
    intros [= <-] [= Heq].
    apply (inj (String.append _)) in Heq.
    apply (inj (String.append _)) in Heq. by apply (inj pretty) in Heq.
  - exists embeddings. split; [done|]. intros i v.
    rewrite list_lookup_imap.
    destruct (chunks !! i) as [chunk|]; simpl; [|done]. by intros [= <-].
Qed.

Lemma generateVectorData_entries_witness :
  ∃ vectors,
    generateVectorData (createChunks faq_text) faq_file no_metadata
                       (Ok [[dec 1 10; dec 2 10]]) "3f2c-1" (λ _, 1000%Z)
    = Ok vectors
    ∧ length vectors = length (createChunks faq_text)
    ∧ NoDup (VectorDatabase.id <$> vectors)
    ∧ ∃ embeddings,
        Ok [[dec 1 10; dec 2 10]] = Ok embeddings
        ∧ ∀ i v, vectors !! i = Some v →
            createChunks faq_text !! i
            = Some (text (VectorDatabase.metadata v))
            ∧ chunkIndex (VectorDatabase.metadata v) = i
            ∧ VectorDatabase.chunkSize (VectorDatabase.metadata v)
              = length (text (VectorDatabase.metadata v))
            ∧ values v = embeddings !! i.
Proof.
  eexists. split; [vm_compute; reflexivity|].
  eapply (generateVectorData_entries (createChunks faq_text) faq_file
            no_metadata (Ok [[dec 1 10; dec 2 10]]) "3f2c-1" (λ _, 1000%Z)).
  vm_compute. reflexivity.
Defined.

Section ingestion_effects.
Variable extension_of : string → string.

(** [processDocument], undone step by step, when it succeeds. *)
Lemma processDocument_Ok file metadata env w w' result :
  processDocument extension_of file metadata env w = (w', Ok result) →
  ∃ text vectors,
    extractText extension_of file (read env) = Ok (Some text)
    ∧ trim text ≠ []
    ∧ generateVectorData (createChunks text) file metadata (created env)
                         (uuid_vectors env) (uploaded env) = Ok vectors
    ∧ upsertVectors (db w) vectors (upsert_answer env) = Ok tt
    ∧ w' = {| files := if unlink_answer env is Ok _
                       then files w ∖ {[path file]} else files w;
              db := db w; upserted := upserted w ++ [vectors] |}
    ∧ result = {| result_documentId :=
                    or_string (md_documentId metadata) (uuid_result env);
                  result_filename := originalname file;
                  result_fileSize := DocumentService.size file;
                  chunksCreated := length (createChunks text);
                  DocumentService.status := "processed";
                  processedAt := processed env |}.
Proof.
  unfold processDocument.
  intros (w1 & text0 & H1 & H)%SE_bind_Ok.
  apply SE_lift_inv in H1 as [-> H1]. symmetry in H1.
  apply SE_bind_Ok in H as (w2 & text & H2 & H).
  assert (text0 = Some text ∧ trim text ≠ [] ∧ w2 = w) as (-> & Htext & ->).
  { unfold usable_text in H2. destruct text0 as [text1|]; [|done].
    case_bool_decide as Hblank; [done|]. injection H2 as <- <-.
    split; [done|]. split; [|done]. intros Hnil. apply Hblank. right.
    by rewrite Hnil. }
  apply SE_bind_Ok in H as (w3 & vectors & H3 & H).
  apply SE_lift_inv in H3 as [-> H3]. symmetry in H3.
  apply SE_bind_Ok in H as (w4 & [] & H4 & H).
  apply SE_bind_Ok in H as (w5 & [] & H5 & H).
  injection H as <- <-.
  exists text, vectors. do 3 (split; [done|]).
  unfold upsert, get_state, modify_state, lift, mbind, SE_bind in H4.
  destruct (upsertVectors (db w) vectors (upsert_answer env)) as [[]|e];
    [|done].
  injection H4 as <-. split; [done|]. split; [|done].
  unfold unlink_quietly in H5.
  destruct (unlink_answer env); by injection H5 as <-.
Qed.

(** X20. What a successful [processDocument] has done: the text was
    extracted and is not blank, the vector database is initialised and
    the index accepted one batch, which holds one entry per chunk and is
    the only thing added to the index; the temporary file is gone if
    [unlink] succeeded and is still there if it failed, which does not
    make the ingestion fail; the result reports the number of chunks, the
    name and the size of the file, and the status [processed]. *)
Theorem processDocument_success_effects
    (file : File) (metadata : UploadMetadata) (env : DocumentService.Env)
    (w w' : World) (result : Processed) :
  processDocument extension_of file metadata env w = (w', Ok result) →
  ∃ text vectors,
    extractText extension_of file (read env) = Ok (Some text)
    ∧ trim text ≠ []
    ∧ initialized (db w) = true ∧ index (db w) = true
    ∧ upsert_answer env = Ok tt
    ∧ upserted w' = upserted w ++ [vectors]
    ∧ length vectors = length (createChunks text)
    ∧ chunksCreated result = length vectors
    ∧ db w' = db w
    ∧ files w' = (if unlink_answer env is Ok _
                  then files w ∖ {[path file]} else files w)
    ∧ result_filename result = originalname file
    ∧ result_fileSize result = DocumentService.size file
    ∧ DocumentService.status result = "processed".
Proof.
  intros (text & vectors & Htext & Hblank & Hvec & Hup & -> & ->)
    %processDocument_Ok.
  exists text, vectors. do 2 (split; [done|]).
  apply generateVectorData_Ok in Hvec as [Hlen _].
  unfold upsertVectors in Hup.
  destruct (initialized (db w)), (index (db w)); try done.
  destruct (upsert_answer env) as [[]|e]; [|done].
  by rewrite Hlen.
Qed.

(** X21. When the caller supplies a document id that is not empty, a
    successful [processDocument] returns that id, and every entry of the
    batch it upserts carries it: entry [i] has the id [{d}_chunk_{i}] and
    the document id [d] of the result. *)
Theorem processDocument_supplied_id
    (file : File) (metadata : UploadMetadata) (env : DocumentService.Env)
    (w w' : World) (result : Processed) (d : string) :
  md_documentId metadata = Some d → d ≠ "" →
  processDocument extension_of file metadata env w = (w', Ok result) →
  result_documentId result = d
  ∧ ∃ vectors,
      upserted w' = upserted w ++ [vectors]
      ∧ ∀ i v, vectors !! i = Some v →
          VectorDatabase.id v = d +:+ "_chunk_" +:+ pretty i
          ∧ VectorDatabase.documentId (VectorDatabase.metadata v)
            = result_documentId result.
Proof.
  intros Hd Hne
    (text & vectors & Htext & Hblank & Hvec & Hup & -> & ->)%processDocument_Ok.
  assert (Hid : ∀ uuid, or_string (md_documentId metadata) uuid = d).
  { intros uuid. rewrite Hd. simpl. by rewrite bool_decide_eq_false_2. }
  cbn [result_documentId upserted]. split; [apply Hid|].
  exists vectors. split; [done|]. intros i v Hi.
  apply generateVectorData_Ok in Hvec as [_ Hv].
  destruct (Hv i v Hi) as [-> ->]. by rewrite !Hid.
Qed.

(** X22. A failed [processDocument] leaves everything as it was: nothing
    is added to the index and no file is removed.  The error is the one
    of the step that failed: the extraction error; the no-text error for
    an absent or blank text; the provider's message after
    ['Error generando embeddings: ']; the not-initialised error of the
    vector database; or the error of the index, as it is. *)
Theorem processDocument_failure
    (file : File) (metadata : UploadMetadata) (env : DocumentService.Env)
    (w w' : World) (e : Error) :
  processDocument extension_of file metadata env w = (w', Throw e) →
  w' = w
  ∧ (extractText extension_of file (read env) = Throw e
     ∨ e = Err "No se pudo extraer texto del documento"
     ∨ (∃ e0, created env = Throw e0
              ∧ e = Err ("Error generando embeddings: " +:+ message e0))
     ∨ e = not_initialized
     ∨ upsert_answer env = Throw e).
Proof.
  unfold processDocument. intros H.
  apply SE_bind_Throw in H as [H|(w1 & text0 & H1 & H)].
  { apply SE_lift_inv in H as [-> H]. split; [done|]. by left. }
  apply SE_lift_inv in H1 as [-> _].
  apply SE_bind_Throw in H as [H|(w2 & text & H2 & H)].
  { pose proof (usable_text_state _ _ _ _ H) as ->. split; [done|].
    right; left. unfold usable_text in H.
    destruct text0 as [text1|]; [case_bool_decide|];
      first [discriminate H|by injection H as <-]. }
  apply usable_text_state in H2 as ->.
  apply SE_bind_Throw in H as [H|(w3 & vectors & H3 & H)].
  { apply SE_lift_inv in H as [-> H]. split; [done|].
    do 2 right; left. unfold generateVectorData, generateBatchEmbeddings in H.
    destruct (created env) as [embeddings|e0]; [done|]. simpl in H.
    injection H as ->. by exists e0. }
  apply SE_lift_inv in H3 as [-> _].
  apply SE_bind_Throw in H as [H|(w4 & [] & H4 & H)].
  { pose proof (upsert_Throw _ _ _ _ _ H) as ->. split; [done|].
    unfold upsert, get_state, modify_state, lift, mbind, SE_bind,
      upsertVectors in H.
    destruct (negb (initialized (db w)) || negb (index (db w))).
    - injection H as <-. by do 3 right; left.
    - destruct (upsert_answer env) as [[]|e1]; [done|].
      injection H as <-. by do 4 right. }
  apply SE_bind_Throw in H as [H|(w5 & [] & H5 & H)];
    [by apply unlink_quietly_Ok in H as [[=] _]|].
  discriminate H.
Qed.

(** X23. A text that is not blank but has at most 50 characters is
    ingested with success and without a single chunk: [processDocument]
    sends an empty batch to the index and reports [chunksCreated] 0. *)
Theorem processDocument_tiny_text
    (file : File) (metadata : UploadMetadata) (env : DocumentService.Env)
    (w : World) (text : jsstring) :
  extractText extension_of file (read env) = Ok (Some text) →
  trim text ≠ [] → length text ≤ 50 →
  (∃ embeddings, created env = Ok embeddings) →
  initialized (db w) = true → index (db w) = true →
  upsert_answer env = Ok tt →
  ∃ w' result,
    processDocument extension_of file metadata env w = (w', Ok result)
    ∧ chunksCreated result = 0
    ∧ upserted w' = upserted w ++ [[]]
    ∧ DocumentService.status result = "processed".
Proof.
  intros Htext Hblank Htiny [embeddings Hemb] Hinit Hindex Hup.
  assert (Hchunks : createChunks text = []).
  { apply createChunks_short_text; unfold chunkSize; lia. }
  unfold processDocument. rewrite Htext.
  unfold mbind at 1, SE_bind, lift. unfold usable_text.
  rewrite bool_decide_eq_false_2.
  2:{ intros [->|Hlen]; [done|]. by destruct (trim text). }
  unfold mbind at 1, SE_bind, mret, SE_ret. rewrite Hchunks.
  unfold generateVectorData, generateBatchEmbeddings. rewrite Hemb.
  cbn [try_catch mbind Result_bind Js.bind imap].
  unfold mbind at 1, SE_bind, lift.
  unfold upsert, mbind, SE_bind, get_state, lift, modify_state,
    upsertVectors, unlink_quietly, mret, SE_ret.
  rewrite Hinit, Hindex, Hup. cbn [negb orb try_catch].
  destruct (unlink_answer env); eexists _, _; by split; [reflexivity|].
Qed.
End ingestion_effects.

Lemma processDocument_success_effects_witness :
  ∃ w' result,
    processDocument txt_extension faq_file no_metadata faq_env upload_world
      = (w', Ok result)
    ∧ ∃ text vectors,
        extractText txt_extension faq_file (read faq_env) = Ok (Some text)
        ∧ trim text ≠ []
        ∧ initialized (db upload_world) = true
        ∧ index (db upload_world) = true
        ∧ upsert_answer faq_env = Ok tt
        ∧ upserted w' = upserted upload_world ++ [vectors]
        ∧ length vectors = length (createChunks text)
        ∧ chunksCreated result = length vectors
        ∧ db w' = db upload_world
        ∧ files w' = (if unlink_answer faq_env is Ok _
                      then files upload_world ∖ {[path faq_file]}
                      else files upload_world)
        ∧ result_filename result = originalname faq_file
        ∧ result_fileSize result = DocumentService.size faq_file
        ∧ DocumentService.status result = "processed".
Proof.
  eexists _, _. split; [vm_compute; reflexivity|].
  eapply (processDocument_success_effects txt_extension faq_file no_metadata
            faq_env upload_world).
  vm_compute. reflexivity.
Defined.

Lemma processDocument_supplied_id_witness :
  ∃ w' result,
    (md_documentId manual_metadata = Some "manual-7" ∧ "manual-7" ≠ ""
     ∧ processDocument txt_extension faq_file manual_metadata faq_env
                       upload_world = (w', Ok result))
    ∧ result_documentId result = "manual-7"
    ∧ ∃ vectors,
        upserted w' = upserted upload_world ++ [vectors]
        ∧ ∀ i v, vectors !! i = Some v →
            VectorDatabase.id v = "manual-7" +:+ "_chunk_" +:+ pretty i
            ∧ VectorDatabase.documentId (VectorDatabase.metadata v)
              = result_documentId result.
Proof.
  eexists _, _.
  split; [split; [reflexivity|split; [done|vm_compute; reflexivity]]|].
  eapply (processDocument_supplied_id txt_extension faq_file manual_metadata
            faq_env upload_world);
    [reflexivity|done|vm_compute; reflexivity].
Defined.

Lemma processDocument_failure_witness :
  ∃ w' e,
    processDocument txt_extension faq_file no_metadata failing_env upload_world
      = (w', Throw e)
    ∧ w' = upload_world
    ∧ (extractText txt_extension faq_file (read failing_env) = Throw e
       ∨ e = Err "No se pudo extraer texto del documento"
       ∨ (∃ e0, created failing_env = Throw e0
                ∧ e = Err ("Error generando embeddings: " +:+ message e0))
       ∨ e = not_initialized
       ∨ upsert_answer failing_env = Throw e).
Proof.
  eexists _, _. split; [vm_compute; reflexivity|].
  eapply (processDocument_failure txt_extension faq_file no_metadata
            failing_env upload_world).
  vm_compute. reflexivity.
Defined.

Lemma processDocument_tiny_text_witness :
  (extractText txt_extension faq_file (read note_env) = Ok (Some note_text)
   ∧ trim note_text ≠ [] ∧ length note_text ≤ 50
   ∧ (∃ embeddings, created note_env = Ok embeddings)
   ∧ initialized (db upload_world) = true ∧ index (db upload_world) = true
   ∧ upsert_answer note_env = Ok tt)
  ∧ ∃ w' result,
      processDocument txt_extension faq_file no_metadata note_env upload_world
        = (w', Ok result)
      ∧ chunksCreated result = 0
      ∧ upserted w' = upserted upload_world ++ [[]]
      ∧ DocumentService.status result = "processed".
Proof.
  assert (H1 : extractText txt_extension faq_file (read note_env)
               = Ok (Some note_text)) by reflexivity.
  assert (H2 : trim note_text ≠ []) by (vm_compute; discriminate).
  assert (H3 : length note_text ≤ 50) by (vm_compute; lia).
  assert (H4 : ∃ embeddings, created note_env = Ok embeddings)
    by (by eexists).
  split; [by repeat split|].
  exact (processDocument_tiny_text txt_extension faq_file no_metadata
           note_env upload_world note_text H1 H2 H3 H4 eq_refl eq_refl
           eq_refl).
Defined.

(** ** Deleting a document *)

(** X24. [DELETE /api/documents/:documentId] removes nothing: whatever the
    id, the index and the files are what they were.  It answers 200 with
    the id exactly when the vector database is initialised and the
    statistics call of the index succeeds, and 404 in every other case;
    it never hands an error over. *)
Theorem delete_document_removes_nothing
    (documentId : string) (answer : Result IndexStats) (w : World) :
  ∃ reply,
    Routes.delete_document documentId answer w = (w, reply)
    ∧ (reply = Routes.Json 200 documentId
       ↔ initialized (db w) = true ∧ index (db w) = true
         ∧ ∃ stats, answer = Ok stats)
    ∧ (reply = Routes.Json 200 documentId
       ∨ reply = Routes.Refused 404
                   "Documento no encontrado o error al eliminar").
Proof.
  unfold Routes.delete_document, deleteDocument, get_state, lift, mbind,
    SE_bind, getIndexStats.
  destruct (initialized (db w)), (index (db w)); simpl;
    try (eexists; split; [reflexivity|];
         split; [|by right]; split; [done|by intros (? & ? & _)]).
  destruct answer as [stats|e]; simpl; eexists; (split; [reflexivity|]).
  - split; [|by left]. split; [|done]. intros _. by eauto.
  - split; [|by right]. split; [done|]. by intros (_ & _ & ? & [=]).
Qed.

(** ** The vector database *)

(** X25. What [initialize] does, starting from a database that is not
    initialised.  Without an API key, or when the client cannot be made,
    it returns false and changes nothing; when the index exists (its
    handle is obtained and its statistics are read) it returns true with
    the database initialised; it fails to return only while every poll
    for the index it has created answers that the index is not ready.
    Whenever it returns, it returns true exactly when it has marked the
    database initialised, and then the index handle is set and the four
    operations pass on the answer of the index; when it returns false,
    each of the four operations throws the not-initialised error without
    calling the index. *)
Theorem initialize_result (env : InitEnv) (db : VectorDatabase.t) :
  initialized db = false →
  (api_key env = false → initialize env db = Some (db, false))
  ∧ (∀ e, client env = Throw e → initialize env db = Some (db, false))
  ∧ (∀ made, api_key env = true → client env = Ok made →
       (_ ← handle env; describe_stats env) = Ok tt →
       initialize env db
       = Some ({| initialized := true; index := true |}, true))
  ∧ (initialize env db = None →
     Forall (λ poll, poll = Ok false) (polls env))
  ∧ ∀ db' ok,
      initialize env db = Some (db', ok) →
      initialized db' = ok
      ∧ (ok = true → index db' = true)
      ∧ (∀ vectors ids embedding k restriction
           (upserting deleting : Result unit)
           (querying : Result (option (list Match)))
           (describing : Result IndexStats),
           if ok then
             upsertVectors db' vectors upserting = upserting
             ∧ deleteVectors db' ids deleting = deleting
             ∧ queryVectors db' embedding k restriction querying
               = (matches ← querying; Ok (default [] matches))
             ∧ getIndexStats db' describing = describing
           else
             upsertVectors db' vectors upserting = Throw not_initialized
             ∧ deleteVectors db' ids deleting = Throw not_initialized
             ∧ queryVectors db' embedding k restriction querying
               = Throw not_initialized
             ∧ getIndexStats db' describing = Throw not_initialized).
Proof.
  intros Hdb. split; [|split; [|split; [|split]]].
  - intros Hkey. unfold initialize. by rewrite Hkey.
  - intros e Hclient. unfold initialize. rewrite Hclient.
    by destruct (api_key env).
  - intros made Hkey Hclient Hprobe. unfold initialize.
    by rewrite Hkey, Hclient, Hprobe.
  - unfold initialize. destruct (api_key env); [|done]. cbn [negb].
    destruct (client env); [|done].
    destruct (_ ← handle env; describe_stats env); [done|].
    destruct (create_index env); [|done].
    assert (Hnone : wait_ready (polls env) = None →
                    Forall (λ poll, poll = Ok false) (polls env)).
    { induction (polls env) as [|[[]|failure] ps IH]; simpl;
        [done|done| |done].
      intros Hps. constructor; [done|by apply IH]. }
    destruct (wait_ready (polls env)) as [[[]|e2]|]; [| |by auto];
      [by destruct (handle_again env)|done].
  - intros db' ok Hinit.
    assert (Hcases : (ok = true ∧ initialized db' = true ∧ index db' = true)
                     ∨ (ok = false ∧ initialized db' = false)).
    { unfold initialize in Hinit.
      destruct (api_key env); cbn [negb] in Hinit;
        [|injection Hinit as <- <-; by right].
      destruct (client env); [|injection Hinit as <- <-; by right].
      destruct (handle env) as [[]|e1]; simpl in Hinit.
      - destruct (describe_stats env); [injection Hinit as <- <-; by left|].
        destruct (create_index env); [|injection Hinit as <- <-; by right].
        destruct (wait_ready (polls env)) as [[[]|e2]|]; [| |done];
          [|injection Hinit as <- <-; by right].
        destruct (handle_again env); injection Hinit as <- <-;
          [by left|by right].
      - destruct (create_index env); [|injection Hinit as <- <-; by right].
        destruct (wait_ready (polls env)) as [[[]|e2]|]; [| |done];
          [|injection Hinit as <- <-; by right].
        destruct (handle_again env); injection Hinit as <- <-;
          [by left|by right]. }
    destruct Hcases as [(-> & Hi & Hx)|(-> & Hi)].
    + split; [done|]. split; [done|].
      intros. unfold upsertVectors, deleteVectors, queryVectors,
        getIndexStats.
      rewrite Hi, Hx. simpl. repeat split.
      * by destruct upserting.
      * by destruct deleting.
      * by destruct querying.
      * by destruct describing.
    + split; [done|]. split; [done|].
      intros. unfold upsertVectors, deleteVectors, queryVectors,
        getIndexStats.
      by rewrite Hi.
Qed.

Lemma initialize_result_witness :
  initialized VectorDatabase.constructor = false
  ∧ (api_key no_key_start = false →
     initialize no_key_start VectorDatabase.constructor
     = Some (VectorDatabase.constructor, false))
  ∧ (∀ e, client no_key_start = Throw e →
       initialize no_key_start VectorDatabase.constructor
       = Some (VectorDatabase.constructor, false))
  ∧ (∀ made, api_key no_key_start = true → client no_key_start = Ok made →
       (_ ← handle no_key_start; describe_stats no_key_start) = Ok tt →
       initialize no_key_start VectorDatabase.constructor
       = Some ({| initialized := true; index := true |}, true))
  ∧ (initialize no_key_start VectorDatabase.constructor = None →
     Forall (λ poll, poll = Ok false) (polls no_key_start))
  ∧ ∀ db' ok,
      initialize no_key_start VectorDatabase.constructor = Some (db', ok) →
      initialized db' = ok
      ∧ (ok = true → index db' = true)
      ∧ (∀ vectors ids embedding k restriction
           (upserting deleting : Result unit)
           (querying : Result (option (list Match)))
           (describing : Result IndexStats),
           if ok then
             upsertVectors db' vectors upserting = upserting
             ∧ deleteVectors db' ids deleting = deleting
             ∧ queryVectors db' embedding k restriction querying
               = (matches ← querying; Ok (default [] matches))
             ∧ getIndexStats db' describing = describing
           else
             upsertVectors db' vectors upserting = Throw not_initialized
             ∧ deleteVectors db' ids deleting = Throw not_initialized
             ∧ queryVectors db' embedding k restriction querying
               = Throw not_initialized
             ∧ getIndexStats db' describing = Throw not_initialized).
Proof.
  split; [reflexivity|].
  exact (initialize_result no_key_start VectorDatabase.constructor eq_refl).
Defined.

(** A first start, on which the index is created and becomes ready at the
    second poll, ends with the database initialised; a start without an
    API key returns false at once. *)
Example initialize_first_start :
  initialize first_start VectorDatabase.constructor
  = Some ({| initialized := true; index := true |}, true)
  ∧ initialize no_key_start VectorDatabase.constructor
    = Some (VectorDatabase.constructor, false).
Proof. split; reflexivity. Qed.

(** X26. When the index has to be created, [initialize] waits for it
    without a limit: as long as every poll answers that the index is not
    ready, it has not returned.  It returns false, without marking the
    database initialised, at the first poll that fails, and true at the
    first poll that answers that the index is ready, if the index handle
    can then be obtained. *)
Theorem initialize_waits_for_index (env : InitEnv) (db : VectorDatabase.t) :
  api_key env = true →
  (∃ u, client env = Ok u) →
  (∃ e, (_ ← handle env; describe_stats env) = Throw e) →
  (∃ u, create_index env = Ok u) →
  (initialize env db = None ↔ Forall (λ poll, poll = Ok false) (polls env))
  ∧ (∀ waiting e later,
       polls env = replicate waiting (Ok false) ++ Throw e :: later →
       ∃ db', initialize env db = Some (db', false)
              ∧ initialized db' = initialized db)
  ∧ (∀ waiting later,
       polls env = replicate waiting (Ok false) ++ Ok true :: later →
       (∃ u, handle_again env = Ok u) →
       ∃ db', initialize env db = Some (db', true)).
Proof.
  intros Hkey [u1 Hclient] [e1 Hstats] [u2 Hcreate].
  unfold initialize. rewrite Hkey, Hclient, Hstats, Hcreate. cbn [negb].
  assert (Hwait : ∀ waiting rest,
            wait_ready (replicate waiting (Ok false) ++ rest)
            = wait_ready rest).
  { intros waiting rest. by induction waiting as [|n IH]. }
  split; [|split].
  - assert (Hnone : wait_ready (polls env) = None
                    ↔ Forall (λ poll, poll = Ok false) (polls env)).
    { induction (polls env) as [|[[]|e] ps IH]; simpl.
      - done.
      - split; [done|]. by intros [[=] _]%Forall_cons.
      - rewrite IH. split; [by constructor|by intros [_ ?]%Forall_cons].
      - split; [done|]. by intros [[=] _]%Forall_cons. }
    rewrite <-Hnone.
    destruct (wait_ready (polls env)) as [[[]|e2]|]; [|done..].
    by destruct (handle_again env).
  - intros waiting e later ->. rewrite Hwait. cbn [wait_ready].
    eexists. split; [reflexivity|]. by destruct (handle env).
  - intros waiting later -> [u3 Hagain]. rewrite Hwait. cbn [wait_ready].
    rewrite Hagain. by eexists.
Qed.

Lemma initialize_waits_for_index_witness :
  (api_key first_start = true
   ∧ (∃ u, client first_start = Ok u)
   ∧ (∃ e, (_ ← handle first_start; describe_stats first_start) = Throw e)
   ∧ (∃ u, create_index first_start = Ok u))
  ∧ (initialize first_start VectorDatabase.constructor = None
     ↔ Forall (λ poll, poll = Ok false) (polls first_start))
  ∧ (∀ waiting e later,
       polls first_start = replicate waiting (Ok false) ++ Throw e :: later →
       ∃ db', initialize first_start VectorDatabase.constructor
              = Some (db', false)
              ∧ initialized db' = initialized VectorDatabase.constructor)
  ∧ (∀ waiting later,
       polls first_start = replicate waiting (Ok false) ++ Ok true :: later →
       (∃ u, handle_again first_start = Ok u) →
       ∃ db', initialize first_start VectorDatabase.constructor
              = Some (db', true)).
Proof.
  assert (H1 : ∃ u, client first_start = Ok u) by (by eexists).
  assert (H2 : ∃ e, (_ ← handle first_start; describe_stats first_start)
                    = Throw e) by (by eexists).
  assert (H3 : ∃ u, create_index first_start = Ok u) by (by eexists).
  split; [by repeat split|].
  exact (initialize_waits_for_index first_start VectorDatabase.constructor
           eq_refl H1 H2 H3).
Defined.

(** ** The error handler *)

(** [errorHandler] as the chain of its rules. *)
Lemma errorHandler_rules (development : bool) (err : ErrorHandler.Thrown) :
  ErrorHandler.errorHandler development err
  = (error ← (if bool_decide (ErrorHandler.name err = "ValidationError")
              then match ErrorHandler.errors err with
                   | Some messages =>
                       Ok {| ErrorHandler.body_message :=
                               "Datos de entrada inválidos";
                             ErrorHandler.status := 400;
                             ErrorHandler.details := Some messages;
                             ErrorHandler.body_stack := None |}
                   | None => Throw TypeError
                   end
              else Ok {| ErrorHandler.body_message :=
                           "Error interno del servidor";
                         ErrorHandler.status := 500;
                         ErrorHandler.details := None;
                         ErrorHandler.body_stack := None |});
     message ← match ErrorHandler.message err with
                | Some message => Ok message
                | None => Throw TypeError
                end;
     let error := foldl apply_rule error (override_rules err message) in
     Ok {| ErrorHandler.body_message := ErrorHandler.body_message error;
           ErrorHandler.status := ErrorHandler.status error;
           ErrorHandler.details := ErrorHandler.details error;
           ErrorHandler.body_stack :=
             if development then
               match ErrorHandler.stack err with
               | Some trace => if bool_decide (trace = "") then None
                               else Some trace
               | None => None
               end
             else None |}).
Proof. reflexivity. Qed.

Lemma apply_rules_details (rules : list (bool * string * nat))
    (error : ErrorHandler.ErrorBody) :
  ErrorHandler.details (foldl apply_rule error rules)
  = ErrorHandler.details error.
Proof.
  revert error. induction rules as [|[[c m] s] rules IH]; intros error;
    [done|].
  cbn [foldl]. rewrite IH. unfold apply_rule. cbn [fst snd]. by destruct c.
Qed.

Lemma apply_rules_regular (rules : list (bool * string * nat))
    (error : ErrorHandler.ErrorBody) :
  Forall (λ rule, regular (ErrorHandler.set_error rule.1.2 rule.2 error))
         rules →
  regular error → regular (foldl apply_rule error rules).
Proof.
  revert error. induction rules as [|[[c m] s] rules IH]; intros error;
    [done|].
  intros [Hrule Hrules]%Forall_cons Herror. cbn [foldl]. apply IH.
  - eapply Forall_impl; [exact Hrules|]. by intros [[c' m'] s'].
  - unfold apply_rule. cbn [fst snd] in *. by destruct c.
Qed.

Lemma override_rules_regular (err : ErrorHandler.Thrown) (message : string)
    (error : ErrorHandler.ErrorBody) :
  Forall (λ rule, regular (ErrorHandler.set_error rule.1.2 rule.2 error))
         (override_rules err message).
Proof.
  unfold override_rules.
  repeat first [apply Forall_nil_2|apply Forall_cons_2];
    (split; [cbn; rewrite !elem_of_cons; lia|cbn; split; intros [=]]).
Qed.

(** X27. The answer of the error handler.  It fails itself in two cases
    only: on a [ValidationError] that carries no [errors], and on a value
    whose [message] is not a string, at [err.message.includes].  When it
    answers, the status is one of 400, 401, 413, 500 and 503; the rules
    are applied in order and the last one that matches decides, so that
    an error whose code is [ECONNREFUSED] or [ETIMEDOUT] is answered 503
    with the connection message; the status is 500 exactly when the
    message is the default one; details are only attached for a
    [ValidationError]; and the stack is never part of the answer outside
    development. *)
Theorem errorHandler_answer (development : bool) (err : ErrorHandler.Thrown) :
  match ErrorHandler.errorHandler development err with
  | Throw _ =>
      (ErrorHandler.name err = "ValidationError"
       ∧ ErrorHandler.errors err = None)
      ∨ ErrorHandler.message err = None
  | Ok body =>
      is_Some (ErrorHandler.message err)
      ∧ (ErrorHandler.name err = "ValidationError" →
         is_Some (ErrorHandler.errors err))
      ∧ ErrorHandler.status body ∈ [400; 401; 413; 500; 503]
      ∧ (ErrorHandler.code err = Some "ECONNREFUSED"
         ∨ ErrorHandler.code err = Some "ETIMEDOUT" →
         ErrorHandler.status body = 503
         ∧ ErrorHandler.body_message body
           = "Error de conexión. Por favor verifica tu conexión a internet.")
      ∧ (ErrorHandler.status body = 500
         ↔ ErrorHandler.body_message body = "Error interno del servidor")
      ∧ (is_Some (ErrorHandler.details body) →
         ErrorHandler.name err = "ValidationError")
      ∧ (development = false → ErrorHandler.body_stack body = None)
  end.
Proof.
  rewrite errorHandler_rules.
  destruct (ErrorHandler.message err) as [message|];
    [|case_bool_decide; [destruct (ErrorHandler.errors err)|];
      cbn [mbind Result_bind Js.bind]; by eauto].
  set (final := λ error, foldl apply_rule error (override_rules err message)).
  assert (Hlast : ∀ error,
            ErrorHandler.code err = Some "ECONNREFUSED"
            ∨ ErrorHandler.code err = Some "ETIMEDOUT" →
            ErrorHandler.status (final error) = 503
            ∧ ErrorHandler.body_message (final error)
              = "Error de conexión. Por favor verifica tu conexión a internet.").
  { intros error Hcode. unfold final, override_rules.
    cbn [foldl]. unfold apply_rule at 1. cbn [fst snd].
    by rewrite bool_decide_eq_true_2. }
  assert (Hregular : ∀ error, regular error → regular (final error)).
  { intros error. apply apply_rules_regular, override_rules_regular. }
  assert (Hdetails : ∀ error,
            ErrorHandler.details (final error) = ErrorHandler.details error).
  { intros error. apply apply_rules_details. }
  case_bool_decide as Hval.
  - destruct (ErrorHandler.errors err) as [messages|]; [|by left].
    cbn [mbind Result_bind Js.bind]. cbv zeta. fold (final
      {| ErrorHandler.body_message := "Datos de entrada inválidos";
         ErrorHandler.status := 400; ErrorHandler.details := Some messages;
         ErrorHandler.body_stack := None |}).
    cbn [ErrorHandler.status ErrorHandler.body_message ErrorHandler.details
         ErrorHandler.body_stack].
    destruct (Hregular
      {| ErrorHandler.body_message := "Datos de entrada inválidos";
         ErrorHandler.status := 400; ErrorHandler.details := Some messages;
         ErrorHandler.body_stack := None |}) as [Hin Hiff].
    { split; [cbn; rewrite !elem_of_cons; lia|cbn; split; intros [=]]. }
    split; [done|]. split; [done|].
    split; [done|]. split; [apply Hlast|]. split; [done|].
    split; [done|]. by intros ->.
  - cbn [mbind Result_bind Js.bind]. cbv zeta. fold (final
      {| ErrorHandler.body_message := "Error interno del servidor";
         ErrorHandler.status := 500; ErrorHandler.details := None;
         ErrorHandler.body_stack := None |}).
    cbn [ErrorHandler.status ErrorHandler.body_message ErrorHandler.details
         ErrorHandler.body_stack].
    destruct (Hregular
      {| ErrorHandler.body_message := "Error interno del servidor";
         ErrorHandler.status := 500; ErrorHandler.details := None;
         ErrorHandler.body_stack := None |}) as [Hin Hiff].
    { split; [cbn; rewrite !elem_of_cons; lia|done]. }
    split; [done|]. split; [done|].
    split; [done|]. split; [apply Hlast|]. split; [done|].
    rewrite Hdetails. split; [by intros [? [=]]|]. by intros ->.
Qed.

(** A connection error is answered 503 with the connection message, and
    with its stack in development only. *)
Example errorHandler_connection_refused :
  ErrorHandler.errorHandler true connection_refused
  = Ok {| ErrorHandler.body_message :=
            "Error de conexión. Por favor verifica tu conexión a internet.";
          ErrorHandler.status := 503; ErrorHandler.details := None;
          ErrorHandler.body_stack := Some "Error: connect ECONNREFUSED" |}
  ∧ ErrorHandler.errorHandler false connection_refused
    = Ok {| ErrorHandler.body_message :=
              "Error de conexión. Por favor verifica tu conexión a internet.";
            ErrorHandler.status := 503; ErrorHandler.details := None;
            ErrorHandler.body_stack := None |}.
Proof. split; vm_compute; reflexivity. Qed.

(** ** The confidence of an answer *)






(** ** Statistics of the index *)

(** X29. [getDocumentStats] never fails: an error of the statistics call,
    like a vector database that is not initialised, is reported as an
    empty index of dimension 1536.  When the index answers, the number of
    vectors is the one it reports, or 0 when it reports none, and a
    dimension that is absent or 0 is replaced by 1536, so that the
    reported dimension is never 0. *)
Theorem getDocumentStats_never_fails
    (db : VectorDatabase.t) (answer : Result IndexStats) (now1 now2 : Z) :
  ∃ stats,
    getDocumentStats db answer now1 now2 = Ok stats
    ∧ stats_dimension stats ≠ 0
    ∧ (initialized db = false ∨ index db = false ∨ (∃ e, answer = Throw e) →
       stats = {| totalVectors := 0; stats_indexFullness := 0%Qc;
                  stats_dimension := 1536; lastUpdate := now2 |})
    ∧ (∀ indexStats,
         initialized db = true → index db = true → answer = Ok indexStats →
         lastUpdate stats = now1
         ∧ totalVectors stats = default 0 (totalVectorCount indexStats)
         ∧ (stats_dimension stats
            = match dimension indexStats with
              | Some (S n) => S n
              | _ => 1536
              end)).
Proof.
  unfold getDocumentStats, getIndexStats.
  destruct (initialized db), (index db); simpl;
    try (eexists; split; [reflexivity|]; split; [done|]; split; [done|];
         by intros ? ? ?).
  destruct answer as [indexStats|e]; simpl; eexists; (split; [reflexivity|]).
  - cbn [stats_dimension lastUpdate totalVectors]. split; [|split].
    + unfold or_nat. destruct (dimension indexStats) as [[|n]|]; done.
    + by intros [?|[?|[? ?]]].
    + intros ? _ _ [= <-]. split; [done|]. split.
      * unfold or_nat. by destruct (totalVectorCount indexStats) as [[|n]|].
      * unfold or_nat. by destruct (dimension indexStats) as [[|n]|].
  - split; [done|]. split; [done|]. by intros ? _ _ ?.
Qed.
